(** * LTTB / LTD down-sampling: a shallow embedding of [down_sample/lttb.py]
    and [down_sample/ltd.py], and the properties its specification states.

    Numbers.  The values of an array are exact rationals ([Q]), compared by
    value ([Qeq_bool], [Qle_bool]): this covers the finite values of float64
    and of integer arrays.  The code computes in float64: [float64 q] is the
    float64 number nearest to [q] (ties to even, gradual underflow), every
    arithmetic operation of the code gives the exact result rounded by it,
    and a row written to [out], which is a float64 array, is converted by
    it.  Overflow to an infinity and nan are left out: a theorem that
    depends on computed values asks that the intermediate results are
    float64 numbers, which bounds them.  The mean of an empty bucket (numpy
    gives [nan, nan]) is modelled by [None].

    Exceptions.  Python exceptions are the constructors of [exn]; a function
    that can raise returns a [result].  The four ValueErrors of the
    validation carry the names the specification gives them.

    Libraries.  [scipy.stats.linregress] and [np.argsort] are parameters
    (class [Externals]): a score for a list of rows, and any permutation of
    the indices that sorts the scores.  [linregress] raises ValueError when
    all the x values it is given are equal: a theorem that needs the score
    of a bucket asks that its rows have two different x values.  [np.sort],
    [np.argmax], [np.argmin], [np.array_split] and [mean] are written out.

    Shared text.  The two files start with the same validation and end with
    the same selection loop, line for line; they are [validate] and
    [select_points] here. *)

From Stdlib Require Import QArith Qabs Qround Qpower Lqa ZArith Lia List.
From Stdlib Require Import Permutation.
From stdpp Require Import base tactics option list.

Local Open Scope Z_scope.

(** ** Exceptions and the result monad *)

Inductive exn : Type :=
  | ShapeMismatch      (* ValueError('data should have 2 columns') *)
  | NotSorted          (* ValueError('data should be sorted on first column') *)
  | OutOfRange         (* ValueError('n_out must be <= number of rows in data') *)
  | TooFew             (* ValueError('Can only downsample to a minimum of 3 points') *)
  | IndexError         (* list / array index out of range *)
  | ValueError         (* any other ValueError: argmax or min of an empty
                          sequence, array_split into fewer than one section *)
  | ZeroDivisionError
  | UnboundLocalError. (* a loop variable read after a loop that never ran *)

Inductive result (A : Type) : Type :=
  | Ok (a : A)
  | Raise (e : exn).
Arguments Ok {A} a.
Arguments Raise {A} e.

#[export] Instance result_ret : MRet result := fun A a => Ok a.
#[export] Instance result_bind : MBind result := fun A B f m =>
  match m with
  | Ok a => f a
  | Raise e => Raise e
  end.

(** ** Python indexing *)

(** [l[i]] for a list or an array: a negative index counts from the end, an
    index outside [-len, len) raises IndexError. *)
Definition py_index {A} (l : list A) (i : Z) : option nat :=
  let n := Z.of_nat (length l) in
  if (0 <=? i) && (i <? n) then Some (Z.to_nat i)
  else if (- n <=? i) && (i <? 0) then Some (Z.to_nat (n + i))
  else None.

Definition getitem {A} (l : list A) (i : Z) : result A :=
  match py_index l i with
  | Some k => match l !! k with Some a => Ok a | None => Raise IndexError end
  | None => Raise IndexError
  end.

(** [l[i] = v] *)
Definition setitem {A} (l : list A) (i : Z) (v : A) : result (list A) :=
  match py_index l i with
  | Some k => Ok (<[k := v]> l)
  | None => Raise IndexError
  end.

(** [range(n)] as the list of its values. *)
Definition range (n : nat) : list Z := map Z.of_nat (seq 0 n).

(** A [for] loop whose body may raise: the state is threaded left to right. *)
Fixpoint for_each {St I} (body : St -> I -> result St) (idx : list I)
    (s : St) : result St :=
  match idx with
  | [] => Ok s
  | i :: rest => s' ← body s i; for_each body rest s'
  end.

(** ** Arrays *)

(** A row of a 2-D array. *)
Definition row : Type := list Q.

(** A 2-D numpy array: [shape1] is [data.shape[1]], [rows] its rows
    ([data.shape[0]] is their number). *)
Record ndarray : Type := { shape1 : nat; rows : list row }.

Definition shape0 (a : ndarray) : Z := Z.of_nat (length (rows a)).

(** Columns of a row: [p[0]] and [p[1]]. *)
Definition px (p : row) : Q := nth 0 p 0%Q.
Definition py (p : row) : Q := nth 1 p 0%Q.

(** [data[:, 0]] *)
Definition column0 (rs : list row) : list Q := map px rs.
Definition column1 (rs : list row) : list Q := map py rs.

(** [==] on the lists that [tolist()] gives: same length, equal values. *)
Fixpoint row_eqb (p q : row) : bool :=
  match p, q with
  | [], [] => true
  | a :: p', b :: q' => Qeq_bool a b && row_eqb p' q'
  | _, _ => false
  end.

(** [p in bin_lists] *)
Definition contains (p : row) (bin_lists : list row) : bool :=
  existsb (row_eqb p) bin_lists.

(** [np.sort] of a 1-D array of numbers. *)
Fixpoint insert_sorted (a : Q) (l : list Q) : list Q :=
  match l with
  | [] => [a]
  | b :: l' => if Qle_bool a b then a :: l else b :: insert_sorted a l'
  end.

Definition np_sort (l : list Q) : list Q := foldr insert_sorted [] l.

(** [any(a != b)] for two 1-D arrays of the same length. *)
Fixpoint any_ne (a b : list Q) : bool :=
  match a, b with
  | x :: a', y :: b' => negb (Qeq_bool x y) || any_ne a' b'
  | _, _ => false
  end.

(** [np.array_split(ary, sections)]: the first [len mod sections] parts have
    [len / sections + 1] rows, the others [len / sections]. *)
Fixpoint chunks {A} (l : list A) (sizes : list nat) : list (list A) :=
  match sizes with
  | [] => []
  | s :: ss => take s l :: chunks (drop s l) ss
  end.

Definition section_sizes (total sections : nat) : list nat :=
  repeat (S (total / sections)) (total mod sections)
  ++ repeat (total / sections)%nat (sections - total mod sections).

Definition array_split {A} (ary : list A) (sections : Z)
  : result (list (list A)) :=
  if sections <=? 0 then Raise ValueError
  else Ok (chunks ary (section_sizes (length ary) (Z.to_nat sections))).

Arguments array_split : simpl never.

(** [np.argmax] of a 1-D array without nan: the first index of the maximum. *)
Fixpoint argmax_from (best_i : nat) (best : Q) (i : nat) (l : list Q) : nat :=
  match l with
  | [] => best_i
  | a :: l' =>
      if Qlt_le_dec best a then argmax_from i a (S i) l'
      else argmax_from best_i best (S i) l'
  end.

Definition argmax (l : list Q) : result nat :=
  match l with
  | [] => Raise ValueError
  | a :: l' => Ok (argmax_from 0 a 1 l')
  end.

(** [np.argmin], and [l.index(min(l))] for a Python list: the first index of
    the minimum. *)
Fixpoint argmin_from (best_i : nat) (best : Q) (i : nat) (l : list Q) : nat :=
  match l with
  | [] => best_i
  | a :: l' =>
      if Qlt_le_dec a best then argmin_from i a (S i) l'
      else argmin_from best_i best (S i) l'
  end.

Definition argmin (l : list Q) : result nat :=
  match l with
  | [] => Raise ValueError
  | a :: l' => Ok (argmin_from 0 a 1 l')
  end.

(** ** float64 *)

(** [floor (log2 q)] for a positive [q]. *)
Definition ilog2 (q : Q) : Z :=
  let e0 := Z.log2 (Qnum q) - Z.log2 (Zpos (Qden q)) in
  if Qle_bool (2 ^ e0)%Q q then e0 else e0 - 1.

(** Rounding to the nearest integer, ties to even. *)
Definition rne (x : Q) : Z :=
  let k := Qfloor x in
  match Qcompare (x - inject_Z k) (1 # 2) with
  | Lt => k
  | Gt => k + 1
  | Eq => if Z.even k then k else k + 1
  end.

(** A positive number rounded to 53 significant bits, and to a multiple of
    [2 ^ -1074] below [2 ^ -1022] (the subnormal numbers). *)
Definition round_pos (a : Q) : Q :=
  let e := Z.max (ilog2 a - 52) (-1074) in
  (inject_Z (rne (a / 2 ^ e)) * 2 ^ e)%Q.

Definition round64 (q : Q) : Q :=
  match Qnum q with
  | Z0 => 0%Q
  | Zpos _ => round_pos q
  | Zneg _ => (- round_pos (- q))%Q
  end.

(** The float64 number nearest to [q]: what a conversion to float64 and the
    rounding of an exact result give.  A float64 number is returned as it
    is. *)
Definition float64 (q : Q) : Q :=
  let r := round64 q in if Qeq_bool r q then q else r.

(** [q] is a finite float64 number. *)
Definition is_float64 (q : Q) : bool :=
  Qeq_bool (round64 q) q && negb (Qle_bool (2 ^ 1024)%Q (Qabs q)).

(** A row as an assignment to a row of a float64 array stores it. *)
Definition float64_row (p : row) : row := map float64 p.

(** The operations of float64 arrays and scalars; an operand of another
    type (a value of an integer array, a Python int) is converted first. *)
Definition fadd (a b : Q) : Q := float64 (float64 a + float64 b).
Definition fsub (a b : Q) : Q := float64 (float64 a - float64 b).
Definition fmul (a b : Q) : Q := float64 (float64 a * float64 b).
Definition fdiv (a b : Q) : Q := float64 (float64 a / float64 b).

Arguments float64 : simpl never.
Arguments float64_row : simpl never.
Arguments fadd : simpl never.
Arguments fsub : simpl never.
Arguments fmul : simpl never.
Arguments fdiv : simpl never.

(** The exact sum of a list. *)
Definition Qsum (l : list Q) : Q := foldr Qplus 0%Q l.

(** [bin.mean(axis=0)]: the rows are added one after the other in float64
    and the sums divided by the number of rows; [None] is numpy's
    [nan, nan] for an array without rows. *)
Definition fsum (l : list Q) : Q :=
  match l with
  | [] => 0%Q
  | a :: l' => foldl fadd (float64 a) l'
  end.

Definition mean0 (bin : list row) : option row :=
  match bin with
  | [] => None
  | _ =>
      let n := inject_Z (Z.of_nat (length bin)) in
      Some [fdiv (fsum (column0 bin)) n; fdiv (fsum (column1 bin)) n]
  end.

(** ** lttb.py *)

(** [_area_of_triangles(this_bin, pre_point, next_point)], one area per row
    of [this_bin]; [pre_point] and [next_point] are float64 rows. *)
Definition area_of_triangle (pre_point next_point p : row) : Q :=
  let bin_pre1 := fsub (py p) (py pre_point) in
  let pre_bin0 := fsub (px pre_point) (px p) in
  fmul (1 # 2)
       (Qabs (fsub (fmul (fsub (px pre_point) (px next_point)) bin_pre1)
                   (fmul pre_bin0 (fsub (py next_point) (py pre_point))))).

Definition _area_of_triangles (this_bin : list row) (pre_point next_point : row)
  : list Q :=
  map (area_of_triangle pre_point next_point) this_bin.

(** [np.argmax(_area_of_triangles(this_bin, pre_point, next_point))], where
    [next_point] may be [nan, nan]: then every area is nan and argmax gives
    the first index. *)
Definition argmax_area (this_bin : list row) (pre_point : row)
    (next_point : option row) : result nat :=
  match next_point with
  | Some nx => argmax (_area_of_triangles this_bin pre_point nx)
  | None => match this_bin with [] => Raise ValueError | _ => Ok 0%nat end
  end.

(** The body of the selection loop, which [lttb] and [ltd] share verbatim
    (lttb.py 68-87, ltd.py 152-171); the state is [out], a float64 array:
    a row assigned to it is converted. *)
Definition select_body (data : list row) (n_bins : Z)
    (data_bins : list (list row)) (max_point min_point : row)
    (out : list row) (i : Z) : result (list row) :=
  this_bin ← getitem data_bins i;
  if contains max_point this_bin
  then setitem out (i + 1) (float64_row max_point)
  else if contains min_point this_bin
  then setitem out (i + 1) (float64_row min_point)
  else
    next_bin ← (if i <? n_bins - 1 then getitem data_bins (i + 1)
                else Ok (drop (length data - 1) data));
    pre_point ← getitem out i;
    let next_point := mean0 next_bin in
    k ← argmax_area this_bin pre_point next_point;
    p ← getitem this_bin (Z.of_nat k);
    setitem out (i + 1) (float64_row p).

(** Everything after the bucketing (lttb.py 54-89, ltd.py 139-173). *)
Definition select_points (data : list row) (n_out : Z)
    (data_bins : list (list row)) : result (list row) :=
  let n_bins := n_out - 2 in
  let out := repeat [0%Q; 0%Q] (Z.to_nat n_out) in
  first ← getitem data 0;
  out ← setitem out 0 (float64_row first);
  last ← getitem data (Z.of_nat (length data) - 1);
  out ← setitem out (Z.of_nat (length out) - 1) (float64_row last);
  imax ← argmax (column1 data);
  max_point ← getitem data (Z.of_nat imax);
  imin ← argmin (column1 data);
  min_point ← getitem data (Z.of_nat imin);
  for_each (select_body data n_bins data_bins max_point min_point)
           (range (length data_bins)) out.

(** [data[1: len(data) - 1]] *)
Definition interior {A} (data : list A) : list A :=
  take (length data - 1 - 1) (drop 1 data).

(** The validation both entry points start with; [None] when the input
    passes and is not returned as it is. *)
Definition validate (data : ndarray) (n_out : Z) : option (result ndarray) :=
  if negb (shape1 data =? 2)%nat then Some (Raise ShapeMismatch)
  else if any_ne (column0 (rows data)) (np_sort (column0 (rows data)))
       then Some (Raise NotSorted)
  else if n_out >? shape0 data then Some (Raise OutOfRange)
  else if n_out =? shape0 data then Some (Ok data)
  else if n_out <? 3 then Some (Raise TooFew)
  else None.

Definition lttb (data : ndarray) (n_out : Z) : result ndarray :=
  match validate data n_out with
  | Some r => r
  | None =>
      let n_bins := n_out - 2 in
      data_bins ← array_split (interior (rows data)) n_bins;
      out ← select_points (rows data) n_out data_bins;
      Ok {| shape1 := 2; rows := out |}
  end.

(** ** ltd.py *)

(** What ltd.py takes from scipy and numpy.  [stderr bin] is
    [linregress(bin).stderr] for the rows [bin], where [linregress] returns:
    it raises ValueError when all the x values of [bin] are equal, and the
    theorems that need a score ask for two different x values ([distinct_x],
    [scorable]).  [argsort] is [np.argsort], whose order among equal scores
    depends on the sorting algorithm: it is any permutation of the indices
    that lists the scores in ascending order. *)
Class Externals : Type := {
  stderr : list row -> Q;
  argsort : list Q -> list nat;
  argsort_perm : forall l, Permutation (argsort l) (seq 0 (length l));
  argsort_sorted : forall l i j a b,
    (i < j)%nat -> argsort l !! i = Some a -> argsort l !! j = Some b ->
    (nth a l 0 <= nth b l 0)%Q
}.

(** The loop of [_find_max_bin] over [i] in [range(-1, -len(sort_sse)-1, -1)];
    [last_i] is the value [i] holds when the loop ends without returning. *)
Fixpoint find_max_loop (data_bins : list (list row)) (sort_sse : list nat)
    (idx : list Z) (last_i : option Z) : result nat :=
  match idx with
  | [] =>
      match last_i with
      | Some i => getitem sort_sse i
      | None => Raise UnboundLocalError
      end
  | i :: rest =>
      j ← getitem sort_sse i;
      b ← getitem data_bins (Z.of_nat j);
      if (2 <=? length b)%nat then Ok j
      else find_max_loop data_bins sort_sse rest (Some i)
  end.

(** [range(-1, -n-1, -1)] *)
Definition range_down (n : nat) : list Z :=
  map (fun k => - Z.of_nat (S k)) (seq 0 n).

(** [sum_pairs] of [_find_min_bin]: float64 sums of two scores. *)
Fixpoint sum_pairs (sse_list : list Q) : list Q :=
  match sse_list with
  | a :: (b :: _) as rest => fadd a b :: sum_pairs rest
  | _ => []
  end.

Definition _find_min_bin (sse_list : list Q) : result nat :=
  argmin (sum_pairs sse_list).

(** The body of the loop of [_resize_bins]; the state is [resize_bins]. *)
Definition resize_body (data_bins : list (list row)) (max_index min_index : nat)
    (resize_bins : list (list row)) (i : Z) : result (list (list row)) :=
  if i =? Z.of_nat max_index then
    b ← getitem data_bins i;
    halves ← array_split b 2;
    Ok (resize_bins ++ halves)
  else if i =? Z.of_nat min_index then
    b ← getitem data_bins i;
    b' ← getitem data_bins (i + 1);
    Ok (resize_bins ++ [b ++ b'])
  else if i =? Z.of_nat min_index + 1 then Ok resize_bins
  else
    b ← getitem data_bins i;
    Ok (resize_bins ++ [b]).

Section Ltd.
Context `{E : Externals}.

Definition _find_max_bin (data_bins : list (list row)) (sse_list : list Q)
  : result nat :=
  let sort_sse := argsort sse_list in
  find_max_loop data_bins sort_sse (range_down (length sort_sse)) None.

Definition _resize_bins (data_bins : list (list row)) (sse_list : list Q)
  : result (list (list row)) :=
  max_index ← _find_max_bin data_bins sse_list;
  min_index ← _find_min_bin sse_list;
  for_each (resize_body data_bins max_index min_index)
           (range (length data_bins)) [].

(** The body of the inner loop of [_split_data]; the state is [sse_list]. *)
Definition sse_body (data : list row) (data_bins : list (list row))
    (sse_list : list Q) (i : Z) : result (list Q) :=
  ends ←
    (if i =? 0 then
       pre_point ← getitem data 0;
       next_bin ← getitem data_bins (i + 1);
       next_point ← getitem next_bin 0;
       Ok (pre_point, next_point)
     else if i =? Z.of_nat (length data_bins) - 1 then
       pre_bin ← getitem data_bins (i - 1);
       pre_point ← getitem pre_bin (-1);
       next_point ← getitem data (-1);
       Ok (pre_point, next_point)
     else
       pre_bin ← getitem data_bins (i - 1);
       pre_point ← getitem pre_bin (-1);
       next_bin ← getitem data_bins (i + 1);
       next_point ← getitem next_bin 0;
       Ok (pre_point, next_point));
  this_bin ← getitem data_bins i;
  let this_bin := [ends.1] ++ this_bin in
  let this_bin := this_bin ++ [ends.2] in
  Ok (sse_list ++ [stderr this_bin]).

(** One pass of the [while] loop of [_split_data]. *)
Definition refine_once (data : list row) (data_bins : list (list row))
  : result (list (list row)) :=
  sse_list ← for_each (sse_body data data_bins) (range (length data_bins)) [];
  _resize_bins data_bins sse_list.

(** [curr_iteration] runs from 1 to [iteration_num]: [fuel] passes. *)
Fixpoint refine (fuel : nat) (data : list row) (data_bins : list (list row))
  : result (list (list row)) :=
  match fuel with
  | O => Ok data_bins
  | S fuel' =>
      data_bins' ← refine_once data data_bins;
      refine fuel' data data_bins'
  end.

(** [int(len(data) / (n_out * 10))]: the quotient truncated towards zero. *)
Definition iteration_num (data : list row) (n_out : Z) : result Z :=
  if n_out * 10 =? 0 then Raise ZeroDivisionError
  else Ok (Z.quot (Z.of_nat (length data)) (n_out * 10)).

Definition _split_data (data : list row) (n_out : Z)
  : result (list (list row)) :=
  iters ← iteration_num data n_out;
  let n_bins := n_out - 2 in
  data_bins ← array_split (interior data) n_bins;
  refine (Z.to_nat iters) data data_bins.

Definition ltd (data : ndarray) (n_out : Z) : result ndarray :=
  match validate data n_out with
  | Some r => r
  | None =>
      data_bins ← _split_data (rows data) n_out;
      out ← select_points (rows data) n_out data_bins;
      Ok {| shape1 := 2; rows := out |}
  end.

End Ltd.

Local Close Scope Z_scope.

(** * Vocabulary of the specification *)

(** [k] is the first index of the largest (smallest) value of [l]. *)
Definition first_max (l : list Q) (k : nat) : Prop :=
  exists a, l !! k = Some a /\
    (forall j b, l !! j = Some b -> (b <= a)%Q) /\
    (forall j b, j < k -> l !! j = Some b -> (b < a)%Q).

Definition first_min (l : list Q) (k : nat) : Prop :=
  exists a, l !! k = Some a /\
    (forall j b, l !! j = Some b -> (a <= b)%Q) /\
    (forall j b, j < k -> l !! j = Some b -> (a < b)%Q).

(** "x non-decreasing": no value of the column is above its successor. *)
Definition non_decreasing (l : list Q) : Prop :=
  forall i a b, l !! i = Some a -> l !! S i = Some b -> (a <= b)%Q.

(** "x strictly increasing". *)
Definition strictly_increasing (l : list Q) : Prop :=
  forall i j a b, i < j -> l !! i = Some a -> l !! j = Some b -> (a < b)%Q.

(** The test of "strictly increasing" on a concrete column. *)
Fixpoint strict_check (l : list Q) : bool :=
  match l with
  | a :: (b :: _) as rest => negb (Qle_bool b a) && strict_check rest
  | _ => true
  end.

(** The first row of [data] whose y-value is the largest (smallest). *)
Definition global_max_point (data : list row) (p : row) : Prop :=
  exists k, first_max (column1 data) k /\ data !! k = Some p.

Definition global_min_point (data : list row) (p : row) : Prop :=
  exists k, first_min (column1 data) k /\ data !! k = Some p.




(** The bucket invariant: [n_out - 2] buckets whose concatenation, in order,
    is the interior of the series. *)
Definition bucket_partition (data : list row) (n_out : Z)
    (data_bins : list (list row)) : Prop :=
  Z.of_nat (length data_bins) = (n_out - 2)%Z /\
  concat data_bins = interior data.

(** The bucket after bucket [i] as the selection loop reads it. *)
Definition next_bin_of (data : list row) (n_bins : Z)
    (data_bins : list (list row)) (i : nat) : result (list row) :=
  if (Z.of_nat i <? n_bins - 1)%Z then getitem data_bins (Z.of_nat i + 1)
  else Ok (drop (length data - 1) data).

(** What one pass of the selection loop writes to [out[i + 1]], given the
    value [pre] of [out[i]]: the three branches of the loop body. *)
Inductive picked (data : list row) (n_bins : Z) (data_bins : list (list row))
    (max_point min_point : row) (pre : option row) (i : nat) (p : row) : Prop :=
  | picked_max this_bin :
      data_bins !! i = Some this_bin ->
      contains max_point this_bin = true ->
      p = max_point ->
      picked data n_bins data_bins max_point min_point pre i p
  | picked_min this_bin :
      data_bins !! i = Some this_bin ->
      contains max_point this_bin = false ->
      contains min_point this_bin = true ->
      p = min_point ->
      picked data n_bins data_bins max_point min_point pre i p
  | picked_area this_bin next_bin pre_point k :
      data_bins !! i = Some this_bin ->
      contains max_point this_bin = false ->
      contains min_point this_bin = false ->
      next_bin_of data n_bins data_bins i = Ok next_bin ->
      pre = Some pre_point ->
      argmax_area this_bin pre_point (mean0 next_bin) = Ok k ->
      this_bin !! k = Some p ->
      picked data n_bins data_bins max_point min_point pre i p.

(** An array of two columns from integer coordinates. *)
Definition rows_of (l : list (Z * Z)) : list row :=
  map (fun p => [inject_Z p.1; inject_Z p.2]) l.

Definition array_of (l : list (Z * Z)) : ndarray :=
  {| shape1 := 2; rows := rows_of l |}.

(** A stable [argsort] by insertion, and a rational roughness score (the
    total variation of the y column): the externals used where a theorem is
    run on a concrete series. *)
Fixpoint insert_index (l : list Q) (i : nat) (idx : list nat) : list nat :=
  match idx with
  | [] => [i]
  | j :: rest =>
      if Qle_bool (nth i l 0%Q) (nth j l 0%Q) then i :: idx
      else j :: insert_index l i rest
  end.

Definition stable_argsort (l : list Q) : list nat :=
  foldr (insert_index l) [] (seq 0 (length l)).

Fixpoint variation (l : list Q) : Q :=
  match l with
  | a :: (b :: _) as rest => (Qabs (b - a) + variation rest)%Q
  | _ => 0%Q
  end.

(** The square of the standard error of the slope as [linregress] defines
    it, in exact arithmetic: it orders two scores as the standard error
    does, so that a pass over two buckets splits the bucket that the
    standard error makes it split. *)
Definition squared_stderr (w : list row) : Q :=
  let n := inject_Z (Z.of_nat (length w)) in
  let xmean := (Qsum (column0 w) / n)%Q in
  let ymean := (Qsum (column1 w) / n)%Q in
  let ssxm := (Qsum (map (fun p => (px p - xmean) * (px p - xmean)) w) / n)%Q in
  let ssym := (Qsum (map (fun p => (py p - ymean) * (py p - ymean)) w) / n)%Q in
  let ssxym := (Qsum (map (fun p => (px p - xmean) * (py p - ymean)) w) / n)%Q in
  ((ssym - ssxym * ssxym / ssxm) / ssxm / (n - 2))%Q.

(** The exceptions the validation raises. *)
Definition validation_error (e : exn) : bool :=
  match e with
  | ShapeMismatch | NotSorted | OutOfRange | TooFew => true
  | _ => false
  end.

(** [m] raises no validation error. *)
Definition internal_only {A} (m : result A) : Prop :=
  forall e, m = Raise e -> validation_error e = false.

(** [m] raises nothing but the exceptions [allowed]. *)
Definition raises_only {A} (allowed : exn -> bool) (m : result A) : Prop :=
  forall e, m = Raise e -> allowed e = true.

Definition index_error (e : exn) : bool :=
  match e with IndexError => true | _ => false end.

Definition index_or_value_error (e : exn) : bool :=
  match e with IndexError | ValueError => true | _ => false end.

(** Bucket [j] can be split: it holds at least two rows. *)
Definition eligible (data_bins : list (list row)) (j : nat) : Prop :=
  exists b, data_bins !! j = Some b /\ 2 <= length b.

(** The rows the scoring loop of [_split_data] hands to [linregress] for
    bucket [i]: the last row of the bucket before it (row 0 of the series
    for the first bucket), the bucket, and the first row of the bucket after
    it (the last row of the series for the last bucket). *)
Definition score_window (data : list row) (data_bins : list (list row))
    (i : nat) : option (list row) :=
  this_bin ← data_bins !! i;
  pre_point ← match i with
              | 0 => data !! 0
              | S j => data_bins !! j ≫= last
              end;
  next_point ← (if decide (S i = length data_bins) then last data
                else data_bins !! S i ≫= head);
  Some ([pre_point] ++ this_bin ++ [next_point]).

(** Every value of the series is a float64 number: the series is a float64
    array, or an array of another type whose values float64 represents (the
    integers up to [2 ^ 53], for one). *)
Definition float64_array (data : list row) : bool :=
  forallb (forallb is_float64) data.







(** The rows given to [linregress] have two different x values, for every
    bucket: the condition under which it returns a score.  ([linregress]
    reads an array of two rows as the x values and the y values.) *)
Definition distinct_x (w : list row) : bool :=
  match w with
  | [] => false
  | [a; _] => negb (Qeq_bool (px a) (py a))
  | a :: w' => existsb (fun b => negb (Qeq_bool (px a) (px b))) w'
  end.

Definition scorable (data : list row) (data_bins : list (list row)) : bool :=
  forallb (fun i => match score_window data data_bins i with
                    | Some w => distinct_x w
                    | None => true
                    end)
          (seq 0 (length data_bins)).

(** ** Loop invariants and step relations used in the proofs *)

(** The rows [select_points] starts the loop with. *)
Definition out_init (n_out : Z) (first last : row) : list row :=
  <[Z.to_nat n_out - 1 := last]>
    (<[0 := first]> (repeat [0%Q; 0%Q] (Z.to_nat n_out))).

(** The selection loop after [i] passes: [out] keeps its length, rows beyond
    [i] and row 0 are as they were in [out0], and each row [j + 1 <= i] is
    what pass [j] picked given row [j], converted to float64. *)
Definition sel_inv (data : list row) (n_bins : Z) (data_bins : list (list row))
    (max_point min_point : row) (out0 : list row) (i : nat) (out : list row)
  : Prop :=
  length out = length out0 /\
  (forall j, i < j -> out !! j = out0 !! j) /\
  out !! 0 = out0 !! 0 /\
  (forall j, j < i ->
     exists p, out !! S j = Some (float64_row p) /\
       picked data n_bins data_bins max_point min_point (out !! j) j p).

(** What pass [i] of the loop of [_resize_bins] appends. *)
Inductive resized (data_bins : list (list row)) (max_index min_index i : nat)
    (new : list (list row)) : Prop :=
  | resized_split b :
      i = max_index -> data_bins !! i = Some b -> array_split b 2 = Ok new ->
      resized data_bins max_index min_index i new
  | resized_merge b b' :
      i <> max_index -> i = min_index ->
      data_bins !! i = Some b -> data_bins !! S i = Some b' -> new = [b ++ b'] ->
      resized data_bins max_index min_index i new
  | resized_skip :
      i <> max_index -> i <> min_index -> i = S min_index -> new = [] ->
      resized data_bins max_index min_index i new
  | resized_keep b :
      i <> max_index -> i <> min_index -> i <> S min_index ->
      data_bins !! i = Some b -> new = [b] ->
      resized data_bins max_index min_index i new.

(** The value the loop variable of [_find_max_bin] holds after [s] passes. *)
Definition last_of (s : nat) : option Z :=
  match s with 0 => None | S k => Some (- Z.of_nat (S k))%Z end.

(** The loop of [_resize_bins] after [i] passes, when the split target [m]
    is outside the merged pair [(mn, mn + 1)]: the buckets built so far are
    those of the first [i] buckets (one more once the pair is merged), one
    bucket more after the split, one fewer after the skip. *)
Definition resize_inv (data_bins : list (list row)) (m mn i : nat)
    (acc : list (list row)) : Prop :=
  concat acc = concat (take (if decide (i = S mn) then S i else i) data_bins) /\
  length acc + (if decide (S mn < i) then 1 else 0) =
  i + (if decide (m < i) then 1 else 0).

(** The loop of [_resize_bins] after [i] passes when the split target is the
    first bucket [mn] of the merged pair: bucket [mn] is split, bucket
    [mn + 1] is skipped. *)
Definition resize_inv_first (data_bins : list (list row)) (mn i : nat)
    (acc : list (list row)) : Prop :=
  concat acc = concat (take (i `min` S mn) data_bins)
               ++ concat (take (i - S (S mn)) (drop (S (S mn)) data_bins)) /\
  length acc + (if decide (S mn < i) then 1 else 0) =
  i + (if decide (mn < i) then 1 else 0).

(** The same when the split target is the second bucket [mn + 1] of the
    pair: the pair is merged, then bucket [mn + 1] is split as well. *)
Definition resize_inv_second (data_bins : list (list row)) (mn i : nat)
    (acc : list (list row)) : Prop :=
  concat acc = concat (take (if decide (i <= mn) then i else S (S mn)) data_bins)
               ++ concat (take (i - S mn) (drop (S mn) data_bins)) /\
  length acc = i + (if decide (S mn < i) then 1 else 0).

(** ** Example series

    [series4], [series10], [series30], [series40] and [series50] have a
    strictly increasing x column; [series_tie] and [series_dup] repeat an
    x-value, [series_down] is not sorted, [series2] has two rows. *)

Definition series4 : ndarray := array_of [(0, 0); (1, 1); (2, 0); (3, 5)]%Z.

Definition series2 : ndarray := array_of [(0, 0); (1, 1)]%Z.

Definition series_down : ndarray := array_of [(0, 0); (2, 1); (1, 2); (3, 0)]%Z.

Definition series_tie : ndarray := array_of [(0, 0); (1, 1); (1, 2); (2, 0)]%Z.

Definition series10 : ndarray :=
  array_of [(0, 0); (1, 5); (2, 1); (3, 9); (4, 2);
            (5, 3); (6, 8); (7, 1); (8, 4); (9, 0)]%Z.

Definition series50 : ndarray :=
  array_of (map (fun i => (Z.of_nat i,
                           (Z.of_nat (i * i) mod 7
                            + (if (20 <? i)%nat then Z.of_nat i mod 5 * 3 else 0))%Z))
                (seq 0 50)).

Definition series30 : ndarray :=
  array_of (map (fun i => (Z.of_nat i, Z.of_nat (i * i) mod 7)%Z) (seq 0 30)).

Definition series40 : ndarray :=
  array_of (map (fun i => (Z.of_nat i, Z.of_nat (i * i) mod 7)%Z) (seq 0 40)).

Definition series_dup : ndarray :=
  array_of [(0, 0); (1, 9); (1, 0); (1, -5); (1, 9); (2, 0)]%Z.



(** An integer series with a value above [2 ^ 53]. *)
Definition series_int64 : ndarray :=
  array_of [(0, 0); (1, 9007199254740993); (2, 5); (3, 1)]%Z.

(** Three buckets of 2, 1 and 2 rows. *)
Definition buckets3 : list (list row) :=
  [rows_of [(1, 1); (2, 2)]%Z; rows_of [(3, 3)]%Z; rows_of [(4, 0); (5, 7)]%Z].

(** Two buckets of two rows each, and two buckets of one row each. *)
Definition buckets2 : list (list row) :=
  [rows_of [(1, 1); (2, 2)]%Z; rows_of [(4, 0); (5, 7)]%Z].

Definition singletons2 : list (list row) :=
  [rows_of [(1, 1)]%Z; rows_of [(2, 2)]%Z].

(** * Properties *)

(** ** float64 rounding *)

Local Open Scope Q_scope.

Lemma pow2_pos (e : Z) : 0 < 2 ^ e.
Proof. apply Qpower_0_lt. reflexivity. Qed.

Lemma pow2_add (a b : Z) : 2 ^ (a + b) == 2 ^ a * 2 ^ b.
Proof. apply Qpower_plus. discriminate. Qed.

Lemma pow2_inject (k : Z) : (0 <= k)%Z -> inject_Z (2 ^ k) == 2 ^ k.
Proof. intros Hk. by rewrite Zpower_Qpower. Qed.

Lemma pow2_lt_inv (a b : Z) : 2 ^ a < 2 ^ b -> (a < b)%Z.
Proof. intros H. by apply (Qpower_lt_compat_l_inv 2). Qed.

Lemma pow2_le (a b : Z) : (a <= b)%Z -> 2 ^ a <= 2 ^ b.
Proof. intros H. by apply Qpower_le_compat_l. Qed.

Lemma ilog2_spec (q : Q) :
  0 < q -> 2 ^ ilog2 q <= q /\ q < 2 ^ (ilog2 q + 1).
Proof.
  destruct q as [n d]. intros Hq.
  assert (0 < n)%Z as Hn by (unfold Qlt in Hq; simpl in Hq; lia).
  unfold ilog2. cbn [Qnum Qden].
  set (ln := Z.log2 n). set (ld := Z.log2 (Z.pos d)).
  pose proof (Z.log2_spec n Hn) as [Hn1 Hn2].
  pose proof (Z.log2_spec (Z.pos d) eq_refl) as [Hd1 Hd2].
  pose proof (Z.log2_nonneg n) as Hln. pose proof (Z.log2_nonneg (Z.pos d)) as Hld.
  fold ln in Hn1, Hn2, Hln. fold ld in Hd1, Hd2, Hld.
  assert (2 ^ ln <= inject_Z n) as Qn1
    by (rewrite <- pow2_inject by done; by rewrite <- Zle_Qle).
  assert (inject_Z n < 2 ^ (ln + 1)) as Qn2
    by (rewrite <- pow2_inject by lia; rewrite <- Zlt_Qlt; lia).
  assert (2 ^ ld <= inject_Z (Z.pos d)) as Qd1
    by (rewrite <- pow2_inject by done; by rewrite <- Zle_Qle).
  assert (inject_Z (Z.pos d) < 2 ^ (ld + 1)) as Qd2
    by (rewrite <- pow2_inject by lia; rewrite <- Zlt_Qlt; lia).
  assert (0 < inject_Z (Z.pos d)) as Qd0 by reflexivity.
  assert (forall e, 0 < 2 ^ e) as Hpos by apply pow2_pos.
  assert (2 ^ (ln - ld - 1) <= n # d) as Hlow.
  { rewrite (Qmake_Qdiv n d). apply Qle_shift_div_l; [done|].
    apply Qle_trans with (2 ^ (ln - ld - 1) * 2 ^ (ld + 1)).
    - apply Qmult_le_l; [done|]. by apply Qlt_le_weak.
    - rewrite <- pow2_add. by replace (ln - ld - 1 + (ld + 1))%Z with ln by lia. }
  assert (n # d < 2 ^ (ln - ld + 1)) as Hup.
  { rewrite (Qmake_Qdiv n d). apply Qlt_shift_div_r; [done|].
    apply Qlt_le_trans with (2 ^ (ln - ld + 1) * 2 ^ ld).
    - rewrite <- pow2_add. by replace (ln - ld + 1 + ld)%Z with (ln + 1)%Z by lia.
    - by apply Qmult_le_l. }
  destruct (Qle_bool (2 ^ (ln - ld)) (n # d)) eqn:Hb.
  - apply Qle_bool_iff in Hb. done.
  - split; [done|]. replace (ln - ld - 1 + 1)%Z with (ln - ld)%Z by lia.
    apply Qnot_le_lt. intros H. apply Qle_bool_iff in H. congruence.
Qed.

Lemma ilog2_mono (a b : Q) : 0 < a -> a <= b -> (ilog2 a <= ilog2 b)%Z.
Proof.
  intros Ha Hab.
  destruct (ilog2_spec a Ha) as [Ha1 _].
  destruct (ilog2_spec b) as [_ Hb2]; [by eapply Qlt_le_trans|].
  assert (2 ^ ilog2 a < 2 ^ (ilog2 b + 1)) as H
    by (eapply Qle_lt_trans; [exact Ha1|]; by eapply Qle_lt_trans).
  apply pow2_lt_inv in H. lia.
Qed.

Lemma rne_bounds (x : Q) : (Qfloor x <= rne x <= Qfloor x + 1)%Z.
Proof.
  unfold rne. destruct (Qcompare _ _); [destruct (Z.even _)| |]; lia.
Qed.

Lemma rne_mono (x y : Q) : x <= y -> (rne x <= rne y)%Z.
Proof.
  intros Hxy. pose proof (Qfloor_resp_le x y Hxy) as Hf.
  pose proof (rne_bounds x) as Hx. pose proof (rne_bounds y) as Hy.
  destruct (Z.eq_dec (Qfloor x) (Qfloor y)) as [Heq|Hne]; [|lia].
  unfold rne. rewrite <- Heq.
  destruct (Qcompare_spec (x - inject_Z (Qfloor x)) (1 # 2)) as [H1|H1|H1];
    destruct (Qcompare_spec (y - inject_Z (Qfloor x)) (1 # 2)) as [H2|H2|H2];
    try destruct (Z.even (Qfloor x)); try lia; exfalso; lra.
Qed.

Lemma rne_proper (x y : Q) : x == y -> rne x = rne y.
Proof.
  intros H. apply Z.le_antisymm; apply rne_mono; rewrite H; apply Qle_refl.
Qed.

Lemma rne_Z (k : Z) : rne (inject_Z k) = k.
Proof.
  unfold rne. rewrite Qfloor_Z.
  destruct (Qcompare_spec (inject_Z k - inject_Z k) (1 # 2)) as [H|H|H];
    [exfalso; lra|done|exfalso; lra].
Qed.

Lemma round_grid (e E : Z) :
  (e <= E)%Z -> inject_Z (rne (2 ^ E / 2 ^ e)) * 2 ^ e == 2 ^ E.
Proof.
  intros H.
  assert (2 ^ E / 2 ^ e == inject_Z (2 ^ (E - e))) as Hq.
  { rewrite pow2_inject by lia. symmetry. apply Qpower_minus. discriminate. }
  rewrite (rne_proper _ _ Hq), rne_Z, pow2_inject by lia.
  rewrite <- pow2_add. by replace (E - e + e)%Z with E by lia.
Qed.

Lemma round_at_mono (e : Z) (a b : Q) :
  a <= b ->
  inject_Z (rne (a / 2 ^ e)) * 2 ^ e <= inject_Z (rne (b / 2 ^ e)) * 2 ^ e.
Proof.
  intros Hab. apply Qmult_le_compat_r; [|apply Qlt_le_weak, pow2_pos].
  rewrite <- Zle_Qle. apply rne_mono.
  apply Qmult_le_compat_r; [done|].
  apply Qlt_le_weak, Qinv_lt_0_compat, pow2_pos.
Qed.

Lemma round_pos_mono (a b : Q) : 0 < a -> a <= b -> round_pos a <= round_pos b.
Proof.
  intros Ha Hab. assert (0 < b) as Hb by (by eapply Qlt_le_trans).
  pose proof (ilog2_mono a b Ha Hab) as Hlog.
  unfold round_pos.
  set (ea := Z.max (ilog2 a - 52) (-1074)).
  set (eb := Z.max (ilog2 b - 52) (-1074)).
  destruct (Z.eq_dec ea eb) as [Heq|Hne].
  { rewrite Heq. by apply round_at_mono. }
  assert (ea < eb)%Z as Hlt by lia.
  set (E := ilog2 b).
  destruct (ilog2_spec a Ha) as [_ Ha2]. destruct (ilog2_spec b Hb) as [Hb1 _].
  assert (a <= 2 ^ E) as HaE.
  { apply Qlt_le_weak. eapply Qlt_le_trans; [exact Ha2|]. apply pow2_le. lia. }
  apply Qle_trans with (2 ^ E).
  - rewrite <- (round_grid ea E) by lia. by apply round_at_mono.
  - rewrite <- (round_grid eb E) at 1 by lia. by apply round_at_mono.
Qed.

Lemma round_pos_nonneg (a : Q) : 0 < a -> 0 <= round_pos a.
Proof.
  intros Ha. unfold round_pos.
  apply Qmult_le_0_compat; [|apply Qlt_le_weak, pow2_pos].
  change 0 with (inject_Z 0). rewrite <- Zle_Qle.
  rewrite <- (rne_Z 0). apply rne_mono.
  apply Qle_shift_div_l; [apply pow2_pos|].
  change (inject_Z 0) with 0. rewrite Qmult_0_l. by apply Qlt_le_weak.
Qed.

Lemma Qnum_pos (q : Q) (p : positive) : Qnum q = Z.pos p -> 0 < q.
Proof. destruct q as [n d]. simpl. intros ->. reflexivity. Qed.

Lemma Qnum_neg (q : Q) (p : positive) : Qnum q = Z.neg p -> q < 0.
Proof. destruct q as [n d]. simpl. intros ->. reflexivity. Qed.

Lemma Qnum_zero (q : Q) : Qnum q = 0%Z -> q == 0.
Proof. destruct q as [n d]. simpl. intros ->. reflexivity. Qed.

Lemma round64_mono (q q' : Q) : q <= q' -> round64 q <= round64 q'.
Proof.
  intros H. unfold round64.
  destruct (Qnum q) as [|p|p] eqn:Hq; destruct (Qnum q') as [|p'|p'] eqn:Hq';
    try apply Qnum_zero in Hq; try apply Qnum_zero in Hq';
    try apply Qnum_pos in Hq; try apply Qnum_pos in Hq';
    try apply Qnum_neg in Hq; try apply Qnum_neg in Hq'.
  - apply Qle_refl.
  - by apply round_pos_nonneg.
  - exfalso. lra.
  - exfalso. lra.
  - by apply round_pos_mono.
  - exfalso. lra.
  - assert (0 <= round_pos (- q)) by (apply round_pos_nonneg; lra). lra.
  - assert (0 <= round_pos (- q)) by (apply round_pos_nonneg; lra).
    assert (0 <= round_pos q') by (by apply round_pos_nonneg). lra.
  - apply Qopp_le_compat. apply round_pos_mono; lra.
Qed.

Lemma float64_round64 (q : Q) : float64 q == round64 q.
Proof.
  unfold float64. destruct (Qeq_bool (round64 q) q) eqn:H; [|reflexivity].
  symmetry. by apply Qeq_bool_iff.
Qed.

Lemma float64_mono (q q' : Q) : q <= q' -> float64 q <= float64 q'.
Proof. intros H. rewrite !float64_round64. by apply round64_mono. Qed.

Lemma float64_proper (q q' : Q) : q == q' -> float64 q == float64 q'.
Proof.
  intros H. apply Qle_antisym; apply float64_mono; rewrite H; apply Qle_refl.
Qed.

Lemma float64_fixes (q : Q) : is_float64 q = true -> float64 q = q.
Proof.
  unfold is_float64, float64. intros [H _]%andb_prop. by rewrite H.
Qed.



Local Close Scope Q_scope.

Lemma float64_row_fixes (p : row) :
  forallb is_float64 p = true -> float64_row p = p.
Proof.
  unfold float64_row. induction p as [|a p IH]; simpl; [done|].
  intros [Ha Hp]%andb_prop. by rewrite (float64_fixes a Ha), IH.
Qed.

Lemma float64_array_row (data : list row) (p : row) :
  float64_array data = true -> p ∈ data -> float64_row p = p.
Proof.
  unfold float64_array. rewrite forallb_forall. intros Hall Hp.
  apply float64_row_fixes, Hall. by apply list_elem_of_In.
Qed.

Lemma px_float64_row (p : row) : px (float64_row p) = float64 (px p).
Proof. by destruct p. Qed.

Lemma py_float64_row (p : row) : py (float64_row p) = float64 (py p).
Proof. by destruct p as [|a [|b p]]. Qed.

Lemma length_float64_row (p : row) : length (float64_row p) = length p.
Proof. apply length_map. Qed.

(** ** The result monad and indexing *)

Lemma bind_Ok {A B} (m : result A) (f : A -> result B) (b : B) :
  m ≫= f = Ok b -> exists a, m = Ok a /\ f a = Ok b.
Proof. destruct m as [a|e]; simpl; [eauto | discriminate]. Qed.

Lemma bind_Ok_intro {A B} (m : result A) (f : A -> result B) (a : A) :
  m = Ok a -> m ≫= f = f a.
Proof. intros ->. reflexivity. Qed.

Ltac inv_bind H :=
  let a := fresh "a" in
  let Ha := fresh "Ha" in
  apply bind_Ok in H as (a & Ha & H).

Lemma py_index_of_nat {A} (l : list A) (i : nat) :
  py_index l (Z.of_nat i) = if decide (i < length l) then Some i else None.
Proof.
  unfold py_index.
  destruct (decide (i < length l)) as [Hlt|Hge].
  - replace (0 <=? Z.of_nat i)%Z with true by (symmetry; apply Z.leb_le; lia).
    replace (Z.of_nat i <? Z.of_nat (length l))%Z with true
      by (symmetry; apply Z.ltb_lt; lia).
    simpl. f_equal. apply Nat2Z.id.
  - replace (Z.of_nat i <? Z.of_nat (length l))%Z with false
      by (symmetry; apply Z.ltb_ge; lia).
    replace (Z.of_nat i <? 0)%Z with false by (symmetry; apply Z.ltb_ge; lia).
    rewrite !andb_false_r. reflexivity.
Qed.

Lemma getitem_of_nat {A} (l : list A) (i : nat) :
  getitem l (Z.of_nat i) =
  match l !! i with Some a => Ok a | None => Raise IndexError end.
Proof.
  unfold getitem. rewrite py_index_of_nat.
  destruct (decide (i < length l)) as [Hlt|Hge]; [reflexivity|].
  rewrite (lookup_ge_None_2 l i) by lia. reflexivity.
Qed.

Lemma getitem_succ {A} (l : list A) (i : nat) :
  getitem l (Z.of_nat i + 1) =
  match l !! S i with Some a => Ok a | None => Raise IndexError end.
Proof.
  replace (Z.of_nat i + 1)%Z with (Z.of_nat (S i)) by lia.
  apply getitem_of_nat.
Qed.

Lemma setitem_of_nat {A} (l : list A) (i : nat) (v : A) :
  setitem l (Z.of_nat i) v =
  if decide (i < length l) then Ok (<[i := v]> l) else Raise IndexError.
Proof.
  unfold setitem. rewrite py_index_of_nat.
  destruct (decide (i < length l)); reflexivity.
Qed.

Lemma setitem_succ {A} (l : list A) (i : nat) (v : A) :
  setitem l (Z.of_nat i + 1) v =
  if decide (S i < length l) then Ok (<[S i := v]> l) else Raise IndexError.
Proof.
  replace (Z.of_nat i + 1)%Z with (Z.of_nat (S i)) by lia.
  apply setitem_of_nat.
Qed.

Lemma getitem_last {A} (l : list A) :
  getitem l (-1) =
  match l !! (length l - 1) with
  | Some a => if decide (0 < length l) then Ok a else Raise IndexError
  | None => Raise IndexError
  end.
Proof.
  unfold getitem, py_index.
  destruct l as [|a l]; [reflexivity|].
  cbn [length]. 
  replace (- Z.of_nat (S (length l)) <=? -1)%Z with true
    by (symmetry; apply Z.leb_le; lia).
  cbn [Z.leb Z.ltb Z.compare andb].
  replace (Z.to_nat (Z.of_nat (S (length l)) + -1)) with (S (length l) - 1) by lia.
  destruct ((a :: l) !! (S (length l) - 1)); [|reflexivity].
  destruct (decide (0 < S (length l))); [reflexivity | lia].
Qed.

(** ** Loops over [range n] *)

Section ForEach.
Context {St : Type} (body : St -> Z -> result St).

Lemma for_each_seq_inv (P : nat -> St -> Prop) (n start : nat) (s s' : St) :
  P start s ->
  (forall i t t', start <= i < start + n -> P i t ->
                  body t (Z.of_nat i) = Ok t' -> P (S i) t') ->
  for_each body (map Z.of_nat (seq start n)) s = Ok s' ->
  P (start + n) s'.
Proof.
  revert start s. induction n as [|n IH]; intros start s H0 Hstep Hrun.
  - simpl in Hrun. injection Hrun as <-. by rewrite Nat.add_0_r.
  - simpl in Hrun. inv_bind Hrun.
    replace (start + S n) with (S start + n) by lia.
    apply (IH (S start) a); [|intros; apply (Hstep i t); auto; lia|done].
    apply (Hstep start s); [lia|done|done].
Qed.

(** An invariant that every pass keeps holds when the loop returns. *)
Lemma for_each_range_inv (P : nat -> St -> Prop) (n : nat) (s s' : St) :
  P 0 s ->
  (forall i t t', i < n -> P i t -> body t (Z.of_nat i) = Ok t' -> P (S i) t') ->
  for_each body (range n) s = Ok s' ->
  P n s'.
Proof.
  intros H0 Hstep Hrun.
  apply (for_each_seq_inv P n 0 s s'); [done| |done].
  intros i t t' Hi. apply Hstep. lia.
Qed.

Lemma for_each_seq_total (P : nat -> St -> Prop) (n start : nat) (s : St) :
  P start s ->
  (forall i t, start <= i < start + n -> P i t ->
               exists t', body t (Z.of_nat i) = Ok t' /\ P (S i) t') ->
  exists s', for_each body (map Z.of_nat (seq start n)) s = Ok s'.
Proof.
  revert start s. induction n as [|n IH]; intros start s H0 Hstep.
  - simpl. eauto.
  - destruct (Hstep start s) as (t' & Hb & HP); [lia|done|].
    simpl. rewrite Hb. simpl.
    apply (IH (S start) t'); [done|].
    intros i t Hi. apply Hstep. lia.
Qed.

(** A loop whose passes cannot raise under the invariant returns. *)
Lemma for_each_range_total (P : nat -> St -> Prop) (n : nat) (s : St) :
  P 0 s ->
  (forall i t, i < n -> P i t ->
               exists t', body t (Z.of_nat i) = Ok t' /\ P (S i) t') ->
  exists s', for_each body (range n) s = Ok s'.
Proof.
  intros H0 Hstep. apply (for_each_seq_total P n 0 s); [done|].
  intros i t Hi. apply Hstep. lia.
Qed.
End ForEach.

(** ** [np.array_split] *)

Lemma length_chunks {A} (l : list A) (sizes : list nat) :
  length (chunks l sizes) = length sizes.
Proof. revert l. induction sizes as [|s ss IH]; intros l; simpl; auto. Qed.

Lemma concat_chunks {A} (l : list A) (sizes : list nat) :
  concat (chunks l sizes) = take (sum_list sizes) l.
Proof.
  revert l. induction sizes as [|s ss IH]; intros l; simpl.
  - by rewrite take_0.
  - rewrite IH. apply take_take_drop.
Qed.

Lemma chunks_lengths {A} (l : list A) (sizes : list nat) :
  sum_list sizes <= length l ->
  Forall2 (fun b s => length b = s) (chunks l sizes) sizes.
Proof.
  revert l. induction sizes as [|s ss IH]; intros l Hsum; simpl in *.
  - constructor.
  - constructor.
    + rewrite length_take. lia.
    + apply IH. rewrite length_drop. lia.
Qed.

Lemma sum_list_repeat (a n : nat) : sum_list (repeat a n) = n * a.
Proof. induction n as [|n IH]; simpl; lia. Qed.

Lemma section_sizes_sum (total sections : nat) :
  0 < sections -> sum_list (section_sizes total sections) = total.
Proof.
  intros Hpos. unfold section_sizes.
  rewrite sum_list_with_app, !sum_list_repeat.
  pose proof (Nat.div_mod_eq total sections) as Hdm.
  pose proof (Nat.mod_upper_bound total sections) as Hub.
  nia.
Qed.

Lemma section_sizes_length (total sections : nat) :
  0 < sections -> length (section_sizes total sections) = sections.
Proof.
  intros Hpos. unfold section_sizes.
  rewrite length_app, !repeat_length.
  pose proof (Nat.mod_upper_bound total sections). lia.
Qed.

Lemma section_sizes_lower (total sections : nat) :
  Forall (fun s => total / sections <= s) (section_sizes total sections).
Proof.
  unfold section_sizes. apply Forall_app. split.
  - apply Forall_forall. intros s Hs. apply list_elem_of_In, repeat_spec in Hs. lia.
  - apply Forall_forall. intros s Hs. apply list_elem_of_In, repeat_spec in Hs. lia.
Qed.

Lemma lengths_lower {A} (q : nat) (bs : list (list A)) (ss : list nat) :
  Forall2 (fun b s => length b = s) bs ss ->
  Forall (fun s => q <= s) ss ->
  Forall (fun b => q <= length b) bs.
Proof.
  induction 1 as [|b s' bs ss Hb HF IH]; intros HL; [constructor|].
  inversion HL; subst. constructor; [lia | auto].
Qed.

(** [np.array_split] into [k >= 1] sections returns [k] contiguous parts, in
    order, that together are the array; each holds at least [len / k] rows. *)
Lemma array_split_spec {A} (ary : list A) (k : Z) :
  (0 < k)%Z ->
  exists parts,
    array_split ary k = Ok parts /\
    length parts = Z.to_nat k /\
    concat parts = ary /\
    Forall (fun b => length ary / Z.to_nat k <= length b) parts.
Proof.
  intros Hk. unfold array_split.
  replace (k <=? 0)%Z with false by (symmetry; apply Z.leb_gt; lia).
  assert (0 < Z.to_nat k) as Hpos by lia.
  eexists. split; [reflexivity|]. split; [|split].
  - by rewrite length_chunks, section_sizes_length.
  - rewrite concat_chunks, section_sizes_sum by done. apply firstn_all.
  - pose proof (chunks_lengths ary (section_sizes (length ary) (Z.to_nat k))) as HF.
    rewrite section_sizes_sum in HF by done. specialize (HF (le_n _)).
    pose proof (section_sizes_lower (length ary) (Z.to_nat k)) as HL.
    eapply lengths_lower; eauto.
Qed.

(** ** [np.argmax] and [np.argmin] *)

Lemma lookup_snoc_inv {A} (l : list A) (a b : A) (j : nat) :
  (l ++ [a]) !! j = Some b -> l !! j = Some b \/ (j = length l /\ b = a).
Proof.
  intros H. destruct (decide (j < length l)) as [Hlt|Hge].
  - left. by rewrite lookup_app_l in H.
  - right. rewrite lookup_app_r in H by lia.
    destruct (j - length l) as [|d] eqn:Hd; simpl in H; [|by destruct d].
    split; [lia | congruence].
Qed.

Lemma argmax_from_spec (pre l : list Q) (bi : nat) (b : Q) :
  pre !! bi = Some b ->
  (forall j c, pre !! j = Some c -> (c <= b)%Q) ->
  (forall j c, j < bi -> pre !! j = Some c -> (c < b)%Q) ->
  first_max (pre ++ l) (argmax_from bi b (length pre) l).
Proof.
  revert pre bi b. induction l as [|a l IH]; intros pre bi b Hb Hall Hfirst.
  - simpl. rewrite app_nil_r. exists b. auto.
  - simpl. replace (pre ++ a :: l) with ((pre ++ [a]) ++ l)
      by (rewrite <- app_assoc; reflexivity).
    replace (S (length pre)) with (length (pre ++ [a]))
      by (rewrite length_app; simpl; lia).
    pose proof (lookup_lt_Some _ _ _ Hb) as Hbi.
    destruct (Qlt_le_dec b a) as [Hlt|Hle]; apply IH.
    + rewrite lookup_app_r by lia. by rewrite Nat.sub_diag.
    + intros j c Hj. apply lookup_snoc_inv in Hj as [Hj|[_ ->]].
      * apply Qlt_le_weak. eapply Qle_lt_trans; eauto.
      * apply Qle_refl.
    + intros j c Hlen Hj.
      apply lookup_snoc_inv in Hj as [Hj|[-> _]]; [|lia].
      eapply Qle_lt_trans; eauto.
    + by rewrite lookup_app_l.
    + intros j c Hj. apply lookup_snoc_inv in Hj as [Hj|[_ ->]]; eauto.
    + intros j c Hlt Hj. apply lookup_snoc_inv in Hj as [Hj|[-> _]]; [eauto|lia].
Qed.

Lemma argmax_spec (l : list Q) (k : nat) : argmax l = Ok k -> first_max l k.
Proof.
  destruct l as [|a l]; [discriminate|]. simpl. intros [= <-].
  apply (argmax_from_spec [a] l 0 a); [done| |].
  - intros [|[|j]] c; simpl; [intros [= ->]; apply Qle_refl|done|done].
  - intros j c Hj. lia.
Qed.

Lemma argmax_total (l : list Q) : l <> [] -> exists k, argmax l = Ok k.
Proof. destruct l; [done|]. simpl. eauto. Qed.

Lemma argmin_from_spec (pre l : list Q) (bi : nat) (b : Q) :
  pre !! bi = Some b ->
  (forall j c, pre !! j = Some c -> (b <= c)%Q) ->
  (forall j c, j < bi -> pre !! j = Some c -> (b < c)%Q) ->
  first_min (pre ++ l) (argmin_from bi b (length pre) l).
Proof.
  revert pre bi b. induction l as [|a l IH]; intros pre bi b Hb Hall Hfirst.
  - simpl. rewrite app_nil_r. exists b. auto.
  - simpl. replace (pre ++ a :: l) with ((pre ++ [a]) ++ l)
      by (rewrite <- app_assoc; reflexivity).
    replace (S (length pre)) with (length (pre ++ [a]))
      by (rewrite length_app; simpl; lia).
    pose proof (lookup_lt_Some _ _ _ Hb) as Hbi.
    destruct (Qlt_le_dec a b) as [Hlt|Hle]; apply IH.
    + rewrite lookup_app_r by lia. by rewrite Nat.sub_diag.
    + intros j c Hj. apply lookup_snoc_inv in Hj as [Hj|[_ ->]].
      * apply Qlt_le_weak. eapply Qlt_le_trans; eauto.
      * apply Qle_refl.
    + intros j c Hlen Hj.
      apply lookup_snoc_inv in Hj as [Hj|[-> _]]; [|lia].
      eapply Qlt_le_trans; eauto.
    + by rewrite lookup_app_l.
    + intros j c Hj. apply lookup_snoc_inv in Hj as [Hj|[_ ->]]; eauto.
    + intros j c Hlt Hj. apply lookup_snoc_inv in Hj as [Hj|[-> _]]; [eauto|lia].
Qed.

Lemma argmin_spec (l : list Q) (k : nat) : argmin l = Ok k -> first_min l k.
Proof.
  destruct l as [|a l]; [discriminate|]. simpl. intros [= <-].
  apply (argmin_from_spec [a] l 0 a); [done| |].
  - intros [|[|j]] c; simpl; [intros [= ->]; apply Qle_refl|done|done].
  - intros j c Hj. lia.
Qed.

Lemma argmin_total (l : list Q) : l <> [] -> exists k, argmin l = Ok k.
Proof. destruct l; [done|]. simpl. eauto. Qed.

Lemma first_max_unique (l : list Q) (k k' : nat) :
  first_max l k -> first_max l k' -> k = k'.
Proof.
  intros (a & Ha & Hall & Hfirst) (a' & Ha' & Hall' & Hfirst').
  destruct (Nat.lt_trichotomy k k') as [Hlt|[Heq|Hgt]]; [|done|].
  - pose proof (Hfirst' _ _ Hlt Ha). pose proof (Hall _ _ Ha').
    exfalso. eapply Qlt_irrefl, Qlt_le_trans; eauto.
  - pose proof (Hfirst _ _ Hgt Ha'). pose proof (Hall' _ _ Ha).
    exfalso. eapply Qlt_irrefl, Qlt_le_trans; eauto.
Qed.

Lemma first_min_unique (l : list Q) (k k' : nat) :
  first_min l k -> first_min l k' -> k = k'.
Proof.
  intros (a & Ha & Hall & Hfirst) (a' & Ha' & Hall' & Hfirst').
  destruct (Nat.lt_trichotomy k k') as [Hlt|[Heq|Hgt]]; [|done|].
  - pose proof (Hfirst' _ _ Hlt Ha). pose proof (Hall _ _ Ha').
    exfalso. eapply Qlt_irrefl, Qle_lt_trans; eauto.
  - pose proof (Hfirst _ _ Hgt Ha'). pose proof (Hall' _ _ Ha).
    exfalso. eapply Qlt_irrefl, Qle_lt_trans; eauto.
Qed.

(** ** The selection loop *)

Section Selection.
Variables (data : list row) (n_bins : Z) (data_bins : list (list row)).
Variables (max_point min_point : row).

Local Abbreviation body := (select_body data n_bins data_bins max_point min_point).
Local Abbreviation picks := (picked data n_bins data_bins max_point min_point).
Local Abbreviation inv := (sel_inv data n_bins data_bins max_point min_point).

(** A pass that returns has written [out[i + 1]], and nothing else. *)
Lemma select_body_Ok (out out' : list row) (i : nat) :
  body out (Z.of_nat i) = Ok out' ->
  S i < length out /\
  exists p, out' = <[S i := float64_row p]> out /\ picks (out !! i) i p.
Proof.
  unfold select_body. intros H.
  rewrite (getitem_of_nat data_bins i) in H.
  destruct (data_bins !! i) as [this_bin|] eqn:Hbin; simpl in H; [|discriminate].
  destruct (contains max_point this_bin) eqn:Hmax.
  { rewrite setitem_succ in H. destruct (decide (S i < length out)); [|done].
    injection H as <-. split; [done|]. eexists. split; [done|].
    by eapply picked_max. }
  destruct (contains min_point this_bin) eqn:Hmin.
  { rewrite setitem_succ in H. destruct (decide (S i < length out)); [|done].
    injection H as <-. split; [done|]. eexists. split; [done|].
    by eapply picked_min. }
  inv_bind H. rename a into next_bin.
  rewrite (getitem_of_nat out i) in H.
  destruct (out !! i) as [pre_point|] eqn:Hpre; simpl in H; [|discriminate].
  inv_bind H. rename a into k.
  rewrite (getitem_of_nat this_bin k) in H.
  destruct (this_bin !! k) as [p|] eqn:Hp; simpl in H; [|discriminate].
  rewrite setitem_succ in H. destruct (decide (S i < length out)); [|done].
  injection H as <-. split; [done|]. exists p. split; [done|].
  by eapply picked_area.
Qed.

Lemma sel_inv_step (out0 out out' : list row) (i : nat) :
  inv out0 i out -> body out (Z.of_nat i) = Ok out' ->
  inv out0 (S i) out'.
Proof.
  intros (Hlen & Hrest & H0 & Hdone) Hbody.
  apply select_body_Ok in Hbody as (Hi & p & -> & Hp).
  split; [|split; [|split]].
  - by rewrite length_insert.
  - intros j Hj. rewrite list_lookup_insert_ne by lia. apply Hrest. lia.
  - by rewrite list_lookup_insert_ne by lia.
  - intros j Hj. destruct (decide (j = i)) as [->|Hne].
    + exists p. rewrite list_lookup_insert_eq by done.
      by rewrite list_lookup_insert_ne by lia.
    + destruct (Hdone j) as (q & Hq & Hpq); [lia|].
      exists q. by rewrite !list_lookup_insert_ne by lia.
Qed.

Lemma select_loop_inv (out0 out : list row) (n : nat) :
  for_each body (range n) out0 = Ok out -> inv out0 n out.
Proof.
  apply (for_each_range_inv body (inv out0)).
  - split; [done|]. split; [done|]. split; [done|]. intros j Hj. lia.
  - intros i t t' _. apply sel_inv_step.
Qed.

Lemma argmax_area_lt (this_bin : list row) (pre : row) (nx : option row) (k : nat) :
  argmax_area this_bin pre nx = Ok k -> k < length this_bin.
Proof.
  destruct nx as [nx|]; simpl.
  - intros (a & Ha & _)%argmax_spec. apply lookup_lt_Some in Ha.
    unfold _area_of_triangles in Ha. by rewrite length_map in Ha.
  - destruct this_bin; [done|]. intros [= <-]. simpl. lia.
Qed.

Lemma argmax_area_total (this_bin : list row) (pre : row) (nx : option row) :
  this_bin <> [] -> exists k, argmax_area this_bin pre nx = Ok k.
Proof.
  intros Hne. destruct nx as [nx|]; simpl.
  - apply argmax_total. by destruct this_bin.
  - destruct this_bin; [done|]. eauto.
Qed.

(** A pass over a bucket that is not empty returns when [out] has rows
    [i] and [i + 1] and the loop finds the next bucket. *)
Lemma select_body_total (out : list row) (i : nat) (this_bin : list row) :
  data_bins !! i = Some this_bin -> this_bin <> [] ->
  S i < length out ->
  ((Z.of_nat i < n_bins - 1)%Z -> S i < length data_bins) ->
  exists out', body out (Z.of_nat i) = Ok out'.
Proof.
  intros Hbin Hne Hi Hnext. unfold select_body.
  rewrite (getitem_of_nat data_bins i), Hbin. simpl.
  rewrite !setitem_succ. destruct (decide (S i < length out)); [|done].
  destruct (contains max_point this_bin); [eauto|].
  destruct (contains min_point this_bin); [eauto|].
  assert (exists next_bin,
    (if (Z.of_nat i <? n_bins - 1)%Z then getitem data_bins (Z.of_nat i + 1)
     else Ok (drop (length data - 1) data)) = Ok next_bin) as (next_bin & ->).
  { destruct (Z.ltb_spec (Z.of_nat i) (n_bins - 1)) as [Hlt|Hge]; [|eauto].
    rewrite getitem_succ.
    destruct (lookup_lt_is_Some_2 data_bins (S i) (Hnext Hlt)) as [b ->]. eauto. }
  simpl. rewrite (getitem_of_nat out i).
  destruct (lookup_lt_is_Some_2 out i) as [pre ->]; [lia|]. simpl.
  destruct (argmax_area_total this_bin pre (mean0 next_bin) Hne) as [k Hk].
  rewrite Hk. simpl. rewrite (getitem_of_nat this_bin k).
  destruct (lookup_lt_is_Some_2 this_bin k) as [p ->];
    [by eapply argmax_area_lt|].
  simpl. rewrite setitem_succ. destruct (decide (S i < length out)); [eauto|done].
Qed.

Lemma select_loop_total (out0 : list row) :
  Forall (fun b => b <> []) data_bins ->
  length data_bins < length out0 ->
  (n_bins <= Z.of_nat (length data_bins))%Z ->
  exists out, for_each body (range (length data_bins)) out0 = Ok out.
Proof.
  intros Hne Hlen Hbins.
  apply (for_each_range_total body (fun _ out => length out = length out0));
    [done|].
  intros i t Hi Ht.
  destruct (lookup_lt_is_Some_2 data_bins i Hi) as [b Hb].
  destruct (select_body_total t i b) as [t' Ht']; [done| |lia|lia|].
  { eapply Forall_lookup_1 in Hne; eauto. }
  exists t'. split; [done|].
  apply select_body_Ok in Ht' as (_ & p & -> & _).
  by rewrite length_insert.
Qed.
End Selection.

Lemma select_points_Ok (data : list row) (n_out : Z)
    (data_bins : list (list row)) (out : list row) :
  select_points data n_out data_bins = Ok out ->
  exists first last max_point min_point,
    data !! 0 = Some first /\
    data !! (length data - 1) = Some last /\
    global_max_point data max_point /\
    global_min_point data min_point /\
    0 < Z.to_nat n_out /\
    sel_inv data (n_out - 2) data_bins max_point min_point
            (out_init n_out (float64_row first) (float64_row last))
            (length data_bins) out.
Proof.
  unfold select_points. intros H.
  change 0%Z with (Z.of_nat 0) in H.
  rewrite (getitem_of_nat data 0) in H.
  destruct (data !! 0) as [first|] eqn:Hfirst; simpl in H; [|discriminate].
  rewrite setitem_of_nat in H. rewrite repeat_length in H.
  destruct (decide (0 < Z.to_nat n_out)) as [Hn|]; simpl in H; [|discriminate].
  pose proof (lookup_lt_Some _ _ _ Hfirst) as Hdata.
  replace (Z.of_nat (length data) - 1)%Z with (Z.of_nat (length data - 1)) in H by lia.
  rewrite (getitem_of_nat data (length data - 1)) in H.
  destruct (data !! (length data - 1)) as [last|] eqn:Hlast; simpl in H; [|discriminate].
  rewrite length_insert, repeat_length in H.
  replace (Z.of_nat (Z.to_nat n_out) - 1)%Z with (Z.of_nat (Z.to_nat n_out - 1)) in H by lia.
  rewrite setitem_of_nat in H. rewrite length_insert, repeat_length in H.
  destruct (decide (Z.to_nat n_out - 1 < Z.to_nat n_out)); simpl in H; [|lia].
  inv_bind H. rename a into imax.
  rewrite (getitem_of_nat data imax) in H.
  destruct (data !! imax) as [max_point|] eqn:Hmax; simpl in H; [|discriminate].
  inv_bind H. rename a into imin.
  rewrite (getitem_of_nat data imin) in H.
  destruct (data !! imin) as [min_point|] eqn:Hmin; simpl in H; [|discriminate].
  exists first, last, max_point, min_point.
  repeat split; try done.
  - exists imax. split; [by apply argmax_spec|done].
  - exists imin. split; [by apply argmin_spec|done].
  - by apply select_loop_inv in H as (? & ? & ? & ?).
  - by apply select_loop_inv in H as (? & ? & ? & ?).
  - by apply select_loop_inv in H as (? & ? & ? & ?).
  - by apply select_loop_inv in H as (? & ? & ? & ?).
Qed.

(** ** Validation *)

Lemma non_decreasing_cons (a : Q) (l : list Q) :
  non_decreasing (a :: l) <->
  (match l with [] => True | b :: _ => (a <= b)%Q end) /\ non_decreasing l.
Proof.
  unfold non_decreasing. split.
  - intros H. split.
    + destruct l as [|b l]; [done|]. by apply (H 0).
    + intros i x y Hx Hy. by apply (H (S i)).
  - intros [Hhd Htl] [|i] x y Hx Hy.
    + destruct l as [|b l]; [done|]. simpl in Hx, Hy. congruence.
    + by apply (Htl i).
Qed.

Lemma insert_sorted_head (a : Q) (l : list Q) :
  (match l with [] => True | b :: _ => (a <= b)%Q end) ->
  insert_sorted a l = a :: l.
Proof.
  destruct l as [|b l]; [done|]. simpl. intros Hab.
  apply Qle_bool_iff in Hab. by rewrite Hab.
Qed.

Lemma np_sort_sorted_id (l : list Q) : non_decreasing l -> np_sort l = l.
Proof.
  induction l as [|a l IH]; [done|].
  intros [Hhd Htl]%non_decreasing_cons. simpl.
  fold (np_sort l). rewrite IH by done. by apply insert_sorted_head.
Qed.

Lemma any_ne_refl (l : list Q) : any_ne l l = false.
Proof.
  induction l as [|a l IH]; [done|]. simpl.
  rewrite IH. by rewrite (proj2 (Qeq_bool_iff a a) (Qeq_refl a)).
Qed.

Lemma insert_sorted_non_decreasing (a : Q) (l : list Q) :
  non_decreasing l -> non_decreasing (insert_sorted a l).
Proof.
  induction l as [|b l IH]; intros Hl.
  - simpl. apply non_decreasing_cons. split; [done|]. by intros [|?] ???.
  - simpl. destruct (Qle_bool a b) eqn:Hab.
    + apply non_decreasing_cons. split; [by apply Qle_bool_iff|done].
    + apply non_decreasing_cons in Hl as [Hhd Htl].
      apply non_decreasing_cons. split; [|by apply IH].
      assert (b <= a)%Q as Hba.
      { destruct (Qlt_le_dec b a) as [?|Hle]; [by apply Qlt_le_weak|].
        apply Qle_bool_iff in Hle. congruence. }
      destruct l as [|c l]; simpl; [done|].
      by destruct (Qle_bool a c).
Qed.

Lemma np_sort_non_decreasing (l : list Q) : non_decreasing (np_sort l).
Proof.
  induction l as [|a l IH]; [by intros [|?] ???|].
  simpl. by apply insert_sorted_non_decreasing.
Qed.

Lemma length_insert_sorted (a : Q) (l : list Q) :
  length (insert_sorted a l) = S (length l).
Proof.
  induction l as [|b l IH]; [done|]. simpl.
  destruct (Qle_bool a b); simpl; auto.
Qed.

Lemma length_np_sort (l : list Q) : length (np_sort l) = length l.
Proof.
  induction l as [|a l IH]; [done|]. simpl. fold (np_sort l).
  by rewrite length_insert_sorted, IH.
Qed.

Lemma any_ne_false_non_decreasing (l m : list Q) :
  length l = length m -> any_ne l m = false ->
  non_decreasing m -> non_decreasing l.
Proof.
  revert m. induction l as [|a l IH]; intros [|b m] Hlen Hne Hm; try done.
  simpl in Hne. apply orb_false_iff in Hne as [Hab Hne].
  apply negb_false_iff, Qeq_bool_iff in Hab.
  apply non_decreasing_cons in Hm as [Hhd Htl].
  apply non_decreasing_cons. split; [|apply (IH m); auto].
  destruct l as [|a' l], m as [|b' m]; try done.
  simpl in Hne. apply orb_false_iff in Hne as [Hab' _].
  apply negb_false_iff, Qeq_bool_iff in Hab'.
  by rewrite Hab, Hab'.
Qed.

(** The test the validation makes on the x column passes exactly when the
    column is non-decreasing. *)
Lemma sorted_check (l : list Q) :
  any_ne l (np_sort l) = false <-> non_decreasing l.
Proof.
  split.
  - intros H. apply (any_ne_false_non_decreasing l (np_sort l));
      [by rewrite length_np_sort | done | apply np_sort_non_decreasing].
  - intros H. rewrite np_sort_sorted_id by done. apply any_ne_refl.
Qed.

Lemma validate_NotSorted (data : ndarray) (n_out : Z) :
  shape1 data = 2 ->
  (validate data n_out = Some (Raise NotSorted) <->
   ~ non_decreasing (column0 (rows data))).
Proof.
  intros H2. unfold validate. rewrite H2. simpl.
  rewrite <- sorted_check.
  destruct (any_ne (column0 (rows data)) (np_sort (column0 (rows data)))).
  - split; [intros _ ?; discriminate | done].
  - split; [|done].
    destruct (n_out >? shape0 data)%Z; [done|].
    destruct (n_out =? shape0 data)%Z; [done|].
    by destruct (n_out <? 3)%Z.
Qed.

Lemma validate_sorted (data : ndarray) (n_out : Z) :
  shape1 data = 2 -> non_decreasing (column0 (rows data)) ->
  validate data n_out =
    if (n_out >? shape0 data)%Z then Some (Raise OutOfRange)
    else if (n_out =? shape0 data)%Z then Some (Ok data)
    else if (n_out <? 3)%Z then Some (Raise TooFew)
    else None.
Proof.
  intros H2 Hs. unfold validate. rewrite H2. simpl.
  by rewrite (proj2 (sorted_check _) Hs).
Qed.

Lemma validate_None (data : ndarray) (n_out : Z) :
  validate data n_out = None ->
  shape1 data = 2 /\ non_decreasing (column0 (rows data)) /\
  (3 <= n_out < shape0 data)%Z.
Proof.
  unfold validate.
  destruct (Nat.eqb_spec (shape1 data) 2) as [H2|]; simpl; [|done].
  destruct (any_ne _ _) eqn:Hs; [done|]. apply sorted_check in Hs.
  destruct (Z.gtb_spec n_out (shape0 data)); [done|].
  destruct (Z.eqb_spec n_out (shape0 data)); [done|].
  destruct (Z.ltb_spec n_out 3); [done|].
  intros _. repeat split; auto; lia.
Qed.

(** ** A concrete instance of the externals *)

Lemma non_decreasing_le (l : list Q) (i j : nat) (a b : Q) :
  non_decreasing l -> i < j -> l !! i = Some a -> l !! j = Some b -> (a <= b)%Q.
Proof.
  intros Hl Hij Ha. revert b. induction j as [|j IH]; intros b Hb; [lia|].
  destruct (lookup_lt_is_Some_2 l j) as [c Hc].
  { apply lookup_lt_Some in Hb. lia. }
  destruct (decide (i = j)) as [->|Hne].
  - assert (c = a) as -> by congruence. by apply (Hl j).
  - eapply Qle_trans; [apply IH; [lia|done]|]. by apply (Hl j).
Qed.

Lemma map_insert_index (l : list Q) (i : nat) (idx : list nat) :
  map (fun a => nth a l 0%Q) (insert_index l i idx) =
  insert_sorted (nth i l 0%Q) (map (fun a => nth a l 0%Q) idx).
Proof.
  induction idx as [|j idx IH]; [done|]. simpl.
  destruct (Qle_bool (nth i l 0%Q) (nth j l 0%Q)); simpl; [done|].
  by rewrite IH.
Qed.

Lemma insert_index_perm (l : list Q) (i : nat) (idx : list nat) :
  Permutation (insert_index l i idx) (i :: idx).
Proof.
  induction idx as [|j idx IH]; [done|]. simpl.
  destruct (Qle_bool (nth i l 0%Q) (nth j l 0%Q)); [done|].
  rewrite IH. apply perm_swap.
Qed.

Lemma stable_argsort_perm (l : list Q) :
  Permutation (stable_argsort l) (seq 0 (length l)).
Proof.
  unfold stable_argsort. induction (seq 0 (length l)) as [|i idx IH]; [done|].
  simpl. rewrite insert_index_perm. by constructor.
Qed.

Lemma stable_argsort_sorted (l : list Q) (i j a b : nat) :
  i < j -> stable_argsort l !! i = Some a -> stable_argsort l !! j = Some b ->
  (nth a l 0 <= nth b l 0)%Q.
Proof.
  intros Hij Ha Hb.
  apply (non_decreasing_le (map (fun a => nth a l 0%Q) (stable_argsort l)) i j);
    [|done|by rewrite list_lookup_fmap_Some; eauto
           |by rewrite list_lookup_fmap_Some; eauto].
  unfold stable_argsort. induction (seq 0 (length l)) as [|k idx IH].
  - by intros [|?] ???.
  - simpl. rewrite map_insert_index. by apply insert_sorted_non_decreasing.
Qed.

#[export] Instance demo_externals : Externals := {|
  stderr bin := variation (column1 bin);
  argsort := stable_argsort;
  argsort_perm := stable_argsort_perm;
  argsort_sorted := stable_argsort_sorted
|}.

Definition squared_stderr_externals : Externals := {|
  stderr := squared_stderr;
  argsort := stable_argsort;
  argsort_perm := stable_argsort_perm;
  argsort_sorted := stable_argsort_sorted
|}.

(** ** Past the validation no validation error is raised *)

Lemma internal_Ok {A} (a : A) : internal_only (Ok a).
Proof. intros e. discriminate. Qed.

Lemma internal_Raise {A} (e : exn) :
  validation_error e = false -> internal_only (@Raise A e).
Proof. intros He e' [= <-]. done. Qed.

Lemma internal_bind {A B} (m : result A) (f : A -> result B) :
  internal_only m -> (forall a, internal_only (f a)) -> internal_only (m ≫= f).
Proof.
  intros Hm Hf. destruct m as [a|e]; simpl; [apply Hf|].
  intros e' [= <-]. by apply Hm.
Qed.

Lemma internal_getitem {A} (l : list A) (i : Z) : internal_only (getitem l i).
Proof.
  unfold getitem. destruct (py_index l i) as [k|]; [destruct (l !! k)|];
    by (apply internal_Ok || apply internal_Raise).
Qed.

Lemma internal_setitem {A} (l : list A) (i : Z) (v : A) :
  internal_only (setitem l i v).
Proof.
  unfold setitem. destruct (py_index l i);
    by (apply internal_Ok || apply internal_Raise).
Qed.

Lemma internal_argmax (l : list Q) : internal_only (argmax l).
Proof. destruct l; by (apply internal_Ok || apply internal_Raise). Qed.

Lemma internal_argmin (l : list Q) : internal_only (argmin l).
Proof. destruct l; by (apply internal_Ok || apply internal_Raise). Qed.

Lemma internal_array_split {A} (l : list A) (k : Z) :
  internal_only (array_split l k).
Proof.
  unfold array_split. destruct (k <=? 0)%Z;
    by (apply internal_Ok || apply internal_Raise).
Qed.

Lemma internal_for_each {St I} (body : St -> I -> result St) (idx : list I) (s : St) :
  (forall t i, internal_only (body t i)) -> internal_only (for_each body idx s).
Proof.
  intros Hbody. revert s. induction idx as [|i idx IH]; intros s; simpl.
  - apply internal_Ok.
  - apply internal_bind; auto.
Qed.

Create HintDb internal.
#[export] Hint Resolve internal_Ok internal_getitem internal_setitem
  internal_argmax internal_argmin internal_array_split : internal.

(** Splits a computation along its binds and branches; the leaves are closed
    by the lemmas for the primitive operations. *)
Ltac internal :=
  repeat first
    [ progress intros
    | solve [auto with internal]
    | solve [apply internal_Raise; reflexivity]
    | apply internal_bind
    | apply internal_for_each
    | match goal with
      | |- internal_only (if ?b then _ else _) => destruct b
      | |- internal_only (match ?x with _ => _ end) => destruct x
      end ].

Lemma internal_select_points (data : list row) (n_out : Z)
    (data_bins : list (list row)) :
  internal_only (select_points data n_out data_bins).
Proof. unfold select_points, select_body, argmax_area. internal. Qed.
#[export] Hint Resolve internal_select_points : internal.

Lemma internal_find_max_loop (data_bins : list (list row)) (sort_sse : list nat)
    (idx : list Z) (last_i : option Z) :
  internal_only (find_max_loop data_bins sort_sse idx last_i).
Proof.
  revert last_i. induction idx as [|i idx IH]; intros last_i; simpl; internal.
Qed.
#[export] Hint Resolve internal_find_max_loop : internal.

Lemma internal_refine `{E : Externals} (fuel : nat) (data : list row)
    (data_bins : list (list row)) :
  internal_only (refine fuel data data_bins).
Proof.
  revert data_bins. induction fuel as [|fuel IH]; intros data_bins; simpl.
  - apply internal_Ok.
  - apply internal_bind; [|done].
    unfold refine_once, _resize_bins, _find_max_bin, _find_min_bin,
      sse_body, resize_body.
    internal.
Qed.
#[export] Hint Resolve internal_refine : internal.

Lemma internal_split_data `{E : Externals} (data : list row) (n_out : Z) :
  internal_only (_split_data data n_out).
Proof. unfold _split_data, iteration_num. internal. Qed.
#[export] Hint Resolve internal_split_data : internal.

Lemma lttb_internal (data : ndarray) (n_out : Z) :
  validate data n_out = None -> internal_only (lttb data n_out).
Proof. intros Hv. unfold lttb. rewrite Hv. internal. Qed.

Lemma ltd_internal `{E : Externals} (data : ndarray) (n_out : Z) :
  validate data n_out = None -> internal_only (ltd data n_out).
Proof.
  intros Hv. unfold ltd. rewrite Hv. internal.
Qed.

(** ** The static pipeline returns *)

Lemma length_interior {A} (l : list A) : length (interior l) = length l - 2.
Proof. unfold interior. rewrite length_take, length_drop. lia. Qed.

Lemma length_out_init (n_out : Z) (first last : row) :
  length (out_init n_out first last) = Z.to_nat n_out.
Proof. unfold out_init. by rewrite !length_insert, repeat_length. Qed.

Lemma select_points_total (data : list row) (n_out : Z)
    (data_bins : list (list row)) :
  data <> [] ->
  Forall (fun b => b <> []) data_bins ->
  Z.of_nat (length data_bins) = (n_out - 2)%Z ->
  exists out, select_points data n_out data_bins = Ok out.
Proof.
  intros Hdata Hne Hlen. unfold select_points.
  assert (0 < length data) as HN by (destruct data; [done|simpl; lia]).
  change 0%Z with (Z.of_nat 0). rewrite (getitem_of_nat data 0).
  destruct (lookup_lt_is_Some_2 data 0 HN) as [first ->]. simpl.
  rewrite setitem_of_nat, repeat_length.
  destruct (decide (0 < Z.to_nat n_out)); [|lia]. simpl.
  replace (Z.of_nat (length data) - 1)%Z with (Z.of_nat (length data - 1)) by lia.
  rewrite (getitem_of_nat data (length data - 1)).
  destruct (lookup_lt_is_Some_2 data (length data - 1)) as [last ->]; [lia|]. simpl.
  rewrite length_insert, repeat_length.
  replace (Z.of_nat (Z.to_nat n_out) - 1)%Z with (Z.of_nat (Z.to_nat n_out - 1)) by lia.
  rewrite setitem_of_nat, length_insert, repeat_length.
  destruct (decide (Z.to_nat n_out - 1 < Z.to_nat n_out)); [|lia]. simpl.
  assert (column1 data <> []) as Hcol by (by destruct data).
  destruct (argmax_total _ Hcol) as [imax Himax]. rewrite Himax. simpl.
  rewrite (getitem_of_nat data imax).
  destruct (lookup_lt_is_Some_2 data imax) as [max_point ->].
  { apply argmax_spec in Himax as (a & Ha & _). apply lookup_lt_Some in Ha.
    unfold column1 in Ha. by rewrite length_map in Ha. }
  simpl.
  destruct (argmin_total _ Hcol) as [imin Himin]. rewrite Himin. simpl.
  rewrite (getitem_of_nat data imin).
  destruct (lookup_lt_is_Some_2 data imin) as [min_point ->].
  { apply argmin_spec in Himin as (a & Ha & _). apply lookup_lt_Some in Ha.
    unfold column1 in Ha. by rewrite length_map in Ha. }
  simpl. apply select_loop_total; [done| |lia].
  rewrite !length_insert, repeat_length. lia.
Qed.

(** Past the validation the static bucketing gives [n_out - 2] buckets, none
    empty, whose concatenation is the interior of the series. *)
Lemma static_buckets (data : ndarray) (n_out : Z) :
  validate data n_out = None ->
  exists data_bins,
    array_split (interior (rows data)) (n_out - 2) = Ok data_bins /\
    bucket_partition (rows data) n_out data_bins /\
    Forall (fun b => b <> []) data_bins.
Proof.
  intros (H2 & Hs & Hn)%validate_None. unfold shape0 in Hn.
  destruct (array_split_spec (interior (rows data)) (n_out - 2))
    as (bins & Hsplit & Hlen & Hcat & Hlow); [lia|].
  exists bins. split; [done|]. split; [split; [lia|done]|].
  eapply Forall_impl; [exact Hlow|]. intros b Hb Hnil. subst b. simpl in Hb.
  rewrite length_interior in Hb.
  assert (1 <= (length (rows data) - 2) / Z.to_nat (n_out - 2)); [|lia].
  apply Nat.div_le_lower_bound; lia.
Qed.

(** Past the validation [lttb] returns. *)
Lemma lttb_returns (data : ndarray) (n_out : Z) :
  validate data n_out = None ->
  exists data_bins out,
    array_split (interior (rows data)) (n_out - 2) = Ok data_bins /\
    bucket_partition (rows data) n_out data_bins /\
    Forall (fun b => b <> []) data_bins /\
    select_points (rows data) n_out data_bins = Ok out /\
    lttb data n_out = Ok {| shape1 := 2; rows := out |}.
Proof.
  intros Hv. destruct (static_buckets data n_out Hv) as (bins & Hsplit & Hpart & Hne).
  destruct (select_points_total (rows data) n_out bins) as [out Hout];
    [|done|apply Hpart|].
  { apply validate_None in Hv as (_ & _ & Hn). unfold shape0 in Hn.
    destruct (rows data); [simpl in Hn; lia|done]. }
  exists bins, out. repeat split; try done; try apply Hpart.
  unfold lttb. by rewrite Hv, Hsplit; simpl; rewrite Hout.
Qed.

(** ** The bucket refiner *)

Lemma resize_body_Ok (data_bins : list (list row)) (max_index min_index : nat)
    (acc acc' : list (list row)) (i : nat) :
  resize_body data_bins max_index min_index acc (Z.of_nat i) = Ok acc' ->
  exists new, acc' = acc ++ new /\ resized data_bins max_index min_index i new.
Proof.
  unfold resize_body. intros H.
  destruct (Z.eqb_spec (Z.of_nat i) (Z.of_nat max_index)) as [Hmax|Hmax].
  { rewrite (getitem_of_nat data_bins i) in H.
    destruct (data_bins !! i) as [b|] eqn:Hb; cbn in H; [|discriminate].
    inv_bind H. injection H as <-. exists a. split; [done|].
    eapply resized_split; eauto. lia. }
  destruct (Z.eqb_spec (Z.of_nat i) (Z.of_nat min_index)) as [Hmin|Hmin].
  { rewrite (getitem_of_nat data_bins i), (getitem_succ data_bins i) in H.
    destruct (data_bins !! i) as [b|] eqn:Hb; simpl in H; [|discriminate].
    destruct (data_bins !! S i) as [b'|] eqn:Hb'; simpl in H; [|discriminate].
    injection H as <-. eexists. split; [done|].
    eapply resized_merge; eauto; lia. }
  destruct (Z.eqb_spec (Z.of_nat i) (Z.of_nat min_index + 1)) as [Hskip|Hskip].
  { injection H as <-. exists []. split; [by rewrite app_nil_r|].
    eapply resized_skip; eauto; lia. }
  rewrite (getitem_of_nat data_bins i) in H.
  destruct (data_bins !! i) as [b|] eqn:Hb; simpl in H; [|discriminate].
  injection H as <-. eexists. split; [done|].
  eapply resized_keep; eauto; lia.
Qed.

Lemma getitem_elem_of {A} (l : list A) (i : Z) (a : A) :
  getitem l i = Ok a -> a ∈ l.
Proof.
  unfold getitem. destruct (py_index l i) as [k|]; [|done].
  destruct (l !! k) eqn:Hk; [|done]. intros [= <-].
  by eapply list_elem_of_lookup_2.
Qed.

Lemma find_max_loop_elem_of (data_bins : list (list row)) (sort_sse : list nat)
    (idx : list Z) (last_i : option Z) (m : nat) :
  find_max_loop data_bins sort_sse idx last_i = Ok m -> m ∈ sort_sse.
Proof.
  revert last_i. induction idx as [|i idx IH]; intros last_i; cbn [find_max_loop].
  - destruct last_i; [apply getitem_elem_of|done].
  - intros H. inv_bind H. rename a into j. inv_bind H.
    destruct (2 <=? length a); [|by eapply IH].
    injection H as <-. by eapply getitem_elem_of.
Qed.

Lemma Forall_bucket {A} (P : A -> Prop) (bins : list (list A)) (i : nat)
    (b : list A) :
  Forall (Forall P) bins -> bins !! i = Some b -> Forall P b.
Proof. intros H Hb. exact (Forall_lookup_1 _ _ _ _ H Hb). Qed.

Section Refiner.
Context `{E : Externals}.

Lemma find_max_bin_lt (data_bins : list (list row)) (sse_list : list Q) (m : nat) :
  _find_max_bin data_bins sse_list = Ok m -> m < length sse_list.
Proof.
  unfold _find_max_bin. intros H%find_max_loop_elem_of.
  apply list_elem_of_In in H.
  eapply Permutation_in in H; [|apply argsort_perm].
  apply in_seq in H. lia.
Qed.

Lemma length_sse_list (data : list row) (data_bins : list (list row))
    (n : nat) (sse_list : list Q) :
  for_each (sse_body data data_bins) (range n) [] = Ok sse_list ->
  length sse_list = n.
Proof.
  apply (for_each_range_inv _ (fun i acc => length acc = i)); [done|].
  intros i t t' _ Ht H. unfold sse_body in H.
  inv_bind H. inv_bind H. injection H as <-.
  rewrite length_app. simpl. lia.
Qed.

(** A refinement pass that returns gives buckets made of rows of the
    buckets it started from, and no fewer buckets. *)
Lemma refine_once_rows (data : list row) (data_bins data_bins' : list (list row))
    (P : row -> Prop) :
  refine_once data data_bins = Ok data_bins' ->
  Forall (Forall P) data_bins ->
  Forall (Forall P) data_bins' /\ length data_bins <= length data_bins'.
Proof.
  unfold refine_once, _resize_bins. intros H HP.
  inv_bind H. rename a into sse_list. apply length_sse_list in Ha.
  inv_bind H. rename a into m. apply find_max_bin_lt in Ha0.
  inv_bind H. rename a into mn.
  pose (Inv := fun (i : nat) (acc : list (list row)) =>
    Forall (Forall P) acc /\
    i + (if decide (m < i) then 1 else 0) <=
    length acc + (if decide (S mn < i /\ S mn <> m) then 1 else 0)).
  assert (Inv (length data_bins) data_bins') as [HP' Hlen].
  { revert H. apply for_each_range_inv.
    - split; [constructor|]. simpl. repeat case_decide; lia.
    - intros i acc acc' Hi [HPacc Hacc] (new & -> & Hnew)%resize_body_Ok.
      destruct Hnew as [b -> Hb Hsplit|b b' Hm -> Hb Hb' ->|Hm Hmn -> ->
                       |b Hm Hmn Hskip Hb ->].
      + destruct (array_split_spec b 2) as (parts & Hparts & Hl & Hcat & _); [lia|].
        rewrite Hsplit in Hparts. injection Hparts as <-.
        split.
        * apply Forall_app. split; [done|].
          apply (Forall_bucket P _ _ _ HP) in Hb.
          rewrite <- Hcat in Hb. by apply Forall_concat.
        * rewrite length_app, Hl. change (Z.to_nat 2) with 2.
          repeat case_decide; lia.
      + split.
        * apply Forall_app. split; [done|]. constructor; [|done].
          apply Forall_app.
          split; [exact (Forall_bucket P _ _ _ HP Hb)
                 |exact (Forall_bucket P _ _ _ HP Hb')].
        * rewrite length_app. simpl. repeat case_decide; lia.
      + split; [by rewrite app_nil_r|].
        rewrite app_nil_r. repeat case_decide; lia.
      + split.
        * apply Forall_app. split; [done|]. constructor; [|done].
          exact (Forall_bucket P _ _ _ HP Hb).
        * rewrite length_app. simpl. repeat case_decide; lia. }
  split; [done|]. repeat case_decide; lia.
Qed.

Lemma refine_rows (fuel : nat) (data : list row)
    (data_bins data_bins' : list (list row)) (P : row -> Prop) :
  refine fuel data data_bins = Ok data_bins' ->
  Forall (Forall P) data_bins ->
  Forall (Forall P) data_bins' /\ length data_bins <= length data_bins'.
Proof.
  revert data_bins. induction fuel as [|fuel IH]; intros data_bins; simpl.
  - intros [= <-]. auto.
  - intros H HP. inv_bind H.
    destruct (refine_once_rows _ _ _ P Ha HP) as [HP1 Hl1].
    destruct (IH _ H HP1) as [HP2 Hl2]. split; [done|lia].
Qed.

(** Whatever the refinement did, the buckets [_split_data] returns hold
    rows of the interior only, and there are at least [n_out - 2]. *)
Lemma split_data_rows (data : list row) (n_out : Z) (data_bins : list (list row)) :
  _split_data data n_out = Ok data_bins ->
  Forall (Forall (fun p => p ∈ interior data)) data_bins /\
  (n_out - 2 <= Z.of_nat (length data_bins))%Z.
Proof.
  unfold _split_data. intros H. inv_bind H. inv_bind H.
  rename a0 into bins0.
  assert (0 < n_out - 2)%Z as Hpos.
  { unfold array_split in Ha0. destruct (Z.leb_spec (n_out - 2) 0); [done|lia]. }
  destruct (array_split_spec (interior data) (n_out - 2) Hpos)
    as (parts & Hparts & Hl & Hcat & _).
  rewrite Ha0 in Hparts. injection Hparts as <-.
  destruct (refine_rows _ _ _ _ (fun p => p ∈ interior data) H) as [HP Hlen].
  - apply Forall_concat. rewrite Hcat. by apply Forall_forall.
  - split; [done|lia].
Qed.
End Refiner.

(** * The claims of the specification *)

(** ** Validation order: C3, C8, C9 *)

(** C9.  For every 2-column series with non-decreasing x, either variant
    called with [n_out] equal to the number of rows returns the input array
    itself: the result is the argument, whatever the externals are, so no
    bucketing or selection has contributed to it. *)
Theorem identity_when_n_out_is_length (E : Externals) (data : ndarray) (n_out : Z) :
  shape1 data = 2 ->
  non_decreasing (column0 (rows data)) ->
  n_out = shape0 data ->
  lttb data n_out = Ok data /\ @ltd E data n_out = Ok data.
Proof.
  intros H2 Hs ->. unfold lttb, ltd.
  rewrite (validate_sorted _ _ H2 Hs).
  by rewrite Z.gtb_ltb, Z.ltb_irrefl, Z.eqb_refl.
Qed.

Lemma identity_when_n_out_is_length_witness :
  lttb series4 4 = Ok series4 /\ @ltd demo_externals series4 4 = Ok series4.
Proof.
  apply (identity_when_n_out_is_length demo_externals series4 4).
  - reflexivity.
  - apply sorted_check. reflexivity.
  - reflexivity.
Defined.

(** C3 (amended).  For every 2-column series with non-decreasing x and more
    than [n_out] rows, either variant called with [n_out < 3] raises TooFew.
    (With exactly [n_out] rows the input is returned instead: C9.) *)
Theorem too_few_below_length (E : Externals) (data : ndarray) (n_out : Z) :
  shape1 data = 2 ->
  non_decreasing (column0 (rows data)) ->
  (n_out < shape0 data)%Z ->
  (n_out < 3)%Z ->
  lttb data n_out = Raise TooFew /\ @ltd E data n_out = Raise TooFew.
Proof.
  intros H2 Hs HN H3. unfold lttb, ltd.
  rewrite (validate_sorted _ _ H2 Hs).
  rewrite Z.gtb_ltb.
  replace (shape0 data <? n_out)%Z with false by (symmetry; apply Z.ltb_ge; lia).
  replace (n_out =? shape0 data)%Z with false by (symmetry; apply Z.eqb_neq; lia).
  by replace (n_out <? 3)%Z with true by (symmetry; apply Z.ltb_lt; lia).
Qed.

Lemma too_few_below_length_witness :
  lttb series4 2 = Raise TooFew /\ @ltd demo_externals series4 2 = Raise TooFew.
Proof.
  apply (too_few_below_length demo_externals series4 2).
  - reflexivity.
  - apply sorted_check. reflexivity.
  - reflexivity.
  - reflexivity.
Defined.

(** C3 as stated fails: a sorted 2-column series of two rows, [n_out = 2 <= N],
    is returned as it is by both variants; TooFew is not raised. *)
Lemma two_rows_two_points_returned :
  shape1 series2 = 2 /\
  non_decreasing (column0 (rows series2)) /\
  (2 <= shape0 series2)%Z /\ (2 < 3)%Z /\
  lttb series2 2 = Ok series2 /\
  lttb series2 2 <> Raise TooFew /\
  (forall E : Externals, @ltd E series2 2 = Ok series2).
Proof.
  split; [reflexivity|]. split; [apply sorted_check; reflexivity|].
  split; [by vm_compute|]. split; [lia|]. split; [reflexivity|].
  split; [discriminate|]. intros E. reflexivity.
Qed.

(** C8 (amended).  The validation enforces that the x column is
    non-decreasing, not that it is strictly increasing: either variant
    rejects a 2-column series with NotSorted exactly when some x-value is
    above its successor. *)
Theorem not_sorted_iff_x_decreases (E : Externals) (data : ndarray) (n_out : Z) :
  shape1 data = 2 ->
  (lttb data n_out = Raise NotSorted <-> ~ non_decreasing (column0 (rows data))) /\
  (@ltd E data n_out = Raise NotSorted <-> ~ non_decreasing (column0 (rows data))).
Proof.
  intros H2. rewrite <- (validate_NotSorted data n_out H2).
  split; split.
  - intros H. destruct (validate data n_out) as [r|] eqn:Hv.
    + unfold lttb in H. rewrite Hv in H. by subst.
    + by apply (lttb_internal data n_out Hv) in H.
  - unfold lttb. by intros ->.
  - intros H. destruct (validate data n_out) as [r|] eqn:Hv.
    + unfold ltd in H. rewrite Hv in H. by subst.
    + by apply (ltd_internal data n_out Hv) in H.
  - unfold ltd. by intros ->.
Qed.

Lemma not_sorted_iff_x_decreases_witness :
  (lttb series_down 3 = Raise NotSorted <->
     ~ non_decreasing (column0 (rows series_down))) /\
  (@ltd demo_externals series_down 3 = Raise NotSorted <->
     ~ non_decreasing (column0 (rows series_down))).
Proof.
  apply (not_sorted_iff_x_decreases demo_externals series_down 3).
  reflexivity.
Defined.

(** C8 as stated fails: a 2-column series with two equal consecutive x-values
    (rows 1 and 2) is accepted by both variants. *)
Lemma equal_x_accepted :
  shape1 series_tie = 2 /\
  column0 (rows series_tie) !! 1 = Some 1%Q /\
  column0 (rows series_tie) !! 2 = Some 1%Q /\
  lttb series_tie 3 = Ok (array_of [(0, 0); (1, 2); (2, 0)]%Z) /\
  (forall E : Externals,
     @ltd E series_tie 3 = Ok (array_of [(0, 0); (1, 2); (2, 0)]%Z)).
Proof.
  split; [reflexivity|]. split; [reflexivity|]. split; [reflexivity|].
  split; [by vm_compute|]. intros E. by vm_compute.
Qed.

(** ** No refinement on a small series: C5 *)

Lemma iteration_num_small (data : list row) (n_out : Z) :
  (Z.of_nat (length data) < n_out * 10)%Z -> iteration_num data n_out = Ok 0%Z.
Proof.
  intros H. unfold iteration_num.
  replace (n_out * 10 =? 0)%Z with false by (symmetry; apply Z.eqb_neq; lia).
  f_equal. apply Z.quot_small. lia.
Qed.

(** C5.  When the series has fewer than [n_out * 10] rows the dynamic
    variant makes no refinement pass, its buckets are the equal partition of
    the static variant, and it returns what the static variant returns. *)
Theorem ltd_small_series_is_lttb (E : Externals) (data : ndarray) (n_out : Z) :
  (shape0 data < n_out * 10)%Z ->
  iteration_num (rows data) n_out = Ok 0%Z /\
  @_split_data E (rows data) n_out =
    array_split (interior (rows data)) (n_out - 2) /\
  @ltd E data n_out = lttb data n_out.
Proof.
  intros H. pose proof (iteration_num_small (rows data) n_out H) as Hit.
  assert (@_split_data E (rows data) n_out =
          array_split (interior (rows data)) (n_out - 2)) as Hsplit.
  { unfold _split_data. rewrite Hit. simpl.
    by destruct (array_split (interior (rows data)) (n_out - 2)). }
  split; [done|]. split; [done|].
  unfold ltd, lttb. by rewrite Hsplit.
Qed.

Lemma ltd_small_series_is_lttb_witness :
  iteration_num (rows series10) 5 = Ok 0%Z /\
  @_split_data demo_externals (rows series10) 5 =
    array_split (interior (rows series10)) (5 - 2) /\
  @ltd demo_externals series10 5 = lttb series10 5.
Proof.
  apply (ltd_small_series_is_lttb demo_externals series10 5).
  reflexivity.
Defined.

(** ** Output rows are input rows: C10 *)

Lemma elem_of_interior {A} (l : list A) (a : A) : a ∈ interior l -> a ∈ l.
Proof. unfold interior. intros H. by apply subseteq_take, subseteq_drop in H. Qed.

Lemma global_max_point_elem_of (data : list row) (p : row) :
  global_max_point data p -> p ∈ data.
Proof. intros (k & _ & Hk). by eapply list_elem_of_lookup_2. Qed.

Lemma global_min_point_elem_of (data : list row) (p : row) :
  global_min_point data p -> p ∈ data.
Proof. intros (k & _ & Hk). by eapply list_elem_of_lookup_2. Qed.

Lemma picked_elem_of (data : list row) (n_bins : Z) (data_bins : list (list row))
    (max_point min_point : row) (pre : option row) (i : nat) (p : row) :
  picked data n_bins data_bins max_point min_point pre i p ->
  p = max_point \/ p = min_point \/
  exists this_bin, data_bins !! i = Some this_bin /\ p ∈ this_bin.
Proof.
  intros [b Hb _ ->|b Hb _ _ ->|b nb pre' k Hb _ _ _ _ _ Hp]; auto.
  right. right. exists b. split; [done|]. by eapply list_elem_of_lookup_2.
Qed.

(** Every row [select_points] returns is a row of the series converted to
    float64, when the buckets hold rows of the series and there are at least
    [n_out - 2]. *)
Lemma select_points_rows (data : list row) (n_out : Z)
    (data_bins : list (list row)) (out : list row) :
  select_points data n_out data_bins = Ok out ->
  Forall (Forall (fun p => p ∈ data)) data_bins ->
  (n_out - 2 <= Z.of_nat (length data_bins))%Z ->
  Forall (fun r => exists p, p ∈ data /\ r = float64_row p) out.
Proof.
  intros (first & last & maxp & minp & Hfirst & Hlast & Hmax & Hmin & Hn &
          Hlen & Hrest & H0 & Hdone)%select_points_Ok Hbins Hcount.
  rewrite length_out_init in Hlen.
  apply list_elem_of_lookup_2 in Hfirst, Hlast.
  apply global_max_point_elem_of in Hmax. apply global_min_point_elem_of in Hmin.
  assert (forall j r,
            out_init n_out (float64_row first) (float64_row last) !! j = Some r ->
            j = 0 \/ j = Z.to_nat n_out - 1 ->
            exists p, p ∈ data /\ r = float64_row p) as Hinit.
  { unfold out_init. intros j r Hj Hcase.
    apply list_lookup_insert_Some in Hj as [(_ & <- & _)|[Hne Hj]]; [by eauto|].
    apply list_lookup_insert_Some in Hj as [(_ & <- & _)|[Hne' Hj]]; [by eauto|].
    lia. }
  apply Forall_lookup. intros j r Hj.
  pose proof (lookup_lt_Some _ _ _ Hj) as Hjlt.
  destruct j as [|j].
  - rewrite H0 in Hj. eapply Hinit; eauto.
  - destruct (decide (j < length data_bins)) as [Hlt|Hge].
    + destruct (Hdone j Hlt) as (q & Hq & Hpick).
      assert (r = float64_row q) as -> by congruence.
      exists q. split; [|done].
      apply picked_elem_of in Hpick as [->|[->|(b & Hb & Hpb)]]; [done|done|].
      pose proof (Forall_bucket _ _ _ _ Hbins Hb) as HPb.
      rewrite Forall_forall in HPb. by apply HPb.
    + rewrite Hrest in Hj by lia. eapply Hinit; eauto. lia.
Qed.

(** What either variant returns: the series itself, or rows of the series
    converted to float64. *)
Lemma output_rows (E : Externals) (data out : ndarray) (n_out : Z) :
  lttb data n_out = Ok out \/ @ltd E data n_out = Ok out ->
  Forall (fun r => r ∈ rows data \/
                   exists p, p ∈ rows data /\ r = float64_row p) (rows out).
Proof.
  intros H.
  destruct (validate data n_out) as [r|] eqn:Hv.
  { assert (r = Ok out) as ->.
    { unfold lttb, ltd in H. rewrite Hv in H. by destruct H. }
    unfold validate in Hv. repeat case_match; try discriminate.
    injection Hv as <-. apply Forall_forall. auto. }
  assert (Forall (fun r => exists p, p ∈ rows data /\ r = float64_row p)
                 (rows out)) as Hrows; [|eapply Forall_impl; eauto].
  destruct H as [H|H].
  - destruct (lttb_returns data n_out Hv) as (bins & out' & _ & [Hlen Hcat] & _ & Hsel & Hl).
    rewrite Hl in H. injection H as <-. simpl.
    apply (select_points_rows _ _ _ _ Hsel); [|lia].
    apply Forall_concat. rewrite Hcat.
    apply Forall_forall. intros p. apply elem_of_interior.
  - unfold ltd in H. rewrite Hv in H.
    inv_bind H. rename a into bins. inv_bind H. injection H as <-. simpl.
    apply split_data_rows in Ha as [Hrows Hcount].
    apply (select_points_rows _ _ _ _ Ha0); [|done].
    eapply Forall_impl; [exact Hrows|]. intros b Hb.
    eapply Forall_impl; [exact Hb|]. intros p. apply elem_of_interior.
Qed.

(** C10, as amended.  Whenever either variant returns an array for a series
    whose values are float64 numbers, every row of it is a row of the input
    series.  (The output is a float64 array: rows of another series are
    converted, see [int64_row_is_rounded].) *)
Theorem output_rows_are_input_rows (E : Externals) (data out : ndarray) (n_out : Z) :
  float64_array (rows data) = true ->
  lttb data n_out = Ok out \/ @ltd E data n_out = Ok out ->
  Forall (fun r => r ∈ rows data) (rows out).
Proof.
  intros Hfloat H. apply (output_rows E) in H.
  eapply Forall_impl; [exact H|]. intros r [Hr|(p & Hp & ->)]; [done|].
  by rewrite (float64_array_row _ _ Hfloat Hp).
Qed.

(** On 50 rows and [n_out = 5] the dynamic variant makes one refinement
    pass (buckets of 32, 8 and 8 rows with the externals of the example). *)
Lemma output_rows_are_input_rows_witness :
  Forall (fun r => r ∈ rows series50)
         (rows (array_of [(0, 0); (24, 14); (35, 0); (44, 16); (49, 12)]%Z)).
Proof.
  apply (output_rows_are_input_rows demo_externals series50 _ 5).
  - vm_compute. reflexivity.
  - right. vm_compute. reflexivity.
Defined.

(** C10 fails on the code as it is stated.  The output array is created by
    [np.zeros], a float64 array, and every row written to it is converted:
    the maximum point [(1, 2 ^ 53 + 1)] of an integer series comes back as
    [(1, 2 ^ 53)], which is no row of the series. *)
Lemma int64_row_is_rounded :
  validate series_int64 3 = None /\
  lttb series_int64 3 = Ok (array_of [(0, 0); (1, 9007199254740992); (3, 1)]%Z) /\
  (forall E : Externals,
     @ltd E series_int64 3
     = Ok (array_of [(0, 0); (1, 9007199254740992); (3, 1)]%Z)) /\
  ~ Forall (fun r => r ∈ rows series_int64)
           (rows (array_of [(0, 0); (1, 9007199254740992); (3, 1)]%Z)).
Proof.
  split; [reflexivity|]. split; [by vm_compute|]. split.
  - intros E. unfold ltd, _split_data. cbn [validate].
    by vm_compute.
  - intros H. apply Forall_lookup_1 with (i := 1) (x := rows_of [(1, 9007199254740992)%Z] !!! 0) in H;
      [|reflexivity].
    apply list_elem_of_In in H. vm_compute in H.
    repeat destruct H as [H|H]; try discriminate H. done.
Qed.

(** ** A refinement pass on one or two buckets: C1, C6 *)

Lemma bind_Ok_eq {A B} (a : A) (f : A -> result B) : Ok a ≫= f = f a.
Proof. reflexivity. Qed.

Lemma bind_Raise_eq {A B} (e : exn) (f : A -> result B) : Raise e ≫= f = Raise e.
Proof. reflexivity. Qed.

Lemma getitem_first_total {A} (l : list A) :
  l <> [] -> exists a, getitem l 0 = Ok a.
Proof. destruct l as [|a l]; [done|]. intros _. by exists a. Qed.

Lemma getitem_last_total {A} (l : list A) :
  l <> [] -> exists a, getitem l (-1) = Ok a.
Proof.
  intros Hl. rewrite getitem_last.
  assert (0 < length l) as Hlen by (destruct l; [done|simpl; lia]).
  destruct (lookup_lt_is_Some_2 l (length l - 1)) as [a ->]; [lia|].
  exists a. by destruct (decide (0 < length l)).
Qed.

Lemma argsort_two `{E : Externals} (s0 s1 : Q) :
  argsort [s0; s1] = [0; 1] \/ argsort [s0; s1] = [1; 0].
Proof.
  pose proof (argsort_perm [s0; s1]) as H. simpl in H.
  symmetry in H. by apply Permutation_length_2_inv in H.
Qed.

Section OneOrTwoBuckets.
Context `{E : Externals}.
Variables (data b0 b1 : list row).
Hypothesis (Hdata : data <> []).

(** With a single bucket the first score already reads [data_bins[1]]. *)
Lemma refine_once_single : refine_once data [b0] = Raise IndexError.
Proof.
  destruct (getitem_first_total data Hdata) as [d0 Hd0].
  unfold refine_once. cbn [for_each range seq map length]. unfold sse_body.
  change (Z.of_nat 0) with 0%Z. cbn [Z.eqb]. change (0 + 1)%Z with 1%Z.
  rewrite Hd0, bind_Ok_eq.
  change (getitem [b0] 1) with (@Raise (list row) IndexError).
  by rewrite !bind_Raise_eq.
Qed.

Hypothesis (H0 : 2 <= length b0) (H1 : 2 <= length b1).

Lemma sse_list_two :
  exists s0 s1, for_each (sse_body data [b0; b1]) (range 2) [] = Ok [s0; s1].
Proof.
  destruct (getitem_first_total data Hdata) as [d0 Hd0].
  destruct (getitem_last_total data Hdata) as [dl Hdl].
  destruct (getitem_first_total b1) as [p1 Hp1].
  { intros Hnil. pose proof H1 as H1'. rewrite Hnil in H1'. simpl in H1'. lia. }
  destruct (getitem_last_total b0) as [q0 Hq0].
  { intros Hnil. pose proof H0 as H0'. rewrite Hnil in H0'. simpl in H0'. lia. }
  cbn [for_each range seq map]. unfold sse_body.
  change (Z.of_nat 0) with 0%Z. change (Z.of_nat 1) with 1%Z.
  change (Z.of_nat (length [b0; b1]) - 1)%Z with 1%Z.
  cbn [Z.eqb Pos.eqb].
  change (0 + 1)%Z with 1%Z. change (1 - 1)%Z with 0%Z.
  change (getitem [b0; b1] 1) with (Ok (A:=list row) b1).
  change (getitem [b0; b1] 0) with (Ok (A:=list row) b0).
  rewrite Hd0, Hdl. rewrite !bind_Ok_eq. rewrite Hp1. rewrite !bind_Ok_eq.
  rewrite Hq0. rewrite !bind_Ok_eq. cbn [fst snd app]. eauto.
Qed.

(** Both buckets can be split, so the split target is the last index of
    [argsort]. *)
Lemma find_max_two (s0 s1 : Q) :
  (argsort [s0; s1] = [0; 1] /\ _find_max_bin [b0; b1] [s0; s1] = Ok 1) \/
  (argsort [s0; s1] = [1; 0] /\ _find_max_bin [b0; b1] [s0; s1] = Ok 0).
Proof.
  assert ((2 <=? length b0) = true) as L0 by (by apply Nat.leb_le).
  assert ((2 <=? length b1) = true) as L1 by (by apply Nat.leb_le).
  unfold _find_max_bin.
  destruct (argsort_two s0 s1) as [Hs|Hs]; rewrite Hs; [left|right];
    (split; [done|]); cbn [length range_down seq map find_max_loop].
  - change (getitem [0; 1] (- Z.of_nat 1)) with (Ok (A:=nat) 1).
    rewrite bind_Ok_eq.
    change (getitem [b0; b1] (Z.of_nat 1)) with (Ok (A:=list row) b1).
    rewrite bind_Ok_eq. by rewrite L1.
  - change (getitem [1; 0] (- Z.of_nat 1)) with (Ok (A:=nat) 0).
    rewrite bind_Ok_eq.
    change (getitem [b0; b1] (Z.of_nat 0)) with (Ok (A:=list row) b0).
    rewrite bind_Ok_eq. by rewrite L0.
Qed.

(** The only adjacent pair is (0, 1), so the split target is always in the
    merged pair: either bucket 0 is split and bucket 1 is skipped, or the
    pair is merged and bucket 1 is split as well. *)
Lemma resize_two (s0 s1 : Q) (h0 h1 : list (list row)) :
  array_split b0 2 = Ok h0 -> array_split b1 2 = Ok h1 ->
  _resize_bins [b0; b1] [s0; s1] = Ok h0 \/
  _resize_bins [b0; b1] [s0; s1] = Ok ([b0 ++ b1] ++ h1).
Proof.
  intros Hh0 Hh1. unfold _resize_bins.
  destruct (find_max_two s0 s1) as [[_ ->]|[_ ->]]; rewrite bind_Ok_eq;
    change (_find_min_bin [s0; s1]) with (Ok (A:=nat) 0); rewrite bind_Ok_eq;
    cbn [for_each range seq map length]; unfold resize_body;
    change (Z.of_nat 0) with 0%Z; change (Z.of_nat 1) with 1%Z;
    cbn [Z.eqb Pos.eqb];
    change (0 + 1)%Z with 1%Z;
    change (getitem [b0; b1] 1) with (Ok (A:=list row) b1);
    change (getitem [b0; b1] 0) with (Ok (A:=list row) b0);
    rewrite !bind_Ok_eq.
  - right. rewrite Hh1. rewrite !bind_Ok_eq. reflexivity.
  - left. rewrite Hh0. rewrite !bind_Ok_eq. by rewrite app_nil_l.
Qed.

(** A pass over two buckets returns, and what it returns is not a
    partition of the rows it started from into two buckets: bucket 1 is
    lost, or there are three buckets. *)
Lemma refine_once_two :
  exists data_bins',
    refine_once data [b0; b1] = Ok data_bins' /\
    (concat data_bins' = b0 \/ length data_bins' = 3).
Proof.
  destruct (array_split_spec b0 2) as (h0 & Hh0 & _ & Hc0 & _); [lia|].
  destruct (array_split_spec b1 2) as (h1 & Hh1 & Hl1 & _); [lia|].
  destruct sse_list_two as (s0 & s1 & Hsse).
  unfold refine_once. cbn [length]. rewrite Hsse, bind_Ok_eq.
  destruct (resize_two s0 s1 h0 h1 Hh0 Hh1) as [->| ->].
  - exists h0. auto.
  - eexists. split; [done|]. right. rewrite length_app, Hl1. reflexivity.
Qed.
End OneOrTwoBuckets.

Lemma iteration_num_once (data : list row) (n_out : Z) :
  (0 < n_out)%Z ->
  (n_out * 10 <= Z.of_nat (length data) < n_out * 20)%Z ->
  iteration_num data n_out = Ok 1%Z.
Proof.
  intros Hpos H. unfold iteration_num.
  replace (n_out * 10 =? 0)%Z with false by (symmetry; apply Z.eqb_neq; lia).
  f_equal. rewrite Z.quot_div_nonneg by lia. symmetry.
  apply (Z.div_unique_pos _ _ _ (Z.of_nat (length data) - n_out * 10)); lia.
Qed.

Lemma iteration_num_pos (data : list row) (n_out : Z) :
  (0 < n_out)%Z -> (n_out * 10 <= Z.of_nat (length data))%Z ->
  exists fuel, iteration_num data n_out ≫= (fun k => Ok (Z.to_nat k)) = Ok (S fuel).
Proof.
  intros Hpos H. unfold iteration_num.
  replace (n_out * 10 =? 0)%Z with false by (symmetry; apply Z.eqb_neq; lia).
  rewrite bind_Ok_eq, Z.quot_div_nonneg by lia.
  assert (1 <= Z.of_nat (length data) / (n_out * 10))%Z
    by (apply Z.div_le_lower_bound; lia).
  exists (Z.to_nat (Z.of_nat (length data) / (n_out * 10)) - 1). f_equal. lia.
Qed.

(** With [n_out = 3] and 30 rows or more the dynamic variant raises
    IndexError: there is one bucket, and the refiner reads the bucket after
    it. *)
Lemma ltd_three_points_raises (E : Externals) (data : ndarray) :
  validate data 3 = None -> (30 <= shape0 data)%Z ->
  @ltd E data 3 = Raise IndexError.
Proof.
  intros Hv HN. unfold ltd. rewrite Hv. unfold _split_data, shape0 in *.
  destruct (iteration_num_pos (rows data) 3) as [fuel Hfuel]; [lia|lia|].
  destruct (iteration_num (rows data) 3) as [k|]; [|done].
  rewrite bind_Ok_eq in Hfuel. injection Hfuel as Hfuel.
  rewrite bind_Ok_eq, Hfuel.
  destruct (array_split_spec (interior (rows data)) (3 - 2))
    as (bins & -> & Hlen & _); [lia|].
  rewrite bind_Ok_eq.
  destruct bins as [|b0 [|b1 bins]]; try done.
  cbn [refine]. rewrite refine_once_single; [done|].
  intros Hnil. rewrite Hnil in HN. simpl in HN. lia.
Qed.

(** With [n_out = 4] and 40 to 79 rows the dynamic variant makes one pass
    over two buckets, and the buckets it goes on with are not a partition of
    the interior into two buckets. *)
Lemma split_data_four_points (E : Externals) (data : list row) :
  (40 <= Z.of_nat (length data) < 80)%Z ->
  exists data_bins,
    @_split_data E data 4 = Ok data_bins /\
    ~ bucket_partition data 4 data_bins.
Proof.
  intros HN. unfold _split_data.
  rewrite (iteration_num_once data 4) by lia. rewrite bind_Ok_eq.
  destruct (array_split_spec (interior data) (4 - 2))
    as (bins & -> & Hlen & Hcat & Hlow); [lia|].
  rewrite bind_Ok_eq. change (Z.to_nat 1) with 1. cbn [refine].
  destruct bins as [|b0 [|b1 [|b2 bins]]]; try done.
  rewrite length_interior in Hlow. change (Z.to_nat (4 - 2)) with 2 in Hlow.
  assert (19 <= (length data - 2) / 2) as H19 by (apply Nat.div_le_lower_bound; lia).
  inversion Hlow as [|? ? Hb0 Hlow']; subst.
  inversion Hlow' as [|? ? Hb1 _]; subst.
  destruct (refine_once_two data b0 b1) as (bins' & Hpass & Hbroken); [|lia|lia|].
  { intros Hnil. rewrite Hnil in HN. simpl in HN. lia. }
  rewrite Hpass, bind_Ok_eq. exists bins'. split; [done|].
  intros [Hcount Hcat'].
  destruct Hbroken as [Hlost|Hthree]; [|lia].
  rewrite Hlost, <- Hcat in Hcat'. simpl in Hcat'. rewrite app_nil_r in Hcat'.
  apply (f_equal length) in Hcat'. rewrite length_app in Hcat'. lia.
Qed.

(** C1 fails on the code.  On a sorted series of 40 rows with [n_out = 4],
    whatever scores [linregress] gives, the bucket list after the refinement
    pass is not [n_out - 2] buckets whose concatenation is the interior. *)
Theorem refinement_breaks_bucket_partition :
  forall E : Externals,
    validate series40 4 = None /\
    exists data_bins,
      @_split_data E (rows series40) 4 = Ok data_bins /\
      ~ bucket_partition (rows series40) 4 data_bins.
Proof.
  intros E. split; [reflexivity|].
  apply split_data_four_points. by vm_compute.
Qed.

(** C6 fails on the code for the dynamic variant.  On a sorted series of 30
    rows with [n_out = 3], a valid input, [ltd] raises IndexError and
    returns no array. *)
Theorem ltd_raises_on_three_points :
  forall E : Externals,
    validate series30 3 = None /\ @ltd E series30 3 = Raise IndexError.
Proof.
  intros E. split; [reflexivity|].
  apply ltd_three_points_raises; [reflexivity|by vm_compute].
Qed.

(** ** The static variant: structure of the result *)

Lemma validate_Ok (data d : ndarray) (n_out : Z) :
  validate data n_out = Some (Ok d) -> n_out = shape0 data /\ d = data.
Proof.
  unfold validate. repeat case_match; try discriminate.
  intros [= <-]. split; [|done]. by apply Z.eqb_eq.
Qed.

Lemma global_max_point_unique (data : list row) (p q : row) :
  global_max_point data p -> global_max_point data q -> p = q.
Proof.
  intros (k & Hk & Hp) (k' & Hk' & Hq).
  rewrite (first_max_unique _ _ _ Hk Hk') in Hp. congruence.
Qed.

Lemma global_min_point_unique (data : list row) (p q : row) :
  global_min_point data p -> global_min_point data q -> p = q.
Proof.
  intros (k & Hk & Hp) (k' & Hk' & Hq).
  rewrite (first_min_unique _ _ _ Hk Hk') in Hp. congruence.
Qed.

(** What [lttb] returns when it does not return its argument: the buckets
    are the static partition, rows 0 and [n_out - 1] are the ends of the
    series, and row [j + 1] is what the loop picked in bucket [j]. *)
Lemma lttb_structure (data out : ndarray) (n_out : Z) :
  lttb data n_out = Ok out -> (n_out < shape0 data)%Z ->
  exists data_bins first last max_point min_point,
    validate data n_out = None /\
    array_split (interior (rows data)) (n_out - 2) = Ok data_bins /\
    bucket_partition (rows data) n_out data_bins /\
    Forall (fun b => b <> []) data_bins /\
    rows data !! 0 = Some first /\
    rows data !! (length (rows data) - 1) = Some last /\
    global_max_point (rows data) max_point /\
    global_min_point (rows data) min_point /\
    shape1 out = 2 /\
    length (rows out) = Z.to_nat n_out /\
    rows out !! 0 = Some (float64_row first) /\
    rows out !! (Z.to_nat n_out - 1) = Some (float64_row last) /\
    forall j, j < length data_bins ->
      exists p, rows out !! S j = Some (float64_row p) /\
        picked (rows data) (n_out - 2) data_bins max_point min_point
               (rows out !! j) j p.
Proof.
  intros Hout HN.
  destruct (validate data n_out) as [r|] eqn:Hv.
  { unfold lttb in Hout. rewrite Hv in Hout. subst r.
    apply validate_Ok in Hv as [-> _]. lia. }
  destruct (lttb_returns data n_out Hv)
    as (bins & out' & Hsplit & Hpart & Hne & Hsel & Hl).
  rewrite Hl in Hout. injection Hout as <-. cbn [shape1 rows].
  destruct Hpart as [Hcount Hcat].
  apply select_points_Ok in Hsel
    as (first & last & maxp & minp & Hfirst & Hlast & Hmax & Hmin & Hn &
        Hlen & Hrest & H0 & Hdone).
  rewrite length_out_init in Hlen.
  apply validate_None in Hv as Hv'. destruct Hv' as (_ & _ & H3).
  exists bins, first, last, maxp, minp.
  repeat split; try done.
  - rewrite H0. unfold out_init.
    rewrite list_lookup_insert_ne by lia.
    apply list_lookup_insert_eq. rewrite repeat_length. lia.
  - rewrite Hrest by lia. unfold out_init.
    apply list_lookup_insert_eq. rewrite length_insert, repeat_length. lia.
Qed.

(** ** Triangle areas *)










Lemma drop_last_row {A} (l : list A) (a : A) :
  l !! (length l - 1) = Some a -> drop (length l - 1) l = [a].
Proof.
  intros Ha. pose proof (lookup_lt_Some _ _ _ Ha) as Hlt.
  pose proof (length_drop l (length l - 1)) as Hlen.
  pose proof (lookup_drop l (length l - 1) 0) as H0.
  rewrite Nat.add_0_r, Ha in H0.
  destruct (drop (length l - 1) l) as [|x [|y t]]; simpl in *; try lia.
  congruence.
Qed.



(** ** Largest triangle: C7 *)







(** ** Shape and ends of the static result (the static half of C6) *)

(** X1 (the static half of C6).  For every valid input whose values are
    float64 numbers the static variant returns an array of [n_out] rows of
    two columns whose first and last rows are those of the series. *)
Theorem lttb_shape_and_ends (data : ndarray) (n_out : Z) :
  shape1 data = 2 ->
  non_decreasing (column0 (rows data)) ->
  (3 <= n_out <= shape0 data)%Z ->
  float64_array (rows data) = true ->
  exists out,
    lttb data n_out = Ok out /\
    shape1 out = 2 /\
    shape0 out = n_out /\
    rows out !! 0 = rows data !! 0 /\
    rows out !! (Z.to_nat n_out - 1) = rows data !! (length (rows data) - 1).
Proof.
  intros H2 Hs Hn Hfloat.
  destruct (decide (n_out = shape0 data)) as [->|Hne].
  - exists data. unfold lttb. rewrite (validate_sorted _ _ H2 Hs).
    rewrite Z.gtb_ltb, Z.ltb_irrefl, Z.eqb_refl.
    repeat split; try done. unfold shape0. by rewrite Nat2Z.id.
  - assert (validate data n_out = None) as Hv.
    { rewrite (validate_sorted _ _ H2 Hs), Z.gtb_ltb.
      replace (shape0 data <? n_out)%Z with false by (symmetry; apply Z.ltb_ge; lia).
      replace (n_out =? shape0 data)%Z with false by (symmetry; by apply Z.eqb_neq).
      by replace (n_out <? 3)%Z with false by (symmetry; apply Z.ltb_ge; lia). }
    destruct (lttb_returns data n_out Hv) as (bins & rs & _ & _ & _ & _ & Hl).
    destruct (lttb_structure data _ n_out Hl)
      as (_ & first & last & _ & _ & _ & _ & _ & _ & Hfirst & Hlast & _ & _ &
          _ & Hlen & Hout0 & Hout1 & _); [lia|].
    rewrite (float64_array_row _ first Hfloat) in Hout0
      by (by eapply list_elem_of_lookup_2).
    rewrite (float64_array_row _ last Hfloat) in Hout1
      by (by eapply list_elem_of_lookup_2).
    eexists. split; [exact Hl|]. cbn [shape1 rows] in *.
    repeat split; try congruence. unfold shape0. cbn [rows]. lia.
Qed.

Lemma lttb_shape_and_ends_witness :
  exists out,
    lttb series10 5 = Ok out /\
    shape1 out = 2 /\
    shape0 out = 5%Z /\
    rows out !! 0 = rows series10 !! 0 /\
    rows out !! (Z.to_nat 5 - 1) = rows series10 !! (length (rows series10) - 1).
Proof.
  apply (lttb_shape_and_ends series10 5).
  - reflexivity.
  - apply sorted_check. reflexivity.
  - by vm_compute.
  - by vm_compute.
Defined.

(** ** Extremum preservation: C2 *)

Lemma row_eqb_refl (p : row) : row_eqb p p = true.
Proof.
  induction p as [|a p IH]; [done|]. simpl.
  by rewrite IH, (proj2 (Qeq_bool_iff a a) (Qeq_refl a)).
Qed.

Lemma contains_elem_of (p : row) (bin : list row) : p ∈ bin -> contains p bin = true.
Proof.
  intros H. apply existsb_exists. exists p.
  split; [by apply list_elem_of_In | apply row_eqb_refl].
Qed.

Lemma lookup_interior {A} (l : list A) (k : nat) (a : A) :
  0 < k < length l - 1 -> l !! k = Some a -> a ∈ interior l.
Proof.
  intros Hk Ha. unfold interior.
  apply (list_elem_of_lookup_2 _ (k - 1)).
  rewrite lookup_take_lt by lia. rewrite lookup_drop.
  by replace (1 + (k - 1)) with k by lia.
Qed.

Lemma elem_of_concat {A} (ls : list (list A)) (a : A) :
  a ∈ concat ls -> exists i l, ls !! i = Some l /\ a ∈ l.
Proof.
  intros (l & Hl & Ha)%list_elem_of_In%in_concat.
  apply list_elem_of_In, list_elem_of_lookup_1 in Hl as [i Hi].
  exists i, l. split; [done|]. by apply list_elem_of_In.
Qed.

(** A row of the series is row 0, the last row, or in a static bucket. *)
Lemma row_in_end_or_bucket (data : list row) (n_out : Z)
    (data_bins : list (list row)) (k : nat) (p : row) :
  bucket_partition data n_out data_bins -> data !! k = Some p ->
  k = 0 \/ k = length data - 1 \/
  exists i bin, data_bins !! i = Some bin /\ p ∈ bin.
Proof.
  intros [_ Hcat] Hp. pose proof (lookup_lt_Some _ _ _ Hp).
  destruct (decide (k = 0)); [by left|].
  destruct (decide (k = length data - 1)); [by right; left|].
  right. right. apply elem_of_concat. rewrite Hcat.
  apply (lookup_interior _ k); [lia|done].
Qed.

Lemma lttb_extrema (data out : ndarray) (n_out : Z)
    (max_point min_point : row) :
  float64_array (rows data) = true ->
  lttb data n_out = Ok out ->
  global_max_point (rows data) max_point ->
  global_min_point (rows data) min_point ->
  max_point ∈ rows out /\
  (min_point ∈ rows out \/
   exists data_bins bin,
     array_split (interior (rows data)) (n_out - 2) = Ok data_bins /\
     bin ∈ data_bins /\ min_point ∈ bin /\ contains max_point bin = true).
Proof.
  intros Hfloat Hout Hmax Hmin.
  destruct (validate data n_out) as [r|] eqn:Hv.
  { unfold lttb in Hout. rewrite Hv in Hout. subst r.
    apply validate_Ok in Hv as [_ ->].
    split; [|left].
    - by apply global_max_point_elem_of.
    - by apply global_min_point_elem_of. }
  apply validate_None in Hv as (_ & _ & H3).
  destruct (lttb_structure data out n_out Hout)
    as (bins & first & last & maxp & minp & _ & Hsplit & Hpart & Hne &
        Hfirst & Hlast & Hmax' & Hmin' & _ & Hlen & Hout0 & Hout1 & Hdone); [lia|].
  rewrite (global_max_point_unique _ _ _ Hmax' Hmax) in Hdone.
  rewrite (global_min_point_unique _ _ _ Hmin' Hmin) in Hdone.
  clear Hmax' Hmin' maxp minp.
  rewrite (float64_array_row _ first Hfloat) in Hout0
    by (by eapply list_elem_of_lookup_2).
  rewrite (float64_array_row _ last Hfloat) in Hout1
    by (by eapply list_elem_of_lookup_2).
  assert (float64_row max_point = max_point) as Hfmax
    by (apply (float64_array_row _ _ Hfloat); by apply global_max_point_elem_of).
  assert (float64_row min_point = min_point) as Hfmin
    by (apply (float64_array_row _ _ Hfloat); by apply global_min_point_elem_of).
  assert (forall i bin, bins !! i = Some bin -> contains max_point bin = true ->
                        rows out !! S i = Some max_point) as Hkeepmax.
  { intros i bin Hbin Hc. destruct (Hdone i) as (p & Hp & Hpick);
      [by eapply lookup_lt_Some|].
    destruct Hpick as [b Hb _ ->|b Hb Hc' _ _|b ? ? ? Hb Hc' _ _ _ _ _];
      [congruence|congruence|congruence]. }
  split.
  - destruct Hmax as (k & _ & Hk).
    destruct (row_in_end_or_bucket _ _ _ _ _ Hpart Hk) as [->|[->|(i & bin & Hbin & Hin)]].
    + apply (list_elem_of_lookup_2 _ 0). congruence.
    + apply (list_elem_of_lookup_2 _ (Z.to_nat n_out - 1)). congruence.
    + eapply list_elem_of_lookup_2, Hkeepmax; [done|]. by apply contains_elem_of.
  - destruct Hmin as (k & _ & Hk).
    destruct (row_in_end_or_bucket _ _ _ _ _ Hpart Hk) as [->|[->|(i & bin & Hbin & Hin)]].
    + left. apply (list_elem_of_lookup_2 _ 0). congruence.
    + left. apply (list_elem_of_lookup_2 _ (Z.to_nat n_out - 1)). congruence.
    + destruct (contains max_point bin) eqn:Hc.
      * right. exists bins, bin. repeat split; try done.
        by eapply list_elem_of_lookup_2.
      * left. destruct (Hdone i) as (p & Hp & Hpick); [by eapply lookup_lt_Some|].
        apply contains_elem_of in Hin.
        destruct Hpick as [b Hb Hc' _|b Hb _ _ ->|b ? ? ? Hb _ Hc' _ _ _ _];
          [congruence| |congruence].
        rewrite Hfmin in Hp. by eapply list_elem_of_lookup_2.
Qed.

(** X2 (the static half of C2).  For a series whose values are float64
    numbers, the maximum point is in the output, and the minimum point is in
    the output unless they "fall in the same bucket" as the code tests it:
    the bucket of the minimum point holds a row equal to the maximum
    point. *)
Theorem lttb_keeps_extrema (data out : ndarray) (n_out : Z)
    (max_point min_point : row) :
  float64_array (rows data) = true ->
  lttb data n_out = Ok out ->
  global_max_point (rows data) max_point ->
  global_min_point (rows data) min_point ->
  max_point ∈ rows out /\
  (min_point ∈ rows out \/
   exists data_bins bin,
     array_split (interior (rows data)) (n_out - 2) = Ok data_bins /\
     bin ∈ data_bins /\ min_point ∈ bin /\ contains max_point bin = true).
Proof. apply lttb_extrema. Qed.

Lemma lttb_keeps_extrema_witness :
  [3%Q; 9%Q] ∈ rows (array_of [(0, 0); (3, 9); (4, 2); (8, 4); (9, 0)]%Z) /\
  ([0%Q; 0%Q] ∈ rows (array_of [(0, 0); (3, 9); (4, 2); (8, 4); (9, 0)]%Z) \/
   exists data_bins bin,
     array_split (interior (rows series10)) (5 - 2) = Ok data_bins /\
     bin ∈ data_bins /\ [0%Q; 0%Q] ∈ bin /\ contains [3%Q; 9%Q] bin = true).
Proof.
  apply (lttb_keeps_extrema series10 _ 5).
  - by vm_compute.
  - by vm_compute.
  - exists 3. split; [by apply argmax_spec|done].
  - exists 0. split; [by apply argmin_spec|done].
Defined.

Lemma strict_check_tail (a : Q) (l : list Q) :
  strict_check (a :: l) = true -> strict_check l = true.
Proof. destruct l as [|b l]; [done|]. cbn [strict_check]. by intros [_ ?]%andb_true_iff. Qed.

Lemma strict_check_head (a : Q) (l : list Q) (j : nat) (b : Q) :
  strict_check (a :: l) = true -> l !! j = Some b -> (a < b)%Q.
Proof.
  revert a j. induction l as [|c l IH]; intros a j Hc Hj; [done|].
  cbn [strict_check] in Hc. apply andb_true_iff in Hc as [Hac Hc].
  assert (a < c)%Q as Hlt.
  { destruct (Qlt_le_dec a c) as [?|Hle]; [done|].
    apply Qle_bool_iff in Hle. by rewrite Hle in Hac. }
  destruct j as [|j]; [by injection Hj as <-|].
  eapply Qlt_trans; [exact Hlt|]. by apply (IH c j).
Qed.

Lemma strict_check_sound (l : list Q) :
  strict_check l = true -> strictly_increasing l.
Proof.
  induction l as [|a l IH]; intros Hc i j x y Hij Hx Hy; [done|].
  destruct j as [|j]; [lia|]. destruct i as [|i].
  - injection Hx as <-. by apply (strict_check_head _ l j).
  - apply (IH (strict_check_tail _ _ Hc) i j); [lia|done|done].
Qed.

Lemma row_eqb_px (p q : row) : row_eqb p q = true -> (px p == px q)%Q.
Proof.
  destruct p as [|a p], q as [|b q]; simpl; try done.
  intros [Hab _]%andb_true_iff. by apply Qeq_bool_iff.
Qed.

(** With a strictly increasing x column a bucket contains a row equal to [p]
    only if it contains [p]. *)
Lemma contains_strict (data bin : list row) (p : row) :
  strictly_increasing (column0 data) ->
  p ∈ data -> (forall q, q ∈ bin -> q ∈ data) ->
  contains p bin = true -> p ∈ bin.
Proof.
  intros Hinc [k Hk]%list_elem_of_lookup_1 Hbin
         (q & Hq%list_elem_of_In & Heq%row_eqb_px)%existsb_exists.
  destruct (list_elem_of_lookup_1 _ _ (Hbin q Hq)) as [j Hj].
  assert (column0 data !! k = Some (px p)) as Hpk
    by (unfold column0; change (map ?f ?l) with (f <$> l);
        by rewrite list_lookup_fmap, Hk).
  assert (column0 data !! j = Some (px q)) as Hqj
    by (unfold column0; change (map ?f ?l) with (f <$> l);
        by rewrite list_lookup_fmap, Hj).
  destruct (Nat.lt_trichotomy k j) as [Hlt|[->|Hgt]].
  - pose proof (Hinc k j _ _ Hlt Hpk Hqj) as Hlt'. rewrite Heq in Hlt'.
    by apply Qlt_irrefl in Hlt'.
  - by assert (p = q) as -> by congruence.
  - pose proof (Hinc j k _ _ Hgt Hqj Hpk) as Hlt'. rewrite Heq in Hlt'.
    by apply Qlt_irrefl in Hlt'.
Qed.

(** X5 (the static half of C2 on a series of float64 numbers whose x column
    is strictly increasing).  The maximum point is in the output, and the
    minimum point is in the output unless both points lie in the same
    bucket. *)
Theorem lttb_keeps_extrema_strict (data out : ndarray) (n_out : Z)
    (max_point min_point : row) :
  float64_array (rows data) = true ->
  lttb data n_out = Ok out ->
  strictly_increasing (column0 (rows data)) ->
  global_max_point (rows data) max_point ->
  global_min_point (rows data) min_point ->
  max_point ∈ rows out /\
  (min_point ∈ rows out \/
   exists data_bins bin,
     array_split (interior (rows data)) (n_out - 2) = Ok data_bins /\
     bin ∈ data_bins /\ min_point ∈ bin /\ max_point ∈ bin).
Proof.
  intros Hfloat Hout Hinc Hmax Hmin.
  destruct (lttb_extrema data out n_out _ _ Hfloat Hout Hmax Hmin)
    as [Hin [Hkept|(bins & bin & Hsplit & Hbin & Hminin & Hc)]];
    (split; [done|]); [by left|].
  right. exists bins, bin. repeat split; try done.
  apply (contains_strict (rows data)); try done.
  - by apply global_max_point_elem_of.
  - intros q Hq. apply elem_of_interior.
    unfold array_split in Hsplit. destruct (n_out - 2 <=? 0)%Z eqn:Hk; [done|].
    destruct (array_split_spec (interior (rows data)) (n_out - 2))
      as (parts & Hparts & _ & Hcat & _); [by apply Z.leb_gt|].
    unfold array_split in Hparts. rewrite Hk in Hparts.
    rewrite Hsplit in Hparts. injection Hparts as <-.
    rewrite <- Hcat. apply list_elem_of_In, in_concat.
    exists bin. split; by apply list_elem_of_In.
Qed.

Lemma lttb_keeps_extrema_strict_witness :
  [3%Q; 9%Q] ∈ rows (array_of [(0, 0); (3, 9); (4, 2); (8, 4); (9, 0)]%Z) /\
  ([0%Q; 0%Q] ∈ rows (array_of [(0, 0); (3, 9); (4, 2); (8, 4); (9, 0)]%Z) \/
   exists data_bins bin,
     array_split (interior (rows series10)) (5 - 2) = Ok data_bins /\
     bin ∈ data_bins /\ [0%Q; 0%Q] ∈ bin /\ [3%Q; 9%Q] ∈ bin).
Proof.
  apply (lttb_keeps_extrema_strict series10 _ 5).
  - by vm_compute.
  - by vm_compute.
  - apply strict_check_sound. reflexivity.
  - exists 3. split; [by apply argmax_spec|done].
  - exists 0. split; [by apply argmin_spec|done].
Defined.

(** C2 fails on the code.  Static variant: on a sorted series in which the
    maximum row occurs twice, the first maximum point (row 1) is in bucket 0
    and the minimum point (row 3) in bucket 1, yet the minimum point is not
    in the output, because bucket 1 holds a row equal to the maximum point.
    Dynamic variant: on 30 rows with [n_out = 3] there is no output at all. *)
Theorem extrema_not_always_kept :
  validate series_dup 4 = None /\
  global_max_point (rows series_dup) [1%Q; 9%Q] /\
  global_min_point (rows series_dup) [1%Q; (-5)%Q] /\
  array_split (interior (rows series_dup)) (4 - 2) =
    Ok [rows_of [(1, 9); (1, 0)]%Z; rows_of [(1, -5); (1, 9)]%Z] /\
  lttb series_dup 4 = Ok (array_of [(0, 0); (1, 9); (1, 9); (2, 0)]%Z) /\
  ([1%Q; (-5)%Q] ∉ rows (array_of [(0, 0); (1, 9); (1, 9); (2, 0)]%Z)) /\
  (forall E : Externals, @ltd E series30 3 = Raise IndexError).
Proof.
  split; [reflexivity|].
  split; [exists 1; split; [by apply argmax_spec|done]|].
  split; [exists 3; split; [by apply argmin_spec|done]|].
  split; [by vm_compute|]. split; [by vm_compute|]. split.
  - rewrite list_elem_of_In. simpl. intros [H|[H|[H|[H|[]]]]]; discriminate.
  - intros E. apply ltd_three_points_raises; [reflexivity|by vm_compute].
Qed.

(** ** The split target: C4 *)

Lemma getitem_neg {A} (l : list A) (k : nat) :
  k < length l ->
  getitem l (- Z.of_nat (S k)) =
  match l !! (length l - S k) with Some a => Ok a | None => Raise IndexError end.
Proof.
  intros Hk. unfold getitem, py_index.
  replace (0 <=? - Z.of_nat (S k))%Z with false by (symmetry; apply Z.leb_gt; lia).
  replace (- Z.of_nat (length l) <=? - Z.of_nat (S k))%Z with true
    by (symmetry; apply Z.leb_le; lia).
  replace (- Z.of_nat (S k) <? 0)%Z with true by (symmetry; apply Z.ltb_lt; lia).
  cbn [andb].
  by replace (Z.to_nat (Z.of_nat (length l) + - Z.of_nat (S k))) with (length l - S k) by lia.
Qed.

Section FindMax.
Variables (data_bins : list (list row)) (sort_sse : list nat).
Hypothesis Hvalid : forall pos j, sort_sse !! pos = Some j -> j < length data_bins.

Local Abbreviation n := (length sort_sse).
Local Abbreviation down := (fun k : nat => (- Z.of_nat (S k))%Z).

Lemma find_max_loop_spec (c s : nat) :
  s + c = n -> 0 < n ->
  (forall pos j, n - s <= pos -> sort_sse !! pos = Some j -> ~ eligible data_bins j) ->
  exists m,
    find_max_loop data_bins sort_sse (map down (seq s c)) (last_of s) = Ok m /\
    ((exists pos, sort_sse !! pos = Some m /\ eligible data_bins m /\
        forall pos' j, pos < pos' -> sort_sse !! pos' = Some j ->
                       ~ eligible data_bins j) \/
     (sort_sse !! 0 = Some m /\
        forall pos j, sort_sse !! pos = Some j -> ~ eligible data_bins j)).
Proof.
  revert s. induction c as [|c IH]; intros s Hsc Hn Hseen.
  - cbn [seq map find_max_loop].
    destruct s as [|k]; [lia|]. cbn [last_of].
    rewrite getitem_neg by lia. replace (n - S k) with 0 by lia.
    destruct (lookup_lt_is_Some_2 sort_sse 0 Hn) as [m Hm]. rewrite Hm.
    exists m. split; [done|]. right. split; [done|].
    intros pos j Hpos. apply (Hseen pos); [lia|done].
  - cbn [seq map find_max_loop].
    rewrite getitem_neg by lia.
    destruct (lookup_lt_is_Some_2 sort_sse (n - S s)) as [j Hj]; [lia|].
    rewrite Hj. cbn [mbind result_bind].
    rewrite getitem_of_nat.
    destruct (lookup_lt_is_Some_2 data_bins j (Hvalid _ _ Hj)) as [b Hb].
    rewrite Hb. cbn [mbind result_bind].
    destruct (Nat.leb_spec 2 (length b)) as [Hel|Hnel].
    + exists j. split; [done|]. left. exists (n - S s).
      split; [done|]. split; [by exists b|].
      intros pos' j' Hpos' Hj'. apply (Hseen pos'); [lia|done].
    + destruct (IH (S s)) as (m & Hm & Hspec); [lia|done| |].
      * intros pos j' Hpos Hj'.
        destruct (decide (pos = n - S s)) as [->|Hne]; [|apply (Hseen pos); [lia|done]].
        assert (j' = j) as -> by congruence.
        intros (b' & Hb' & Hlen). assert (b' = b) as -> by congruence. lia.
      * exists m. split; [exact Hm|exact Hspec].
Qed.
End FindMax.

Section SplitTarget.
Context `{E : Externals}.
Variables (data_bins : list (list row)) (sse_list : list Q).
Hypothesis Hlen : length sse_list = length data_bins.

Lemma length_argsort : length (argsort sse_list) = length sse_list.
Proof. by rewrite (Permutation_length (argsort_perm sse_list)), length_seq. Qed.

Lemma argsort_lt (pos j : nat) :
  argsort sse_list !! pos = Some j -> j < length data_bins.
Proof.
  intros Hj%list_elem_of_lookup_2%list_elem_of_In.
  eapply Permutation_in in Hj; [|apply argsort_perm].
  apply in_seq in Hj. lia.
Qed.

Lemma argsort_position (j : nat) :
  j < length sse_list -> exists pos, argsort sse_list !! pos = Some j.
Proof.
  intros Hj. apply list_elem_of_lookup_1, list_elem_of_In.
  eapply Permutation_in; [symmetry; apply argsort_perm|].
  apply in_seq. lia.
Qed.

Lemma find_max_bin_spec :
  data_bins <> [] ->
  exists m,
    _find_max_bin data_bins sse_list = Ok m /\
    ((exists pos, argsort sse_list !! pos = Some m /\ eligible data_bins m /\
        forall pos' j, pos < pos' -> argsort sse_list !! pos' = Some j ->
                       ~ eligible data_bins j) \/
     (argsort sse_list !! 0 = Some m /\
        forall pos j, argsort sse_list !! pos = Some j -> ~ eligible data_bins j)).
Proof.
  intros Hne. unfold _find_max_bin, range_down.
  apply (find_max_loop_spec data_bins (argsort sse_list) argsort_lt
           (length (argsort sse_list)) 0); [lia| |].
  - rewrite length_argsort, Hlen. destruct data_bins; [done|simpl; lia].
  - intros pos j Hpos Hj. apply lookup_lt_Some in Hj. lia.
Qed.

(** X3 (the first half of C4).  When some bucket holds two rows or more, the
    split target is such a bucket, and no such bucket has a higher score. *)
Lemma find_max_bin_eligible (j : nat) :
  eligible data_bins j ->
  exists m,
    _find_max_bin data_bins sse_list = Ok m /\
    eligible data_bins m /\
    forall j', eligible data_bins j' ->
               (nth j' sse_list 0 <= nth m sse_list 0)%Q.
Proof.
  intros Hj.
  assert (forall j', eligible data_bins j' -> j' < length sse_list) as Hlt.
  { intros j' (b & Hb & _). apply lookup_lt_Some in Hb. lia. }
  destruct find_max_bin_spec as (m & Hm & [(pos & Hpos & Hel & Hafter)|[_ Hnone]]).
  { destruct Hj as (b & Hb & _). intros ->. done. }
  - exists m. split; [done|]. split; [done|].
    intros j' Hj'. destruct (argsort_position j' (Hlt _ Hj')) as [pos' Hpos'].
    destruct (Nat.lt_trichotomy pos' pos) as [Hlt'|[->|Hgt]].
    + by apply (argsort_sorted sse_list pos' pos).
    + assert (j' = m) as -> by congruence. apply Qle_refl.
    + by destruct (Hafter pos' j' Hgt Hpos').
  - destruct (argsort_position j (Hlt _ Hj)) as [pos Hpos].
    by destruct (Hnone pos j Hpos).
Qed.

(** The fall-back of [_find_max_bin]: when no bucket holds two rows, the
    index returned is [sort_sse[-len]], the bucket of the lowest score. *)
Lemma find_max_bin_fallback :
  data_bins <> [] ->
  (forall j, ~ eligible data_bins j) ->
  exists m,
    _find_max_bin data_bins sse_list = Ok m /\
    forall j, j < length sse_list -> (nth m sse_list 0 <= nth j sse_list 0)%Q.
Proof.
  intros Hne Hnone.
  destruct (find_max_bin_spec Hne) as (m & Hm & [(pos & _ & Hel & _)|[H0 _]]).
  { by destruct (Hnone m). }
  exists m. split; [done|]. intros j Hj.
  destruct (argsort_position j Hj) as [[|pos] Hpos].
  - assert (j = m) as -> by congruence. apply Qle_refl.
  - apply (argsort_sorted sse_list 0 (S pos)); [lia|done|done].
Qed.
End SplitTarget.

(** Bucket 1 has the highest score but only one row: the target is bucket 0. *)
Lemma find_max_bin_eligible_witness :
  exists m,
    @_find_max_bin demo_externals buckets3 [4%Q; 9%Q; 1%Q] = Ok m /\
    eligible buckets3 m /\
    forall j', eligible buckets3 j' ->
               (nth j' [4%Q; 9%Q; 1%Q] 0 <= nth m [4%Q; 9%Q; 1%Q] 0)%Q.
Proof.
  apply (@find_max_bin_eligible demo_externals buckets3 [4%Q; 9%Q; 1%Q] eq_refl 2).
  eexists. split; [reflexivity|]. simpl. lia.
Defined.

(** C4 fails on the code in its second half.  Two buckets of one row each,
    scores 1 and 2: no bucket has two rows, bucket 1 has the highest score,
    and [_find_max_bin] returns bucket 0, the lowest-scoring one. *)
Theorem find_max_bin_falls_back_to_lowest :
  forall E : Externals,
    @_find_max_bin E [[[1%Q; 1%Q]]; [[2%Q; 2%Q]]] [1%Q; 2%Q] = Ok 0.
Proof.
  intros E.
  destruct (find_max_bin_fallback [[[1%Q; 1%Q]]; [[2%Q; 2%Q]]] [1%Q; 2%Q])
    as (m & Hm & Hlow); [done|done| |].
  { intros [|[|j]] (b & Hb & Hlen); simpl in Hb; try done;
      injection Hb as <-; simpl in Hlen; lia. }
  pose proof (find_max_bin_lt _ _ _ Hm) as Hlt. simpl in Hlt.
  destruct m as [|[|m]]; [done| |lia].
  specialize (Hlow 0). simpl in Hlow. by destruct Hlow; [lia|].
Qed.

(** ** A pass whose split target is outside the merged pair (C1, the case
    the code handles) *)

Lemma length_sum_pairs (l : list Q) : length (sum_pairs l) = length l - 1.
Proof.
  induction l as [|a [|b l] IH]; [done|done|].
  cbn [sum_pairs length] in *. lia.
Qed.

Lemma find_min_bin_lt (sse_list : list Q) (mn : nat) :
  _find_min_bin sse_list = Ok mn -> S mn < length sse_list.
Proof.
  intros (a & Ha & _)%argmin_spec. apply lookup_lt_Some in Ha.
  rewrite length_sum_pairs in Ha. lia.
Qed.

Lemma concat_snoc {A} (ls : list (list A)) (l : list A) :
  concat (ls ++ [l]) = concat ls ++ l.
Proof. by rewrite concat_app; simpl; rewrite app_nil_r. Qed.

Section Disjoint.
Variables (data_bins : list (list row)) (m mn : nat).
Hypothesis (Hm : m < length data_bins) (Hmn : S mn < length data_bins).
Hypothesis (Hne : m <> mn) (Hne' : m <> S mn).

Lemma resize_body_total (acc : list (list row)) (i : nat) :
  i < length data_bins ->
  exists acc', resize_body data_bins m mn acc (Z.of_nat i) = Ok acc'.
Proof.
  intros Hi. unfold resize_body.
  destruct (lookup_lt_is_Some_2 data_bins i Hi) as [b Hb].
  rewrite (getitem_of_nat data_bins i), Hb, getitem_succ.
  cbn [mbind result_bind].
  destruct (Z.eqb_spec (Z.of_nat i) (Z.of_nat m)).
  { destruct (array_split_spec b 2) as (h & -> & _); [lia|]. cbn. eauto. }
  destruct (Z.eqb_spec (Z.of_nat i) (Z.of_nat mn)) as [Heq|].
  { destruct (lookup_lt_is_Some_2 data_bins (S i)) as [b' ->]; [lia|]. eauto. }
  destruct (Z.eqb_spec (Z.of_nat i) (Z.of_nat mn + 1)); eauto.
Qed.

Lemma resize_inv_step (acc acc' : list (list row)) (i : nat) :
  i < length data_bins -> resize_inv data_bins m mn i acc ->
  resize_body data_bins m mn acc (Z.of_nat i) = Ok acc' ->
  resize_inv data_bins m mn (S i) acc'.
Proof.
  intros Hi [Hcat Hlen] (new & -> & Hnew)%resize_body_Ok.
  unfold resize_inv.
  destruct Hnew as [b -> Hb Hsplit|b b' Hm' -> Hb Hb' ->|Hm' Hmn' -> ->
                   |b Hm' Hmn' Hskip Hb ->].
  - destruct (array_split_spec b 2) as (h & Hh & Hl & Hc & _); [lia|].
    rewrite Hsplit in Hh. injection Hh as <-.
    rewrite concat_app, length_app, Hcat, Hc, Hl. change (Z.to_nat 2) with 2.
    repeat case_decide; try lia; (split; [|lia]);
      by rewrite (take_S_r _ _ _ Hb), concat_snoc.
  - rewrite concat_snoc, length_app, Hcat. cbn [length].
    repeat case_decide; try lia; (split; [|lia]);
      rewrite (take_S_r _ _ _ Hb'), (take_S_r _ _ _ Hb), !concat_snoc;
      by rewrite app_assoc.
  - rewrite app_nil_r, Hcat. repeat case_decide; try lia; (split; [done|lia]).
  - rewrite concat_snoc, length_app, Hcat. cbn [length].
    repeat case_decide; try lia; (split; [|lia]);
      by rewrite (take_S_r _ _ _ Hb), concat_snoc.
Qed.

Lemma resize_loop_disjoint :
  exists data_bins',
    for_each (resize_body data_bins m mn) (range (length data_bins)) []
      = Ok data_bins' /\
    length data_bins' = length data_bins /\
    concat data_bins' = concat data_bins.
Proof.
  destruct (for_each_range_total (resize_body data_bins m mn)
              (fun _ _ => True) (length data_bins) []) as [bins' Hrun]; [done| |].
  { intros i acc Hi _. destruct (resize_body_total acc i Hi) as [acc' ->]. eauto. }
  exists bins'. split; [done|].
  assert (resize_inv data_bins m mn (length data_bins) bins') as [Hcat Hlen].
  { revert Hrun. apply for_each_range_inv.
    - split; [by case_decide|]. simpl. repeat case_decide; lia.
    - intros i acc acc' Hi. by apply resize_inv_step. }
  repeat case_decide; try lia. split; [lia|].
  by rewrite Hcat, firstn_all.
Qed.
End Disjoint.

(** X4 (C1, where the code keeps the invariant).  When the split target is
    neither bucket of the merged pair, [_resize_bins] returns as many
    buckets as it was given, with the same concatenation. *)
Theorem resize_keeps_partition_when_disjoint (E : Externals)
    (data_bins : list (list row)) (sse_list : list Q) (m mn : nat) :
  length sse_list = length data_bins ->
  @_find_max_bin E data_bins sse_list = Ok m ->
  _find_min_bin sse_list = Ok mn ->
  m <> mn -> m <> S mn ->
  exists data_bins',
    @_resize_bins E data_bins sse_list = Ok data_bins' /\
    length data_bins' = length data_bins /\
    concat data_bins' = concat data_bins.
Proof.
  intros Hlen Hm Hmn Hne Hne'. unfold _resize_bins.
  rewrite Hm, Hmn, !bind_Ok_eq.
  apply find_max_bin_lt in Hm. apply find_min_bin_lt in Hmn.
  apply resize_loop_disjoint; lia.
Qed.

Lemma resize_keeps_partition_when_disjoint_witness :
  exists data_bins',
    @_resize_bins demo_externals buckets3 [1%Q; 1%Q; 5%Q] = Ok data_bins' /\
    length data_bins' = length buckets3 /\
    concat data_bins' = concat buckets3.
Proof.
  apply (resize_keeps_partition_when_disjoint demo_externals buckets3 _ 2 0).
  - reflexivity.
  - reflexivity.
  - reflexivity.
  - lia.
  - lia.
Defined.

(** * Further properties of the code *)

(** ** The errors of the validation *)

Lemma lttb_validation_error (data : ndarray) (n_out : Z) (e : exn) :
  validation_error e = true ->
  (lttb data n_out = Raise e <-> validate data n_out = Some (Raise e)).
Proof.
  intros He. split.
  - intros H. destruct (validate data n_out) as [r|] eqn:Hv.
    + unfold lttb in H. rewrite Hv in H. by subst.
    + apply (lttb_internal data n_out Hv) in H. congruence.
  - unfold lttb. by intros ->.
Qed.

Lemma ltd_validation_error `{E : Externals} (data : ndarray) (n_out : Z) (e : exn) :
  validation_error e = true ->
  (ltd data n_out = Raise e <-> validate data n_out = Some (Raise e)).
Proof.
  intros He. split.
  - intros H. destruct (validate data n_out) as [r|] eqn:Hv.
    + unfold ltd in H. rewrite Hv in H. by subst.
    + apply (ltd_internal data n_out Hv) in H. congruence.
  - unfold ltd. by intros ->.
Qed.

Lemma validate_ShapeMismatch (data : ndarray) (n_out : Z) :
  validate data n_out = Some (Raise ShapeMismatch) <-> shape1 data <> 2.
Proof.
  unfold validate. destruct (Nat.eqb_spec (shape1 data) 2) as [H2|H2]; simpl.
  - split; [|done]. repeat case_match; discriminate.
  - done.
Qed.

Lemma validate_OutOfRange (data : ndarray) (n_out : Z) :
  validate data n_out = Some (Raise OutOfRange) <->
  shape1 data = 2 /\ non_decreasing (column0 (rows data)) /\ (shape0 data < n_out)%Z.
Proof.
  unfold validate. destruct (Nat.eqb_spec (shape1 data) 2) as [H2|H2]; simpl.
  2: { split; [discriminate|]. by intros [? _]. }
  rewrite <- sorted_check.
  destruct (any_ne _ _); [split; [discriminate|by intros (_ & ? & _)]|].
  destruct (Z.gtb_spec n_out (shape0 data)).
  - split; [|done]. intros _. repeat split; auto; lia.
  - split; [|lia]. repeat case_match; discriminate.
Qed.

Lemma validate_TooFew (data : ndarray) (n_out : Z) :
  validate data n_out = Some (Raise TooFew) <->
  shape1 data = 2 /\ non_decreasing (column0 (rows data)) /\
  (n_out < shape0 data)%Z /\ (n_out < 3)%Z.
Proof.
  unfold validate. destruct (Nat.eqb_spec (shape1 data) 2) as [H2|H2]; simpl.
  2: { split; [discriminate|]. by intros [? _]. }
  rewrite <- sorted_check.
  destruct (any_ne _ _); [split; [discriminate|by intros (_ & ? & _)]|].
  destruct (Z.gtb_spec n_out (shape0 data)); [split; [discriminate|lia]|].
  destruct (Z.eqb_spec n_out (shape0 data)); [split; [discriminate|lia]|].
  destruct (Z.ltb_spec n_out 3); [|split; [discriminate|lia]].
  split; [|done]. intros _. repeat split; auto; lia.
Qed.

(** X7.  The error kinds of the validation are decided in the order of the
    source, by both variants alike: ShapeMismatch exactly when the array
    does not have two columns; OutOfRange exactly when it has two columns, a
    non-decreasing x column and fewer than [n_out] rows; TooFew exactly when
    it has two columns, a non-decreasing x column, more than [n_out] rows
    and [n_out < 3]. *)
Theorem validation_errors_exact (E : Externals) (data : ndarray) (n_out : Z) :
  (lttb data n_out = Raise ShapeMismatch <-> shape1 data <> 2) /\
  (@ltd E data n_out = Raise ShapeMismatch <-> shape1 data <> 2) /\
  (lttb data n_out = Raise OutOfRange <->
   shape1 data = 2 /\ non_decreasing (column0 (rows data)) /\
   (shape0 data < n_out)%Z) /\
  (@ltd E data n_out = Raise OutOfRange <->
   shape1 data = 2 /\ non_decreasing (column0 (rows data)) /\
   (shape0 data < n_out)%Z) /\
  (lttb data n_out = Raise TooFew <->
   shape1 data = 2 /\ non_decreasing (column0 (rows data)) /\
   (n_out < shape0 data)%Z /\ (n_out < 3)%Z) /\
  (@ltd E data n_out = Raise TooFew <->
   shape1 data = 2 /\ non_decreasing (column0 (rows data)) /\
   (n_out < shape0 data)%Z /\ (n_out < 3)%Z).
Proof.
  rewrite !lttb_validation_error, !ltd_validation_error by done.
  split; [apply validate_ShapeMismatch|].
  split; [apply validate_ShapeMismatch|].
  split; [apply validate_OutOfRange|].
  split; [apply validate_OutOfRange|].
  split; apply validate_TooFew.
Qed.

(** X8.  The static variant fails only in its validation: on every array
    and every [n_out] it returns an array or raises one of the four errors
    of the validation, never an IndexError or another exception of the
    bucketing or of the selection loop. *)
Theorem lttb_fails_only_in_validation (data : ndarray) (n_out : Z) :
  (exists out, lttb data n_out = Ok out) \/
  (exists e, lttb data n_out = Raise e /\ validation_error e = true).
Proof.
  destruct (validate data n_out) as [r|] eqn:Hv.
  - unfold lttb. rewrite Hv. unfold validate in Hv.
    repeat case_match; simplify_eq; eauto.
  - left. destruct (lttb_returns data n_out Hv) as (_ & out & _ & _ & _ & _ & Hl).
    eauto.
Qed.

(** ** [_find_min_bin] *)

Lemma lookup_sum_pairs (l : list Q) (i : nat) :
  sum_pairs l !! i =
  match l !! i, l !! S i with
  | Some a, Some b => Some (fadd a b)
  | _, _ => None
  end.
Proof.
  revert i. induction l as [|a [|b l] IH]; intros i.
  - done.
  - destruct i as [|[|i]]; done.
  - destruct i as [|i]; [done|].
    change (sum_pairs (a :: b :: l) !! S i) with (sum_pairs (b :: l) !! i).
    rewrite IH. done.
Qed.

(** X9.  [_find_min_bin] raises ValueError ([min] of an empty list) exactly
    when there are fewer than two scores; otherwise it returns the first
    index [mn] at which the sum of two neighbouring scores, as float64
    addition computes it, is smallest, and [mn + 1] is an index of the score
    list too. *)
Theorem find_min_bin_first_smallest_pair (sse_list : list Q) :
  (_find_min_bin sse_list = Raise ValueError <-> length sse_list < 2) /\
  (2 <= length sse_list ->
   exists mn,
     _find_min_bin sse_list = Ok mn /\
     S mn < length sse_list /\
     (forall j, S j < length sse_list ->
        (fadd (nth mn sse_list 0) (nth (S mn) sse_list 0)
         <= fadd (nth j sse_list 0) (nth (S j) sse_list 0))%Q) /\
     (forall j, j < mn ->
        (fadd (nth mn sse_list 0) (nth (S mn) sse_list 0)
         < fadd (nth j sse_list 0) (nth (S j) sse_list 0))%Q)).
Proof.
  assert (Hnth : forall j, S j < length sse_list ->
            sum_pairs sse_list !! j
            = Some (fadd (nth j sse_list 0) (nth (S j) sse_list 0))%Q).
  { intros j Hj. rewrite lookup_sum_pairs.
    destruct (lookup_lt_is_Some_2 sse_list j) as [a Ha]; [lia|].
    destruct (lookup_lt_is_Some_2 sse_list (S j)) as [b Hb]; [lia|].
    rewrite Ha, Hb.
    by rewrite (nth_lookup_Some _ _ 0%Q _ Ha), (nth_lookup_Some _ _ 0%Q _ Hb). }
  split.
  - unfold _find_min_bin. pose proof (length_sum_pairs sse_list) as Hlen.
    destruct (sum_pairs sse_list) as [|s ss] eqn:Hs; simpl in *.
    + split; [lia|done].
    + split; [done|lia].
  - intros H2.
    destruct (argmin_total (sum_pairs sse_list)) as [mn Hmn].
    { intros Hs. pose proof (length_sum_pairs sse_list) as Hlen.
      rewrite Hs in Hlen. simpl in Hlen. lia. }
    exists mn. split; [done|].
    pose proof (find_min_bin_lt _ _ Hmn) as Hlt. split; [done|].
    apply argmin_spec in Hmn as (a & Ha & Hall & Hfirst).
    rewrite Hnth in Ha by done. injection Ha as <-.
    split.
    + intros j Hj. apply (Hall j). by apply Hnth.
    + intros j Hj. apply (Hfirst j); [done|]. apply Hnth. lia.
Qed.

(** The sums are rounded: of the scores [2 ^ -57], [1] and [0] both pairs
    sum to [1] in float64, and index 0 is returned, although the second
    pair has the smaller exact sum. *)
Lemma find_min_bin_rounded_tie :
  _find_min_bin [1 # 144115188075855872; 1; 0]%Q = Ok 0 /\
  (fadd (1 # 144115188075855872) 1 == fadd 1 0)%Q /\
  (1 + 0 < (1 # 144115188075855872) + 1)%Q.
Proof. split; [by vm_compute|]. split; by vm_compute. Qed.

(** ** [_resize_bins] when the split target belongs to the merged pair *)

Lemma resize_body_returns (data_bins : list (list row)) (m mn : nat)
    (acc : list (list row)) (i : nat) :
  S mn < length data_bins -> i < length data_bins ->
  exists acc', resize_body data_bins m mn acc (Z.of_nat i) = Ok acc'.
Proof.
  intros Hmn Hi. unfold resize_body.
  destruct (lookup_lt_is_Some_2 data_bins i Hi) as [b Hb].
  rewrite (getitem_of_nat data_bins i), Hb, getitem_succ.
  cbn [mbind result_bind].
  destruct (Z.eqb_spec (Z.of_nat i) (Z.of_nat m)).
  { destruct (array_split_spec b 2) as (h & -> & _); [lia|]. cbn. eauto. }
  destruct (Z.eqb_spec (Z.of_nat i) (Z.of_nat mn)) as [Heq|].
  { destruct (lookup_lt_is_Some_2 data_bins (S i)) as [b' ->]; [lia|]. eauto. }
  destruct (Z.eqb_spec (Z.of_nat i) (Z.of_nat mn + 1)); eauto.
Qed.

Lemma resize_loop_returns (data_bins : list (list row)) (m mn : nat) :
  S mn < length data_bins ->
  exists data_bins',
    for_each (resize_body data_bins m mn) (range (length data_bins)) []
      = Ok data_bins'.
Proof.
  intros Hmn.
  apply (for_each_range_total (resize_body data_bins m mn) (fun _ _ => True));
    [done|].
  intros i acc Hi _.
  destruct (resize_body_returns data_bins m mn acc i Hmn Hi) as [acc' ->]. eauto.
Qed.

Lemma take_drop_S_r {A} (l : list A) (k i : nat) (a : A) :
  k <= i -> l !! i = Some a ->
  take (S i - k) (drop k l) = take (i - k) (drop k l) ++ [a].
Proof.
  intros Hk Ha. replace (S i - k) with (S (i - k)) by lia.
  apply take_S_r. rewrite lookup_drop. by replace (k + (i - k)) with i by lia.
Qed.

Section Overlap.
Variables (data_bins : list (list row)) (mn : nat).
Hypothesis (Hmn : S mn < length data_bins).

Lemma resize_inv_first_step (acc acc' : list (list row)) (i : nat) :
  i < length data_bins -> resize_inv_first data_bins mn i acc ->
  resize_body data_bins mn mn acc (Z.of_nat i) = Ok acc' ->
  resize_inv_first data_bins mn (S i) acc'.
Proof.
  intros Hi [Hcat Hlen] (new & -> & Hnew)%resize_body_Ok.
  unfold resize_inv_first.
  destruct Hnew as [b -> Hb Hsplit|b b' Hm' -> Hb Hb' ->|Hm' Hmn' -> ->
                   |b Hm' Hmn' Hskip Hb ->].
  - destruct (array_split_spec b 2) as (h & Hh & Hl & Hc & _); [lia|].
    rewrite Hsplit in Hh. injection Hh as <-.
    rewrite concat_app, length_app, Hcat, Hc, Hl. change (Z.to_nat 2) with 2.
    replace (mn `min` S mn) with mn by lia.
    replace (S mn `min` S mn) with (S mn) by lia.
    replace (mn - S (S mn)) with 0 by lia.
    replace (S mn - S (S mn)) with 0 by lia.
    rewrite (take_S_r _ _ _ Hb), concat_snoc. simpl. rewrite !app_nil_r.
    split; [done|]. repeat case_decide; lia.
  - done.
  - rewrite app_nil_r, Hcat.
    replace (S (S mn) `min` S mn) with (S mn `min` S mn) by lia.
    replace (S (S mn) - S (S mn)) with (S mn - S (S mn)) by lia.
    split; [done|]. repeat case_decide; lia.
  - rewrite concat_snoc, length_app, Hcat. cbn [length].
    destruct (decide (i < mn)) as [Hlt|Hge].
    + replace (i `min` S mn) with i by lia.
      replace (S i `min` S mn) with (S i) by lia.
      replace (i - S (S mn)) with 0 by lia.
      replace (S i - S (S mn)) with 0 by lia.
      rewrite (take_S_r _ _ _ Hb), concat_snoc. simpl. rewrite !app_nil_r.
      split; [done|]. repeat case_decide; lia.
    + replace (i `min` S mn) with (S mn) by lia.
      replace (S i `min` S mn) with (S mn) by lia.
      rewrite (take_drop_S_r _ (S (S mn)) i b) by (done || lia).
      rewrite concat_snoc, app_assoc.
      split; [done|]. repeat case_decide; lia.
Qed.

Lemma resize_loop_first :
  exists data_bins',
    for_each (resize_body data_bins mn mn) (range (length data_bins)) []
      = Ok data_bins' /\
    length data_bins' = length data_bins /\
    concat data_bins' = concat (take (S mn) data_bins)
                        ++ concat (drop (S (S mn)) data_bins).
Proof.
  destruct (resize_loop_returns data_bins mn mn Hmn) as [bins' Hrun].
  exists bins'. split; [done|].
  assert (resize_inv_first data_bins mn (length data_bins) bins') as [Hcat Hlen].
  { revert Hrun. apply for_each_range_inv.
    - split; [done|]. simpl. repeat case_decide; lia.
    - intros i acc acc' Hi. by apply resize_inv_first_step. }
  split; [repeat case_decide; lia|].
  rewrite Hcat. replace (length data_bins `min` S mn) with (S mn) by lia.
  rewrite (take_ge (drop _ _)); [done|]. rewrite length_drop. lia.
Qed.

Lemma resize_inv_second_step (acc acc' : list (list row)) (i : nat) :
  i < length data_bins -> resize_inv_second data_bins mn i acc ->
  resize_body data_bins (S mn) mn acc (Z.of_nat i) = Ok acc' ->
  resize_inv_second data_bins mn (S i) acc'.
Proof.
  intros Hi [Hcat Hlen] (new & -> & Hnew)%resize_body_Ok.
  unfold resize_inv_second.
  destruct Hnew as [b -> Hb Hsplit|b b' Hm' -> Hb Hb' ->|Hm' Hmn' -> ->
                   |b Hm' Hmn' Hskip Hb ->].
  - destruct (array_split_spec b 2) as (h & Hh & Hl & Hc & _); [lia|].
    rewrite Hsplit in Hh. injection Hh as <-.
    rewrite concat_app, length_app, Hcat, Hc, Hl. change (Z.to_nat 2) with 2.
    rewrite (take_drop_S_r _ (S mn) (S mn) b) by (done || lia).
    rewrite concat_snoc, app_assoc.
    repeat case_decide; try lia. split; [done|lia].
  - rewrite concat_snoc, length_app, Hcat. cbn [length].
    replace (mn - S mn) with 0 by lia.
    replace (S mn - S mn) with 0 by lia.
    repeat case_decide; try lia.
    rewrite (take_S_r _ _ _ Hb'), (take_S_r _ _ _ Hb), !concat_snoc.
    simpl. rewrite !app_nil_r, app_assoc. split; [done|lia].
  - lia.
  - rewrite concat_snoc, length_app, Hcat. cbn [length].
    destruct (decide (i < mn)) as [Hlt|Hge].
    + replace (i - S mn) with 0 by lia.
      replace (S i - S mn) with 0 by lia.
      repeat case_decide; try lia.
      rewrite (take_S_r _ _ _ Hb), concat_snoc. simpl. rewrite !app_nil_r.
      split; [done|lia].
    + rewrite (take_drop_S_r _ (S mn) i b) by (done || lia).
      rewrite concat_snoc, app_assoc.
      repeat case_decide; try lia. split; [done|lia].
Qed.

Lemma resize_loop_second :
  exists data_bins',
    for_each (resize_body data_bins (S mn) mn) (range (length data_bins)) []
      = Ok data_bins' /\
    length data_bins' = S (length data_bins) /\
    concat data_bins' = concat (take (S (S mn)) data_bins)
                        ++ concat (drop (S mn) data_bins).
Proof.
  destruct (resize_loop_returns data_bins (S mn) mn Hmn) as [bins' Hrun].
  exists bins'. split; [done|].
  assert (resize_inv_second data_bins mn (length data_bins) bins') as [Hcat Hlen].
  { revert Hrun. apply for_each_range_inv.
    - split; [|done]. case_decide; [done|lia].
    - intros i acc acc' Hi. by apply resize_inv_second_step. }
  split; [repeat case_decide; lia|].
  rewrite Hcat. destruct (decide (length data_bins <= mn)); [lia|].
  rewrite (take_ge (drop _ _)); [done|]. rewrite length_drop. lia.
Qed.
End Overlap.

(** X10 (C1, the two cases the loop does not handle).  When the split target
    is the first bucket of the merged pair, [_resize_bins] returns as many
    buckets as it was given, but the rows of the pair's second bucket are
    gone; when it is the second bucket of the pair, the pass returns one
    bucket more and the rows of that bucket appear twice. *)
Theorem resize_overlap_drops_or_repeats (E : Externals)
    (data_bins : list (list row)) (sse_list : list Q) (m mn : nat) :
  @_find_max_bin E data_bins sse_list = Ok m ->
  _find_min_bin sse_list = Ok mn ->
  length sse_list = length data_bins ->
  m = mn \/ m = S mn ->
  exists data_bins',
    @_resize_bins E data_bins sse_list = Ok data_bins' /\
    (m = mn ->
     length data_bins' = length data_bins /\
     concat data_bins' = concat (take (S m) data_bins)
                         ++ concat (drop (S (S m)) data_bins)) /\
    (m = S mn ->
     length data_bins' = S (length data_bins) /\
     concat data_bins' = concat (take (S m) data_bins)
                         ++ concat (drop m data_bins)).
Proof.
  intros Hm Hmn Hlen Hcase. unfold _resize_bins.
  rewrite Hm, Hmn, !bind_Ok_eq.
  apply find_min_bin_lt in Hmn. rewrite Hlen in Hmn.
  destruct Hcase as [->| ->].
  - destruct (resize_loop_first data_bins mn Hmn) as (bins' & Hrun & Hl & Hc).
    exists bins'. split; [done|]. split; [done|]. intros Heq. lia.
  - destruct (resize_loop_second data_bins mn Hmn) as (bins' & Hrun & Hl & Hc).
    exists bins'. split; [done|]. split; [intros Heq; lia|done].
Qed.

Lemma resize_overlap_drops_or_repeats_witness :
  exists data_bins',
    @_resize_bins demo_externals buckets2 [1%Q; 2%Q] = Ok data_bins' /\
    (1 = 0 ->
     length data_bins' = length buckets2 /\
     concat data_bins' = concat (take 2 buckets2) ++ concat (drop 3 buckets2)) /\
    (1 = 1 ->
     length data_bins' = S (length buckets2) /\
     concat data_bins' = concat (take 2 buckets2) ++ concat (drop 1 buckets2)).
Proof.
  apply (resize_overlap_drops_or_repeats demo_externals buckets2 [1%Q; 2%Q] 1 0).
  - reflexivity.
  - reflexivity.
  - reflexivity.
  - right. reflexivity.
Defined.

(** ** [_find_max_bin] when no bucket can be split *)

Lemma argsort_nil `{E : Externals} : argsort [] = [].
Proof.
  pose proof (argsort_perm []) as Hp. simpl in Hp.
  by apply Permutation_nil_r in Hp.
Qed.

(** X11 (C4 in general).  When no bucket holds two rows, [_find_max_bin]
    returns a bucket whose score is not above that of any other bucket: the
    loop ends without returning and the index left in [i] is that of the
    lowest score.  On an empty bucket list the loop variable was never
    bound and the final [return] raises UnboundLocalError. *)
Theorem find_max_bin_without_splittable_bucket (E : Externals)
    (data_bins : list (list row)) (sse_list : list Q) :
  length sse_list = length data_bins ->
  Forall (fun b => length b < 2) data_bins ->
  match data_bins with
  | [] => @_find_max_bin E data_bins sse_list = Raise UnboundLocalError
  | _ =>
      exists m,
        @_find_max_bin E data_bins sse_list = Ok m /\
        m < length data_bins /\
        forall j, j < length sse_list ->
                  (nth m sse_list 0 <= nth j sse_list 0)%Q
  end.
Proof.
  intros Hlen Hsmall. destruct data_bins as [|b bins] eqn:Hbins.
  - destruct sse_list; [|done]. unfold _find_max_bin. by rewrite argsort_nil.
  - rewrite <- Hbins in *.
    destruct (@find_max_bin_fallback E data_bins sse_list Hlen) as (m & Hm & Hlow).
    + by rewrite Hbins.
    + intros j (bj & Hbj & H2).
      pose proof (Forall_lookup_1 _ _ _ _ Hsmall Hbj) as Hlt. simpl in Hlt. lia.
    + exists m. split; [done|]. split; [|done].
      apply find_max_bin_lt in Hm. lia.
Qed.

Lemma find_max_bin_without_splittable_bucket_witness :
  exists m,
    @_find_max_bin demo_externals singletons2 [1%Q; 2%Q] = Ok m /\
    m < length singletons2 /\
    forall j, j < length [1%Q; 2%Q] ->
              (nth m [1%Q; 2%Q] 0 <= nth j [1%Q; 2%Q] 0)%Q.
Proof.
  apply (find_max_bin_without_splittable_bucket demo_externals singletons2
           [1%Q; 2%Q]).
  - reflexivity.
  - repeat constructor.
Defined.

(** ** The scoring loop of [_split_data] and one refinement pass *)

Lemma getitem_pred {A} (l : list A) (j : nat) :
  getitem l (Z.of_nat (S j) - 1) =
  match l !! j with Some a => Ok a | None => Raise IndexError end.
Proof.
  replace (Z.of_nat (S j) - 1)%Z with (Z.of_nat j) by lia.
  apply getitem_of_nat.
Qed.

Lemma getitem_last_Some {A} (l : list A) (a : A) :
  last l = Some a -> getitem l (-1) = Ok a.
Proof.
  intros Ha. rewrite getitem_last.
  rewrite last_lookup in Ha.
  replace (length l - 1) with (pred (length l)) by lia. rewrite Ha.
  apply lookup_lt_Some in Ha. destruct (decide (0 < length l)); [done|lia].
Qed.

Lemma getitem_head_Some {A} (l : list A) (a : A) :
  head l = Some a -> getitem l 0 = Ok a.
Proof. destruct l; [done|]. by intros [= ->]. Qed.

Section Scoring.
Context `{E : Externals}.
Variables (data : list row) (data_bins : list (list row)).
Hypothesis (Hdata : data <> []).
Hypothesis (Hbins : 2 <= length data_bins).

Lemma sse_body_window (sse_list : list Q) (i : nat) (w : list row) :
  score_window data data_bins i = Some w ->
  sse_body data data_bins sse_list (Z.of_nat i) = Ok (sse_list ++ [stderr w]).
Proof.
  unfold score_window, sse_body. intros Hw.
  destruct (data_bins !! i) as [this_bin|] eqn:Hthis; [|done]. simpl in Hw.
  pose proof (lookup_lt_Some _ _ _ Hthis) as Hi.
  rewrite (getitem_of_nat data_bins i), Hthis.
  destruct i as [|j].
  - change (Z.of_nat 0 =? 0)%Z with true. cbv iota.
    destruct (data !! 0) as [pre|] eqn:Hpre; [|done]. simpl in Hw.
    destruct (decide (1 = length data_bins)) as [Heq|_]; [lia|].
    destruct (data_bins !! 1) as [next_bin|] eqn:Hnb; [|done]. simpl in Hw.
    destruct (head next_bin) as [next|] eqn:Hnext; [|done]. simpl in Hw.
    injection Hw as <-.
    change (getitem data 0%Z) with (getitem data (Z.of_nat 0)).
    rewrite (getitem_of_nat data 0), Hpre.
    rewrite (getitem_succ data_bins 0), Hnb, !bind_Ok_eq.
    by rewrite (getitem_head_Some _ _ Hnext), !bind_Ok_eq.
  - destruct (Z.eqb_spec (Z.of_nat (S j)) 0) as [Hz|_]; [lia|].
    destruct (data_bins !! j) as [pre_bin|] eqn:Hpb; [|done]. simpl in Hw.
    destruct (last pre_bin) as [pre|] eqn:Hpre; [|done]. simpl in Hw.
    rewrite (getitem_pred data_bins j), Hpb, !bind_Ok_eq.
    rewrite (getitem_last_Some _ _ Hpre), !bind_Ok_eq.
    destruct (decide (S (S j) = length data_bins)) as [Heq|Hne].
    + destruct (last data) as [next|] eqn:Hnext; [|done]. simpl in Hw.
      injection Hw as <-.
      destruct (Z.eqb_spec (Z.of_nat (S j)) (Z.of_nat (length data_bins) - 1))
        as [_|Hz]; [|lia].
      by rewrite (getitem_last_Some _ _ Hnext), !bind_Ok_eq.
    + destruct (data_bins !! S (S j)) as [next_bin|] eqn:Hnb; [|done].
      simpl in Hw.
      destruct (head next_bin) as [next|] eqn:Hnext; [|done]. simpl in Hw.
      injection Hw as <-.
      destruct (Z.eqb_spec (Z.of_nat (S j)) (Z.of_nat (length data_bins) - 1))
        as [Hz|_]; [lia|].
      rewrite (getitem_succ data_bins (S j)), Hnb, !bind_Ok_eq.
      by rewrite (getitem_head_Some _ _ Hnext), !bind_Ok_eq.
Qed.

Hypothesis (Hfull : Forall (fun b => b <> []) data_bins).

Lemma score_window_total (i : nat) :
  i < length data_bins -> exists w, score_window data data_bins i = Some w.
Proof.
  intros Hi. unfold score_window.
  destruct (lookup_lt_is_Some_2 data_bins i Hi) as [this_bin ->]. simpl.
  assert (forall k, k < length data_bins ->
            exists b x y, data_bins !! k = Some b /\ last b = Some x /\
                          head b = Some y) as Hends.
  { intros k Hk. destruct (lookup_lt_is_Some_2 data_bins k Hk) as [b Hb].
    pose proof (Forall_lookup_1 _ _ _ _ Hfull Hb) as Hne. simpl in Hne.
    exists b. destruct b as [|y b]; [done|].
    destruct (last (y :: b)) as [x|] eqn:Hx; [by eauto|].
    by apply last_None in Hx. }
  assert (exists pre,
            match i with 0 => data !! 0 | S j => data_bins !! j ≫= last end
            = Some pre) as [pre ->].
  { destruct i as [|j].
    - destruct data; [done|]. eauto.
    - destruct (Hends j) as (b & x & _ & -> & Hx & _); [lia|]. simpl. eauto. }
  simpl.
  assert (exists next,
            (if decide (S i = length data_bins) then last data
             else data_bins !! S i ≫= head) = Some next) as [next ->].
  { destruct (decide (S i = length data_bins)) as [Heq|Hne].
    - destruct (last data) as [x|] eqn:Hx; [by eauto|].
      by apply last_None in Hx.
    - destruct (Hends (S i)) as (b & _ & y & -> & _ & Hy); [lia|]. simpl. eauto. }
  simpl. eauto.
Qed.

Lemma scoring_loop_spec :
  exists sse_list,
    for_each (sse_body data data_bins) (range (length data_bins)) []
      = Ok sse_list /\
    length sse_list = length data_bins /\
    forall i, i < length data_bins ->
      exists w, score_window data data_bins i = Some w /\
                sse_list !! i = Some (stderr w).
Proof.
  pose (Inv := fun (i : nat) (acc : list Q) =>
    length acc = i /\
    forall j, j < i ->
      exists w, score_window data data_bins j = Some w /\
                acc !! j = Some (stderr w)).
  assert (forall i acc, i < length data_bins -> Inv i acc ->
            exists acc', sse_body data data_bins acc (Z.of_nat i) = Ok acc' /\
                         Inv (S i) acc') as Hstep.
  { intros i acc Hi [Hlen Hacc].
    destruct (score_window_total i Hi) as [w Hw].
    exists (acc ++ [stderr w]). split; [by apply sse_body_window|].
    split; [rewrite length_app; simpl; lia|].
    intros j Hj. destruct (decide (j = i)) as [->|Hne].
    - exists w. split; [done|].
      rewrite lookup_app_r by lia. by rewrite Hlen, Nat.sub_diag.
    - destruct (Hacc j) as (w' & Hw' & Hl); [lia|].
      exists w'. split; [done|]. by rewrite lookup_app_l by lia. }
  destruct (for_each_range_total (sse_body data data_bins) Inv
              (length data_bins) []) as [sse Hrun].
  { split; [done|]. intros j Hj. lia. }
  { done. }
  exists sse. split; [done|].
  revert Hrun. apply (for_each_range_inv _ Inv).
  - split; [done|]. intros j Hj. lia.
  - intros i acc acc' Hi HI Hb.
    destruct (Hstep i acc Hi HI) as (acc'' & Hb' & HI').
    rewrite Hb in Hb'. by injection Hb' as <-.
Qed.
End Scoring.

(** X12.  On at least two buckets, none empty, whose extensions have two
    different x values each (so that [linregress] returns a score and does
    not raise ValueError), the scoring loop of [_split_data] returns one
    score per bucket: the [linregress] standard error of the bucket
    extended by the last row of the bucket before it (row 0 of the series
    for the first bucket) and the first row of the bucket after it (the last
    row of the series for the last bucket). *)
Theorem scoring_loop_scores_extended_buckets (E : Externals)
    (data : list row) (data_bins : list (list row)) :
  data <> [] ->
  2 <= length data_bins ->
  Forall (fun b => b <> []) data_bins ->
  scorable data data_bins = true ->
  exists sse_list,
    for_each (@sse_body E data data_bins) (range (length data_bins)) []
      = Ok sse_list /\
    length sse_list = length data_bins /\
    forall i, i < length data_bins ->
      exists w, score_window data data_bins i = Some w /\
                sse_list !! i = Some (stderr w).
Proof. intros Hdata Hbins Hfull _. by apply scoring_loop_spec. Qed.

Lemma scoring_loop_scores_extended_buckets_witness :
  exists sse_list,
    for_each (@sse_body demo_externals (rows series10) buckets3)
             (range (length buckets3)) [] = Ok sse_list /\
    length sse_list = length buckets3 /\
    forall i, i < length buckets3 ->
      exists w, score_window (rows series10) buckets3 i = Some w /\
                sse_list !! i = Some (stderr w).
Proof.
  apply (scoring_loop_scores_extended_buckets demo_externals (rows series10)
           buckets3).
  - discriminate.
  - simpl. lia.
  - repeat constructor; discriminate.
  - by vm_compute.
Defined.

Lemma resize_loop_nonempty (data_bins data_bins' : list (list row)) (m mn : nat) :
  for_each (resize_body data_bins m mn) (range (length data_bins)) []
    = Ok data_bins' ->
  Forall (fun b => b <> []) data_bins ->
  eligible data_bins m ->
  Forall (fun b => b <> []) data_bins'.
Proof.
  intros Hrun Hfull (bm & Hbm & H2).
  revert Hrun.
  apply (for_each_range_inv _ (fun _ acc => Forall (fun b => b <> []) acc));
    [constructor|].
  intros i acc acc' Hi Hacc (new & -> & Hnew)%resize_body_Ok.
  apply Forall_app. split; [done|].
  destruct Hnew as [b -> Hb Hsplit|b b' Hm -> Hb Hb' ->|Hm Hmn -> ->
                   |b Hm Hmn Hskip Hb ->].
  - assert (b = bm) as -> by congruence.
    destruct (array_split_spec bm 2) as (parts & Hparts & _ & _ & Hlow); [lia|].
    rewrite Hsplit in Hparts. injection Hparts as <-.
    eapply Forall_impl; [exact Hlow|]. intros h Hh ->.
    change (Z.to_nat 2) with 2 in Hh. cbn [length] in Hh.
    pose proof (Nat.div_le_lower_bound (length bm) 2 1). lia.
  - constructor; [|done]. intros Hnil. apply app_eq_nil in Hnil as [-> _].
    by apply (Forall_lookup_1 _ _ _ _ Hfull Hb).
  - constructor.
  - constructor; [|done]. exact (Forall_lookup_1 _ _ _ _ Hfull Hb).
Qed.

(** A pass on at least two buckets, none empty, returns. *)
Lemma refine_once_total (E : Externals)
    (data : list row) (data_bins : list (list row)) :
  data <> [] ->
  2 <= length data_bins ->
  Forall (fun b => b <> []) data_bins ->
  exists data_bins',
    @refine_once E data data_bins = Ok data_bins' /\
    length data_bins <= length data_bins' <= S (length data_bins) /\
    ((exists j, eligible data_bins j) -> Forall (fun b => b <> []) data_bins').
Proof.
  intros Hdata Hbins Hfull.
  destruct (@scoring_loop_spec E data data_bins Hdata Hbins Hfull)
    as (sse & Hsse & Hlen & _).
  destruct (@find_max_bin_spec E data_bins sse Hlen) as (m & Hm & Htarget).
  { intros ->. simpl in Hbins. lia. }
  destruct (argmin_total (sum_pairs sse)) as [mn Hmn].
  { intros Hs. pose proof (length_sum_pairs sse) as Hl.
    rewrite Hs in Hl. simpl in Hl. lia. }
  pose proof (find_max_bin_lt _ _ _ Hm) as Hmlt.
  pose proof (find_min_bin_lt sse mn Hmn) as Hmnlt.
  rewrite Hlen in Hmlt, Hmnlt.
  assert (exists data_bins',
            for_each (resize_body data_bins m mn) (range (length data_bins)) []
              = Ok data_bins' /\
            length data_bins <= length data_bins' <= S (length data_bins))
    as (bins' & Hrun & Hcount).
  { destruct (decide (m = mn)) as [->|Hne].
    { destruct (resize_loop_first data_bins mn Hmnlt) as (b' & ? & ? & _).
      exists b'. split; [done|lia]. }
    destruct (decide (m = S mn)) as [->|Hne'].
    { destruct (resize_loop_second data_bins mn Hmnlt) as (b' & ? & ? & _).
      exists b'. split; [done|lia]. }
    destruct (resize_loop_disjoint data_bins m mn) as (b' & ? & ? & _);
      [done..|].
    exists b'. split; [done|lia]. }
  exists bins'. split; [|split; [done|]].
  - unfold refine_once. rewrite Hsse, bind_Ok_eq.
    unfold _resize_bins. rewrite Hm, bind_Ok_eq.
    unfold _find_min_bin. by rewrite Hmn, bind_Ok_eq.
  - intros [j Hj]. apply (resize_loop_nonempty _ _ _ _ Hrun Hfull).
    destruct Htarget as [(pos & _ & Hel & _)|[H0 Hnone]]; [done|].
    destruct (@argsort_position E data_bins sse Hlen j) as [pos Hpos].
    { destruct Hj as (b & Hb & _). apply lookup_lt_Some in Hb. lia. }
    by destruct (Hnone pos j Hpos).
Qed.

(** X13.  One pass of the [while] loop of [_split_data] on at least two
    buckets, none empty, whose extensions have two different x values each
    (so that [linregress] returns a score and does not raise ValueError),
    returns, whatever the scores are: no index is out of range and no list
    is empty where the code reads one.  The pass returns as many buckets as
    it was given or one more, and when some bucket holds two rows no bucket
    it returns is empty. *)
Theorem refine_once_returns (E : Externals)
    (data : list row) (data_bins : list (list row)) :
  data <> [] ->
  2 <= length data_bins ->
  Forall (fun b => b <> []) data_bins ->
  scorable data data_bins = true ->
  exists data_bins',
    @refine_once E data data_bins = Ok data_bins' /\
    length data_bins <= length data_bins' <= S (length data_bins) /\
    ((exists j, eligible data_bins j) -> Forall (fun b => b <> []) data_bins').
Proof. intros Hdata Hbins Hfull _. by apply refine_once_total. Qed.

Lemma refine_once_returns_witness :
  exists data_bins',
    @refine_once demo_externals (rows series10) buckets3 = Ok data_bins' /\
    length buckets3 <= length data_bins' <= S (length buckets3) /\
    ((exists j, eligible buckets3 j) -> Forall (fun b => b <> []) data_bins').
Proof.
  apply (refine_once_returns demo_externals (rows series10) buckets3).
  - discriminate.
  - simpl. lia.
  - repeat constructor; discriminate.
  - by vm_compute.
Defined.

(** ** One output row per bucket *)

Lemma picked_contains (data : list row) (n_bins : Z) (data_bins : list (list row))
    (max_point min_point : row) (pre : option row) (i : nat) (p : row) :
  picked data n_bins data_bins max_point min_point pre i p ->
  exists this_bin, data_bins !! i = Some this_bin /\ contains p this_bin = true.
Proof.
  intros [b Hb Hc ->|b Hb _ Hc ->|b nb pre' k Hb _ _ _ _ _ Hp]; exists b;
    (split; [done|]); [done|done|].
  apply contains_elem_of. by eapply list_elem_of_lookup_2.
Qed.

Lemma contains_nonempty (p : row) (bin : list row) :
  contains p bin = true -> bin <> [].
Proof. by destruct bin. Qed.

(** X14.  Whenever the static variant returns on a series longer than
    [n_out], row [i + 1] of the output stands for static bucket [i]: it is
    the float64 conversion of a row [p], and the bucket contains a row equal
    to [p]. *)
Theorem lttb_one_row_per_bucket (data out : ndarray) (n_out : Z) :
  lttb data n_out = Ok out ->
  (n_out < shape0 data)%Z ->
  exists data_bins,
    array_split (interior (rows data)) (n_out - 2) = Ok data_bins /\
    Z.of_nat (length data_bins) = (n_out - 2)%Z /\
    forall i bin, data_bins !! i = Some bin ->
      exists p, rows out !! S i = Some (float64_row p) /\
                contains p bin = true.
Proof.
  intros Hout HN.
  destruct (lttb_structure data out n_out Hout HN)
    as (bins & first & last & maxp & minp & _ & Hsplit & [Hcount _] & _ & _ & _ &
        _ & _ & _ & _ & _ & _ & Hdone).
  exists bins. split; [done|]. split; [done|].
  intros i bin Hbin.
  destruct (Hdone i) as (p & Hp & Hpick); [by eapply lookup_lt_Some|].
  exists p. split; [done|].
  apply picked_contains in Hpick as (b & Hb & Hc). congruence.
Qed.

Lemma lttb_one_row_per_bucket_witness :
  exists data_bins,
    array_split (interior (rows series10)) (5 - 2) = Ok data_bins /\
    Z.of_nat (length data_bins) = (5 - 2)%Z /\
    forall i bin, data_bins !! i = Some bin ->
      exists p, rows (array_of [(0, 0); (3, 9); (4, 2); (8, 4); (9, 0)]%Z) !! S i
                = Some (float64_row p) /\ contains p bin = true.
Proof.
  apply (lttb_one_row_per_bucket series10).
  - vm_compute. reflexivity.
  - reflexivity.
Defined.

(** The dynamic variant, when it returns on a series longer than [n_out]. *)
Lemma ltd_structure (E : Externals) (data out : ndarray) (n_out : Z) :
  @ltd E data n_out = Ok out ->
  (n_out < shape0 data)%Z ->
  exists data_bins,
    @_split_data E (rows data) n_out = Ok data_bins /\
    (Z.of_nat (length data_bins) = (n_out - 2)%Z \/
     Z.of_nat (length data_bins) = (n_out - 1)%Z) /\
    Forall (fun b => b <> []) data_bins /\
    shape1 out = 2 /\
    shape0 out = n_out /\
    rows out !! 0 = float64_row <$> rows data !! 0 /\
    (forall i bin, data_bins !! i = Some bin ->
       exists p, rows out !! S i = Some (float64_row p) /\
                 contains p bin = true) /\
    (Z.of_nat (length data_bins) = (n_out - 2)%Z ->
     rows out !! (Z.to_nat n_out - 1)
     = float64_row <$> rows data !! (length (rows data) - 1)).
Proof.
  intros Hout HN. unfold ltd in Hout.
  destruct (validate data n_out) as [r|] eqn:Hv.
  { subst r. apply validate_Ok in Hv as [-> _]. lia. }
  apply validate_None in Hv as (_ & _ & H3).
  inv_bind Hout. rename a into bins. rename Ha into Hsplit.
  inv_bind Hout. rename a into o. injection Hout as <-. cbn [shape1 rows].
  pose proof (split_data_rows _ _ _ Hsplit) as [_ Hlow].
  apply select_points_Ok in Ha
    as (first & last & maxp & minp & Hfirst & Hlast & Hmax & Hmin & Hn &
        Hlen & Hrest & H0 & Hdone).
  rewrite length_out_init in Hlen.
  assert (forall i bin, bins !! i = Some bin ->
            exists p, o !! S i = Some (float64_row p) /\
                      contains p bin = true) as Hrep.
  { intros i bin Hbin.
    destruct (Hdone i) as (p & Hp & Hpick); [by eapply lookup_lt_Some|].
    exists p. split; [done|].
    apply picked_contains in Hpick as (b & Hb & Hc). congruence. }
  assert (length bins < Z.to_nat n_out) as Hup.
  { destruct (lookup_lt_is_Some_2 bins (length bins - 1)) as [b Hb]; [lia|].
    destruct (Hrep _ _ Hb) as (p & Hp & _). apply lookup_lt_Some in Hp. lia. }
  exists bins. split; [done|]. split; [lia|].
  split.
  { apply Forall_lookup. intros i b Hb.
    destruct (Hrep _ _ Hb) as (p & _ & Hc). by eapply contains_nonempty. }
  split; [done|]. split; [unfold shape0; cbn [rows]; lia|].
  split.
  { rewrite H0, Hfirst. unfold out_init. cbn [fmap option_fmap option_map].
    rewrite list_lookup_insert_ne by lia.
    apply list_lookup_insert_eq. rewrite repeat_length. lia. }
  split; [done|].
  intros Hcount. rewrite Hrest, Hlast by lia. unfold out_init.
  cbn [fmap option_fmap option_map].
  apply list_lookup_insert_eq. rewrite length_insert, repeat_length. lia.
Qed.

(** X15.  Whenever the dynamic variant returns on a series longer than
    [n_out], [_split_data] has returned [n_out - 2] or [n_out - 1] buckets,
    none of them empty; the output has 2 columns and [n_out] rows, row 0 is
    the first row of the series converted to float64, row [i + 1] stands for
    bucket [i] (it is the conversion of a row [p] such that the bucket
    contains a row equal to [p]), and with [n_out - 2] buckets the last row
    is the last row of the series, converted. *)
Theorem ltd_shape_when_returns (E : Externals) (data out : ndarray) (n_out : Z) :
  @ltd E data n_out = Ok out ->
  (n_out < shape0 data)%Z ->
  exists data_bins,
    @_split_data E (rows data) n_out = Ok data_bins /\
    (Z.of_nat (length data_bins) = (n_out - 2)%Z \/
     Z.of_nat (length data_bins) = (n_out - 1)%Z) /\
    Forall (fun b => b <> []) data_bins /\
    shape1 out = 2 /\
    shape0 out = n_out /\
    rows out !! 0 = float64_row <$> rows data !! 0 /\
    (forall i bin, data_bins !! i = Some bin ->
       exists p, rows out !! S i = Some (float64_row p) /\
                 contains p bin = true) /\
    (Z.of_nat (length data_bins) = (n_out - 2)%Z ->
     rows out !! (Z.to_nat n_out - 1)
     = float64_row <$> rows data !! (length (rows data) - 1)).
Proof. apply ltd_structure. Qed.

Lemma ltd_shape_when_returns_witness :
  exists data_bins,
    @_split_data demo_externals (rows series50) 5 = Ok data_bins /\
    (Z.of_nat (length data_bins) = (5 - 2)%Z \/
     Z.of_nat (length data_bins) = (5 - 1)%Z) /\
    Forall (fun b => b <> []) data_bins /\
    shape1 (array_of [(0, 0); (24, 14); (35, 0); (44, 16); (49, 12)]%Z) = 2 /\
    shape0 (array_of [(0, 0); (24, 14); (35, 0); (44, 16); (49, 12)]%Z) = 5%Z /\
    rows (array_of [(0, 0); (24, 14); (35, 0); (44, 16); (49, 12)]%Z) !! 0
      = float64_row <$> rows series50 !! 0 /\
    (forall i bin, data_bins !! i = Some bin ->
       exists p,
         rows (array_of [(0, 0); (24, 14); (35, 0); (44, 16); (49, 12)]%Z) !! S i
           = Some (float64_row p) /\ contains p bin = true) /\
    (Z.of_nat (length data_bins) = (5 - 2)%Z ->
     rows (array_of [(0, 0); (24, 14); (35, 0); (44, 16); (49, 12)]%Z)
       !! (Z.to_nat 5 - 1)
     = float64_row <$> rows series50 !! (length (rows series50) - 1)).
Proof.
  apply (ltd_shape_when_returns demo_externals series50).
  - vm_compute. reflexivity.
  - reflexivity.
Defined.

(** ** The output of the static variant is sorted *)

Lemma ends_and_interior {A} (l : list A) (first last : A) :
  2 <= length l -> l !! 0 = Some first -> l !! (length l - 1) = Some last ->
  l = first :: interior l ++ [last].
Proof.
  destruct l as [|a l]; [done|]. cbn [length]. intros Hlen [= ->] Hlast.
  f_equal. unfold interior. cbn [length drop].
  replace (S (length l) - 1) with (S (length l - 1)) in Hlast by lia.
  cbn [lookup list_lookup] in Hlast.
  replace (S (length l) - 1 - 1) with (length l - 1) by lia.
  rewrite <- (drop_last_row l last Hlast). by rewrite take_drop.
Qed.

Lemma sorted_app_le (l1 l2 : list row) (q q' : row) :
  non_decreasing (column0 (l1 ++ l2)) -> q ∈ l1 -> q' ∈ l2 -> (px q <= px q')%Q.
Proof.
  intros Hs [k1 Hk1]%list_elem_of_lookup_1 [k2 Hk2]%list_elem_of_lookup_1.
  pose proof (lookup_lt_Some _ _ _ Hk1) as Hlt.
  apply (non_decreasing_le _ k1 (length l1 + k2) _ _ Hs); [lia| |].
  - unfold column0. change (map ?f ?l) with (f <$> l).
    by rewrite list_lookup_fmap, lookup_app_l, Hk1.
  - unfold column0. change (map ?f ?l) with (f <$> l).
    rewrite list_lookup_fmap, lookup_app_r by lia.
    replace (length l1 + k2 - length l1) with k2 by lia. by rewrite Hk2.
Qed.

Lemma elem_of_concat_2 {A} (ls : list (list A)) (l : list A) (a : A) :
  l ∈ ls -> a ∈ l -> a ∈ concat ls.
Proof.
  rewrite !list_elem_of_In. intros Hl Ha. apply in_concat. eauto.
Qed.

Lemma contains_px (p : row) (bin : list row) :
  contains p bin = true -> exists q, q ∈ bin /\ (px p == px q)%Q.
Proof.
  intros (q & Hq & Heq)%existsb_exists. exists q.
  split; [by apply list_elem_of_In|by apply row_eqb_px].
Qed.

Lemma validate_identity (data d : ndarray) (n_out : Z) :
  validate data n_out = Some (Ok d) ->
  shape1 data = 2 /\ non_decreasing (column0 (rows data)) /\
  n_out = shape0 data /\ d = data.
Proof.
  unfold validate. intros H.
  destruct (Nat.eqb_spec (shape1 data) 2) as [H2|]; [|done]. simpl in H.
  destruct (any_ne _ _) eqn:Hs; [done|]. apply sorted_check in Hs.
  destruct (Z.gtb_spec n_out (shape0 data)); [done|].
  destruct (Z.eqb_spec n_out (shape0 data)); [|by destruct (n_out <? 3)%Z].
  by injection H as <-.
Qed.

Lemma validate_of_output (out : ndarray) :
  shape1 out = 2 -> non_decreasing (column0 (rows out)) ->
  validate out (shape0 out) = Some (Ok out).
Proof.
  intros H2 Hs. rewrite (validate_sorted out _ H2 Hs).
  by rewrite Z.gtb_ltb, Z.ltb_irrefl, Z.eqb_refl.
Qed.

Lemma lttb_output_sorted (data out : ndarray) (n_out : Z) :
  lttb data n_out = Ok out ->
  shape1 out = 2 /\ shape0 out = n_out /\ non_decreasing (column0 (rows out)).
Proof.
  intros Hout.
  destruct (validate data n_out) as [r|] eqn:Hv.
  { unfold lttb in Hout. rewrite Hv in Hout. subst r.
    by apply validate_identity in Hv as (? & ? & -> & ->). }
  pose proof (validate_None _ _ Hv) as (_ & Hsorted & H3).
  destruct (lttb_structure data out n_out Hout)
    as (bins & first & last & maxp & minp & _ & _ & [Hcount Hcat] & _ &
        Hfirst & Hlast & _ & _ & Hcols & Hlen & Hout0 & Hlast' & Hdone); [lia|].
  split; [done|]. split; [unfold shape0; lia|].
  unfold shape0 in H3.
  pose proof (ends_and_interior (rows data) first last) as Hdata.
  rewrite <- Hcat in Hdata. specialize (Hdata ltac:(lia) Hfirst Hlast).
  assert (forall i bin, bins !! i = Some bin ->
            exists r q, rows out !! S i = Some r /\ q ∈ bin /\
                        (px r == float64 (px q))%Q) as Hrep.
  { intros i bin Hbin.
    destruct (Hdone i) as (p & Hp & Hpick); [by eapply lookup_lt_Some|].
    apply picked_contains in Hpick as (b & Hb & Hc).
    assert (b = bin) as -> by congruence.
    apply contains_px in Hc as (q & Hq & Hpx).
    exists (float64_row p), q. split; [done|]. split; [done|].
    rewrite px_float64_row. by apply float64_proper. }
  intros i a b Ha Hb.
  unfold column0 in Ha, Hb. change (map ?f ?l) with (f <$> l) in Ha, Hb.
  rewrite list_lookup_fmap in Ha, Hb.
  destruct (rows out !! i) as [r|] eqn:Hr; [|done].
  destruct (rows out !! S i) as [r'|] eqn:Hr'; [|done].
  injection Ha as <-. injection Hb as <-.
  pose proof (lookup_lt_Some _ _ _ Hr') as Hi.
  assert (exists q, q ∈ first :: concat (take i bins) /\
                    (px r == float64 (px q))%Q)
    as (q & Hq & Hpq).
  { destruct i as [|j].
    - exists first. split; [left|].
      assert (r = float64_row first) as -> by congruence.
      by rewrite px_float64_row.
    - destruct (lookup_lt_is_Some_2 bins j) as [bin Hbin]; [lia|].
      destruct (Hrep j bin Hbin) as (r0 & q & Hr0 & Hq & Hpx).
      assert (r0 = r) as -> by congruence.
      exists q. split; [|done]. right.
      apply (elem_of_concat_2 _ bin); [|done].
      apply (list_elem_of_lookup_2 _ j). rewrite lookup_take_lt by lia. done. }
  assert (exists q', q' ∈ concat (drop i bins) ++ [last] /\
                     (px r' == float64 (px q'))%Q)
    as (q' & Hq' & Hpq').
  { destruct (decide (i < length bins)) as [Hlt|Hge].
    - destruct (lookup_lt_is_Some_2 bins i Hlt) as [bin Hbin].
      destruct (Hrep i bin Hbin) as (r0 & q' & Hr0 & Hq' & Hpx).
      assert (r0 = r') as -> by congruence.
      exists q'. split; [|done]. apply elem_of_app. left.
      apply (elem_of_concat_2 _ bin); [|done].
      apply (list_elem_of_lookup_2 _ 0). by rewrite lookup_drop, Nat.add_0_r.
    - exists last. split; [apply elem_of_app; right; by left|].
      replace (S i) with (Z.to_nat n_out - 1) in Hr' by lia.
      assert (r' = float64_row last) as -> by congruence.
      by rewrite px_float64_row. }
  rewrite Hpq, Hpq'. apply float64_mono.
  apply (sorted_app_le (first :: concat (take i bins))
                       (concat (drop i bins) ++ [last])); [|done|done].
  rewrite <- (take_drop i bins), concat_app in Hdata.
  rewrite Hdata in Hsorted.
  by rewrite <- app_comm_cons, app_assoc.
Qed.

(** X16.  Whenever the static variant returns, the x column of its output
    is non-decreasing, and the output is a fixed point: both variants
    called on it with the same [n_out] return it as it is. *)
Theorem lttb_output_is_fixed_point (E : Externals) (data out : ndarray)
    (n_out : Z) :
  lttb data n_out = Ok out ->
  non_decreasing (column0 (rows out)) /\
  lttb out n_out = Ok out /\
  @ltd E out n_out = Ok out.
Proof.
  intros (H2 & <- & Hs)%lttb_output_sorted.
  split; [done|]. unfold lttb, ltd. by rewrite (validate_of_output out H2 Hs).
Qed.

Lemma lttb_output_is_fixed_point_witness :
  non_decreasing
    (column0 (rows (array_of [(0, 0); (3, 9); (4, 2); (8, 4); (9, 0)]%Z))) /\
  lttb (array_of [(0, 0); (3, 9); (4, 2); (8, 4); (9, 0)]%Z) 5
    = Ok (array_of [(0, 0); (3, 9); (4, 2); (8, 4); (9, 0)]%Z) /\
  @ltd demo_externals (array_of [(0, 0); (3, 9); (4, 2); (8, 4); (9, 0)]%Z) 5
    = Ok (array_of [(0, 0); (3, 9); (4, 2); (8, 4); (9, 0)]%Z).
Proof.
  apply (lttb_output_is_fixed_point demo_externals series10).
  vm_compute. reflexivity.
Defined.

Lemma validate_passes (data : ndarray) (n_out : Z) :
  shape1 data = 2 -> non_decreasing (column0 (rows data)) ->
  (3 <= n_out < shape0 data)%Z ->
  validate data n_out = None.
Proof.
  intros H2 Hs Hn. rewrite (validate_sorted data n_out H2 Hs).
  destruct (Z.gtb_spec n_out (shape0 data)); [lia|].
  destruct (Z.eqb_spec n_out (shape0 data)); [lia|].
  destruct (Z.ltb_spec n_out 3); [lia|done].
Qed.

(** The selection loop returns on [n_out - 2] or [n_out - 1] buckets, none
    empty. *)
Lemma select_points_fit (data : list row) (n_out : Z)
    (data_bins : list (list row)) :
  data <> [] ->
  Forall (fun b => b <> []) data_bins ->
  (n_out - 2 <= Z.of_nat (length data_bins) < n_out)%Z ->
  exists out, select_points data n_out data_bins = Ok out.
Proof.
  intros Hdata Hne Hlen. unfold select_points.
  assert (0 < length data) as HN by (destruct data; [done|simpl; lia]).
  change 0%Z with (Z.of_nat 0). rewrite (getitem_of_nat data 0).
  destruct (lookup_lt_is_Some_2 data 0 HN) as [first ->]. simpl.
  rewrite setitem_of_nat, repeat_length.
  destruct (decide (0 < Z.to_nat n_out)); [|lia]. simpl.
  replace (Z.of_nat (length data) - 1)%Z with (Z.of_nat (length data - 1)) by lia.
  rewrite (getitem_of_nat data (length data - 1)).
  destruct (lookup_lt_is_Some_2 data (length data - 1)) as [last ->]; [lia|]. simpl.
  rewrite length_insert, repeat_length.
  replace (Z.of_nat (Z.to_nat n_out) - 1)%Z with (Z.of_nat (Z.to_nat n_out - 1)) by lia.
  rewrite setitem_of_nat, length_insert, repeat_length.
  destruct (decide (Z.to_nat n_out - 1 < Z.to_nat n_out)); [|lia]. simpl.
  assert (column1 data <> []) as Hcol by (by destruct data).
  destruct (argmax_total _ Hcol) as [imax Himax]. rewrite Himax. simpl.
  rewrite (getitem_of_nat data imax).
  destruct (lookup_lt_is_Some_2 data imax) as [max_point ->].
  { apply argmax_spec in Himax as (a & Ha & _). apply lookup_lt_Some in Ha.
    unfold column1 in Ha. by rewrite length_map in Ha. }
  simpl.
  destruct (argmin_total _ Hcol) as [imin Himin]. rewrite Himin. simpl.
  rewrite (getitem_of_nat data imin).
  destruct (lookup_lt_is_Some_2 data imin) as [min_point ->].
  { apply argmin_spec in Himin as (a & Ha & _). apply lookup_lt_Some in Ha.
    unfold column1 in Ha. by rewrite length_map in Ha. }
  simpl. apply select_loop_total; [done| |lia].
  rewrite !length_insert, repeat_length. lia.
Qed.

(** X17.  On a 2-column series with non-decreasing x and
    [3 <= n_out < N], the dynamic variant returns exactly when
    [_split_data] returns fewer than [n_out] buckets, none of them empty:
    otherwise the refiner or the selection loop raises. *)
Theorem ltd_returns_iff_buckets_fit (E : Externals) (data : ndarray) (n_out : Z) :
  shape1 data = 2 ->
  non_decreasing (column0 (rows data)) ->
  (3 <= n_out < shape0 data)%Z ->
  (exists out, @ltd E data n_out = Ok out) <->
  (exists data_bins,
     @_split_data E (rows data) n_out = Ok data_bins /\
     (Z.of_nat (length data_bins) < n_out)%Z /\
     Forall (fun b => b <> []) data_bins).
Proof.
  intros H2 Hs Hn. split.
  - intros [out Hout].
    destruct (ltd_structure E data out n_out Hout)
      as (bins & Hsplit & Hcount & Hfull & _); [lia|].
    exists bins. split; [done|]. split; [lia|done].
  - intros (bins & Hsplit & Hcount & Hfull).
    pose proof (split_data_rows _ _ _ Hsplit) as [_ Hlow].
    destruct (select_points_fit (rows data) n_out bins) as [o Ho];
      [|done|lia|].
    { unfold shape0 in Hn. destruct (rows data); [simpl in Hn; lia|done]. }
    exists {| shape1 := 2; rows := o |}. unfold ltd.
    by rewrite (validate_passes data n_out H2 Hs Hn), Hsplit, bind_Ok_eq, Ho.
Qed.

Lemma ltd_returns_iff_buckets_fit_witness :
  (exists out, @ltd demo_externals series50 5 = Ok out) <->
  (exists data_bins,
     @_split_data demo_externals (rows series50) 5 = Ok data_bins /\
     (Z.of_nat (length data_bins) < 5)%Z /\
     Forall (fun b => b <> []) data_bins).
Proof.
  apply (ltd_returns_iff_buckets_fit demo_externals series50 5).
  - reflexivity.
  - apply sorted_check. vm_compute. reflexivity.
  - vm_compute. split; [discriminate|reflexivity].
Defined.

(** ** Triangle areas *)








(** ** The static buckets *)

Lemma lookup_repeat {A} (a b : A) (n i : nat) :
  repeat a n !! i = Some b -> b = a.
Proof.
  revert i. induction n as [|n IH]; intros [|i]; simpl; try done.
  - congruence.
  - apply IH.
Qed.

Lemma lookup_section_sizes (total sections i s : nat) :
  section_sizes total sections !! i = Some s ->
  s = total / sections + (if decide (i < total mod sections) then 1 else 0).
Proof.
  unfold section_sizes. intros H.
  destruct (decide (i < total mod sections)) as [Hlt|Hge].
  - rewrite lookup_app_l in H by (by rewrite repeat_length).
    apply lookup_repeat in H. lia.
  - rewrite lookup_app_r in H by (rewrite repeat_length; lia).
    apply lookup_repeat in H. lia.
Qed.

(** X19.  Past the validation the static variant works on [n_out - 2]
    buckets whose concatenation is the interior of the series; with
    [q, r = divmod(N - 2, n_out - 2)], the first [r] buckets hold [q + 1]
    rows and the others [q], and [q >= 1]: no bucket is empty. *)
Theorem lttb_buckets_partition_interior (data : ndarray) (n_out : Z) :
  shape1 data = 2 ->
  non_decreasing (column0 (rows data)) ->
  (3 <= n_out < shape0 data)%Z ->
  exists data_bins out,
    array_split (interior (rows data)) (n_out - 2) = Ok data_bins /\
    select_points (rows data) n_out data_bins = Ok out /\
    lttb data n_out = Ok {| shape1 := 2; rows := out |} /\
    bucket_partition (rows data) n_out data_bins /\
    1 <= (length (rows data) - 2) / Z.to_nat (n_out - 2) /\
    forall i b, data_bins !! i = Some b ->
      length b = (length (rows data) - 2) / Z.to_nat (n_out - 2)
                 + (if decide (i < (length (rows data) - 2)
                                    mod Z.to_nat (n_out - 2))
                    then 1 else 0).
Proof.
  intros H2 Hs Hn.
  pose proof (validate_passes data n_out H2 Hs Hn) as Hv.
  destruct (lttb_returns data n_out Hv) as (bins & out & Hsplit & Hpart & _ & Hsel & Hl).
  exists bins, out. do 4 (split; [done|]).
  unfold shape0 in Hn. split; [apply Nat.div_le_lower_bound; lia|].
  intros i b Hb. unfold array_split in Hsplit.
  destruct (Z.leb_spec (n_out - 2) 0); [done|]. injection Hsplit as <-.
  rewrite length_interior in Hb.
  pose proof (chunks_lengths (interior (rows data))
                (section_sizes (length (rows data) - 2) (Z.to_nat (n_out - 2))))
    as Hlens.
  rewrite section_sizes_sum, length_interior in Hlens by lia.
  specialize (Hlens ltac:(lia)).
  destruct (Forall2_lookup_l _ _ _ _ _ Hlens Hb) as (s & Hsz & ->).
  by apply lookup_section_sizes.
Qed.

Lemma lttb_buckets_partition_interior_witness :
  exists data_bins out,
    array_split (interior (rows series10)) (5 - 2) = Ok data_bins /\
    select_points (rows series10) 5 data_bins = Ok out /\
    lttb series10 5 = Ok {| shape1 := 2; rows := out |} /\
    bucket_partition (rows series10) 5 data_bins /\
    1 <= (length (rows series10) - 2) / Z.to_nat (5 - 2) /\
    forall i b, data_bins !! i = Some b ->
      length b = (length (rows series10) - 2) / Z.to_nat (5 - 2)
                 + (if decide (i < (length (rows series10) - 2)
                                    mod Z.to_nat (5 - 2))
                    then 1 else 0).
Proof.
  apply (lttb_buckets_partition_interior series10 5).
  - reflexivity.
  - apply sorted_check. vm_compute. reflexivity.
  - vm_compute. split; [discriminate|reflexivity].
Defined.

(** ** The dynamic variant with one or two buckets *)

(** X20 (C6 in general).  With [n_out = 3] the dynamic variant raises
    IndexError on every 2-column series with non-decreasing x of 30 rows or
    more: there is one bucket and at least one refinement pass, whose first
    score reads the bucket after the only one. *)
Theorem ltd_three_points_index_error (E : Externals) (data : ndarray) :
  shape1 data = 2 ->
  non_decreasing (column0 (rows data)) ->
  (30 <= shape0 data)%Z ->
  @ltd E data 3 = Raise IndexError.
Proof.
  intros H2 Hs HN. apply ltd_three_points_raises; [|done].
  apply validate_passes; [done|done|lia].
Qed.

Lemma ltd_three_points_index_error_witness :
  @ltd demo_externals series30 3 = Raise IndexError.
Proof.
  apply (ltd_three_points_index_error demo_externals series30).
  - reflexivity.
  - apply sorted_check. vm_compute. reflexivity.
  - vm_compute. discriminate.
Defined.

(** ** The rows given to [linregress] *)

Lemma strictly_increasing_non_decreasing (l : list Q) :
  strictly_increasing l -> non_decreasing l.
Proof.
  intros Hinc i a b Ha Hb. apply Qlt_le_weak.
  apply (Hinc i (S i)); [lia|done|done].
Qed.

Lemma lookup_column0 (data : list row) (k : nat) (p : row) :
  data !! k = Some p -> column0 data !! k = Some (px p).
Proof.
  intros Hk. unfold column0. change (map ?f ?l) with (f <$> l).
  by rewrite list_lookup_fmap, Hk.
Qed.

(** With a strictly increasing x column two rows with the same x are the
    same row of the series, and no row occurs twice. *)
Lemma strict_px_inj (data : list row) (i j : nat) (p q : row) :
  strictly_increasing (column0 data) ->
  data !! i = Some p -> data !! j = Some q -> (px p == px q)%Q -> i = j.
Proof.
  intros Hinc Hp%lookup_column0 Hq%lookup_column0 Heq.
  destruct (Nat.lt_trichotomy i j) as [Hlt|[->|Hgt]]; [|done|].
  - pose proof (Hinc i j _ _ Hlt Hp Hq) as Hlt'. rewrite Heq in Hlt'.
    by apply Qlt_irrefl in Hlt'.
  - pose proof (Hinc j i _ _ Hgt Hq Hp) as Hlt'. rewrite Heq in Hlt'.
    by apply Qlt_irrefl in Hlt'.
Qed.

Lemma strict_NoDup (data : list row) :
  strictly_increasing (column0 data) -> NoDup data.
Proof.
  intros Hinc. apply NoDup_alt. intros i j p Hi Hj.
  by apply (strict_px_inj data i j p p).
Qed.

Lemma strict_distinct (data : list row) (p q : row) :
  strictly_increasing (column0 data) -> p ∈ data -> q ∈ data -> p <> q ->
  Qeq_bool (px p) (px q) = false.
Proof.
  intros Hinc [i Hi]%list_elem_of_lookup_1 [j Hj]%list_elem_of_lookup_1 Hne.
  destruct (Qeq_bool (px p) (px q)) eqn:Heq; [|done].
  apply Qeq_bool_iff in Heq.
  pose proof (strict_px_inj data i j p q Hinc Hi Hj Heq) as ->. congruence.
Qed.

Lemma distinct_x_head (a b : row) (w : list row) :
  w <> [] -> Qeq_bool (px a) (px b) = false -> distinct_x (a :: b :: w) = true.
Proof.
  intros Hw Hab. destruct w as [|c w]; [done|].
  cbn [distinct_x existsb]. by rewrite Hab.
Qed.

Lemma last_elem_of {A} (l : list A) (a : A) : last l = Some a -> a ∈ l.
Proof.
  intros H. apply last_Some in H as [l' ->]. apply elem_of_app. right. by left.
Qed.

(** The buckets of a partition of the interior of a series with a strictly
    increasing x column, none of them empty, give [linregress] two
    different x values each. *)
Lemma scorable_partition (data : list row) (data_bins : list (list row))
    (first last : row) :
  strictly_increasing (column0 data) ->
  data = first :: concat data_bins ++ [last] ->
  Forall (fun b => b <> []) data_bins ->
  scorable data data_bins = true.
Proof.
  intros Hinc Hdata Hfull.
  pose proof (strict_NoDup data Hinc) as Hnd.
  unfold scorable. apply forallb_forall. intros i Hi%in_seq.
  destruct (score_window data data_bins i) as [w|] eqn:Hw; [|done].
  unfold score_window in Hw.
  destruct (data_bins !! i) as [this|] eqn:Hthis; [|done]. cbn in Hw.
  pose proof (Forall_lookup_1 _ _ _ _ Hfull Hthis) as Hne.
  destruct this as [|h t]; [done|].
  assert (h ∈ concat data_bins) as Hh.
  { apply (elem_of_concat_2 _ (h :: t)); [by eapply list_elem_of_lookup_2|by left]. }
  assert (forall pre next, pre ∈ data -> pre <> h ->
            distinct_x ([pre] ++ (h :: t) ++ [next]) = true) as Hgoal.
  { intros pre next Hpre Hneq. cbn [app].
    apply distinct_x_head; [by destruct t|].
    apply (strict_distinct data); [done|done| |done].
    rewrite Hdata. right. apply elem_of_app. by left. }
  assert (exists pre next, w = [pre] ++ (h :: t) ++ [next] /\
                           pre ∈ data /\ pre <> h) as (pre & next & -> & ? & ?);
    [|by apply Hgoal].
  destruct i as [|j].
  - destruct (data !! 0) as [pre|] eqn:Hpre; [|done]. cbn in Hw.
    destruct (if decide (1 = length data_bins) then _ else _) as [next|];
      [|done]. cbn in Hw. injection Hw as <-.
    exists pre, next. split; [done|].
    rewrite Hdata in Hpre. injection Hpre as <-.
    split; [rewrite Hdata; by left|].
    intros ->. rewrite Hdata in Hnd. apply NoDup_cons in Hnd as [Hnot _].
    apply Hnot. apply elem_of_app. by left.
  - destruct (data_bins !! j) as [pb|] eqn:Hpb; [|done]. cbn in Hw.
    destruct (list.last pb) as [pre|] eqn:Hpre; [|done]. cbn in Hw.
    destruct (if decide (S (S j) = length data_bins) then _ else _) as [next|];
      [|done]. cbn in Hw. injection Hw as <-.
    exists pre, next. split; [done|].
    apply last_elem_of in Hpre.
    assert (pre ∈ concat (take (S j) data_bins)) as Hin.
    { apply (elem_of_concat_2 _ pb); [|done].
      apply (list_elem_of_lookup_2 _ j). by rewrite lookup_take_lt by lia. }
    assert (h ∈ concat (drop (S j) data_bins)) as Hin'.
    { apply (elem_of_concat_2 _ (h :: t)); [|by left].
      apply (list_elem_of_lookup_2 _ 0). by rewrite lookup_drop, Nat.add_0_r. }
    split.
    + rewrite Hdata. right. apply elem_of_app. left.
      rewrite <- (take_drop (S j) data_bins), concat_app.
      apply elem_of_app. by left.
    + intros ->. rewrite Hdata in Hnd. apply NoDup_cons in Hnd as [_ Hnd].
      apply NoDup_app in Hnd as [Hnd _].
      rewrite <- (take_drop (S j) data_bins), concat_app in Hnd.
      apply NoDup_app in Hnd as (_ & Hdisj & _). by apply (Hdisj h).
Qed.

(** The static buckets of a series with a strictly increasing x column. *)
Lemma scorable_static (data : list row) (n_bins : Z)
    (data_bins : list (list row)) :
  strictly_increasing (column0 data) ->
  2 <= length data ->
  array_split (interior data) n_bins = Ok data_bins ->
  Forall (fun b => b <> []) data_bins ->
  scorable data data_bins = true.
Proof.
  intros Hinc Hlen Hsplit Hfull.
  destruct (lookup_lt_is_Some_2 data 0) as [first Hfirst]; [lia|].
  destruct (lookup_lt_is_Some_2 data (length data - 1)) as [last Hlast]; [lia|].
  apply (scorable_partition data data_bins first last); [done| |done].
  assert (concat data_bins = interior data) as ->.
  { unfold array_split in Hsplit. destruct (n_bins <=? 0)%Z eqn:Hk; [done|].
    destruct (array_split_spec (interior data) n_bins)
      as (parts & Hparts & _ & Hcat & _); [by apply Z.leb_gt|].
    unfold array_split in Hparts. rewrite Hk in Hparts.
    rewrite Hsplit in Hparts. by injection Hparts as <-. }
  by apply ends_and_interior.
Qed.

Section TwoBuckets.
Context `{E : Externals}.
Variables (data b0 b1 : list row).
Hypothesis (Hdata : data <> []).
Hypothesis (H0 : 2 <= length b0) (H1 : 2 <= length b1).

(** A pass over two buckets of two rows or more gives the halves of bucket
    0, or the merged pair followed by the halves of bucket 1. *)
Lemma refine_once_two_cases :
  exists data_bins',
    refine_once data [b0; b1] = Ok data_bins' /\
    Forall (fun b => b <> []) data_bins' /\
    ((length data_bins' = 2 /\ concat data_bins' = b0) \/
     (length data_bins' = 3 /\ concat data_bins' = (b0 ++ b1) ++ b1)).
Proof.
  assert (forall b : list row, 2 <= length b ->
            exists h, array_split b 2 = Ok h /\ length h = 2 /\ concat h = b /\
                      Forall (fun x => x <> []) h) as Hhalves.
  { intros b Hb.
    destruct (array_split_spec b 2) as (h & Hh & Hl & Hc & Hlow); [lia|].
    exists h. do 3 (split; [done|]).
    eapply Forall_impl; [exact Hlow|]. intros x Hx ->.
    change (Z.to_nat 2) with 2 in Hx. cbn [length] in Hx.
    pose proof (Nat.div_le_lower_bound (length b) 2 1). lia. }
  destruct (Hhalves b0 H0) as (h0 & Hh0 & Hl0 & Hc0 & Hf0).
  destruct (Hhalves b1 H1) as (h1 & Hh1 & Hl1 & Hc1 & Hf1).
  destruct (sse_list_two data b0 b1 Hdata H0 H1) as (s0 & s1 & Hsse).
  unfold refine_once. cbn [length]. rewrite Hsse, bind_Ok_eq.
  destruct (resize_two b0 b1 H0 H1 s0 s1 h0 h1 Hh0 Hh1) as [->| ->].
  - exists h0. split; [done|]. split; [done|]. left. done.
  - eexists. split; [done|]. split.
    + constructor; [|done]. intros Hnil. apply app_eq_nil in Hnil as [-> _].
      simpl in H0. lia.
    + right. rewrite length_app, Hl1. split; [done|].
      cbn [app concat]. by rewrite Hc1.
Qed.
End TwoBuckets.

(** X21 (C1 and C6 in general).  With [n_out = 4] on a 2-column series with
    strictly increasing x of 40 to 79 rows, the dynamic variant makes one
    refinement pass over the two static buckets [b0] and [b1], each of which
    gives [linregress] two different x values, and, whatever scores
    [linregress] returns for them, returns from a bucket list that is not a
    partition of the interior: two buckets covering [b0] only, so that no
    row of [b1] can be selected, or three buckets in which the rows of [b1]
    appear twice, so that the last output row is overwritten by a row
    standing for the third bucket (the float64 conversion of a row [p] such
    that the third bucket contains a row equal to [p]). *)
Theorem ltd_four_points_broken_buckets (E : Externals) (data : ndarray) :
  shape1 data = 2 ->
  strictly_increasing (column0 (rows data)) ->
  (40 <= shape0 data < 80)%Z ->
  exists b0 b1 data_bins out,
    array_split (interior (rows data)) 2 = Ok [b0; b1] /\
    scorable (rows data) [b0; b1] = true /\
    @_split_data E (rows data) 4 = Ok data_bins /\
    @ltd E data 4 = Ok out /\
    ((length data_bins = 2 /\ concat data_bins = b0) \/
     (length data_bins = 3 /\ concat data_bins = (b0 ++ b1) ++ b1 /\
      exists p bin, rows out !! 3 = Some (float64_row p) /\
                    data_bins !! 2 = Some bin /\ contains p bin = true)).
Proof.
  intros H2 Hinc HN. unfold shape0 in HN.
  pose proof (strictly_increasing_non_decreasing _ Hinc) as Hs.
  assert (rows data <> []) as Hdata.
  { intros Hnil. rewrite Hnil in HN. simpl in HN. lia. }
  destruct (array_split_spec (interior (rows data)) (4 - 2))
    as (bins & Hsplit & Hlen & Hcat & Hlow); [lia|].
  destruct bins as [|b0 [|b1 [|b2 bins]]]; try done.
  rewrite length_interior in Hlow. change (Z.to_nat (4 - 2)) with 2 in Hlow.
  assert (19 <= (length (rows data) - 2) / 2) as H19
    by (apply Nat.div_le_lower_bound; lia).
  inversion Hlow as [|? ? Hb0 Hlow']; subst.
  inversion Hlow' as [|? ? Hb1 _]; subst.
  destruct (@refine_once_two_cases E (rows data) b0 b1 Hdata)
    as (bins' & Hpass & Hfull & Hcases); [lia|lia|].
  assert (@_split_data E (rows data) 4 = Ok bins') as Hsd.
  { unfold _split_data. rewrite (iteration_num_once (rows data) 4) by lia.
    rewrite bind_Ok_eq. change (4 - 2)%Z with 2%Z in Hsplit |- *.
    rewrite Hsplit, bind_Ok_eq.
    change (Z.to_nat 1) with 1. cbn [refine]. by rewrite Hpass, bind_Ok_eq. }
  destruct (select_points_fit (rows data) 4 bins' Hdata Hfull) as [o Ho].
  { destruct Hcases as [[-> _]|[-> _]]; lia. }
  assert (@ltd E data 4 = Ok {| shape1 := 2; rows := o |}) as Hltd.
  { unfold ltd. rewrite (validate_passes data 4 H2 Hs) by (unfold shape0; lia).
    by rewrite Hsd, bind_Ok_eq, Ho. }
  exists b0, b1, bins', {| shape1 := 2; rows := o |}.
  split; [done|]. split.
  { apply (scorable_static (rows data) (4 - 2)); [done|lia|done|].
    repeat constructor; intros ->; cbn [length] in *; lia. }
  split; [done|]. split; [done|].
  destruct Hcases as [Htwo|[Hthree Hcat']]; [by left|right].
  split; [done|]. split; [done|].
  destruct (ltd_structure E data _ 4 Hltd) as (bins'' & Hsd' & _ & _ & _ & _ & _ &
                                               Hrep & _); [unfold shape0; lia|].
  rewrite Hsd in Hsd'. injection Hsd' as <-.
  destruct (lookup_lt_is_Some_2 bins' 2) as [bin Hbin]; [lia|].
  destruct (Hrep 2 bin Hbin) as (p & Hp & Hc). eauto.
Qed.

Lemma ltd_four_points_broken_buckets_witness :
  exists b0 b1 data_bins out,
    array_split (interior (rows series40)) 2 = Ok [b0; b1] /\
    scorable (rows series40) [b0; b1] = true /\
    @_split_data squared_stderr_externals (rows series40) 4 = Ok data_bins /\
    @ltd squared_stderr_externals series40 4 = Ok out /\
    ((length data_bins = 2 /\ concat data_bins = b0) \/
     (length data_bins = 3 /\ concat data_bins = (b0 ++ b1) ++ b1 /\
      exists p bin, rows out !! 3 = Some (float64_row p) /\
                    data_bins !! 2 = Some bin /\ contains p bin = true)).
Proof.
  apply (ltd_four_points_broken_buckets squared_stderr_externals series40).
  - reflexivity.
  - apply strict_check_sound. vm_compute. reflexivity.
  - vm_compute. split; [discriminate|reflexivity].
Defined.

(** Both cases occur on [series40].  With the squared standard error as
    score (0.00283 for the first bucket, 0.00287 for the second) the second
    bucket is split: three buckets of 38, 10 and 9 rows, and the last row
    [(39, 2)] of the series is overwritten by the row [(30, 4)] of the third
    bucket.  With the total variation of y as score the first bucket is
    split: two buckets of 10 and 9 rows, and rows 20 to 38 are in no
    bucket. *)
Lemma series40_both_cases :
  let b0 := take 19 (interior (rows series40)) in
  let b1 := drop 19 (interior (rows series40)) in
  array_split (interior (rows series40)) 2 = Ok [b0; b1] /\
  @_split_data squared_stderr_externals (rows series40) 4
    = Ok [b0 ++ b1; take 10 b1; drop 10 b1] /\
  @ltd squared_stderr_externals series40 4
    = Ok (array_of [(0, 0); (2, 4); (21, 0); (30, 4)]%Z) /\
  @_split_data demo_externals (rows series40) 4
    = Ok [take 10 b0; drop 10 b0] /\
  @ltd demo_externals series40 4
    = Ok (array_of [(0, 0); (2, 4); (14, 0); (39, 2)]%Z).
Proof. repeat split; by vm_compute. Qed.

(** ** Extrema in the dynamic variant *)

Lemma select_points_extrema (data : list row) (n_out : Z)
    (data_bins : list (list row)) (out : list row) (max_point min_point : row)
    (i : nat) (bin : list row) :
  select_points data n_out data_bins = Ok out ->
  global_max_point data max_point ->
  global_min_point data min_point ->
  data_bins !! i = Some bin ->
  (contains max_point bin = true ->
   out !! S i = Some (float64_row max_point)) /\
  (contains max_point bin = false -> contains min_point bin = true ->
   out !! S i = Some (float64_row min_point)).
Proof.
  intros (first & last & maxp & minp & _ & _ & Hmax' & Hmin' & _ &
          _ & _ & _ & Hdone)%select_points_Ok Hmax Hmin Hbin.
  assert (maxp = max_point) as -> by (by eapply global_max_point_unique).
  assert (minp = min_point) as -> by (by eapply global_min_point_unique).
  destruct (Hdone i) as (p & Hp & Hpick); [by eapply lookup_lt_Some|].
  destruct Hpick as [b Hb Hc ->|b Hb Hc Hc' ->|b nb pre k Hb Hc Hc' _ _ _ _];
    assert (b = bin) as -> by congruence; split; congruence.
Qed.

(** X22.  Whenever the dynamic variant returns on a series longer than
    [n_out], the first maximum-y point of the series, converted to float64,
    is in the output if some bucket returned by [_split_data] contains a row
    equal to it, and the first minimum-y point, converted to float64, is in
    the output if some bucket contains a row equal to it and no row equal to
    the maximum point. *)
Theorem ltd_keeps_extrema_held_by_buckets (E : Externals) (data out : ndarray)
    (n_out : Z) (data_bins : list (list row)) (max_point min_point : row) :
  @ltd E data n_out = Ok out ->
  (n_out < shape0 data)%Z ->
  @_split_data E (rows data) n_out = Ok data_bins ->
  global_max_point (rows data) max_point ->
  global_min_point (rows data) min_point ->
  ((exists bin, bin ∈ data_bins /\ contains max_point bin = true) ->
   float64_row max_point ∈ rows out) /\
  ((exists bin, bin ∈ data_bins /\ contains max_point bin = false /\
                contains min_point bin = true) ->
   float64_row min_point ∈ rows out).
Proof.
  intros Hout HN Hsplit Hmax Hmin. unfold ltd in Hout.
  destruct (validate data n_out) as [r|] eqn:Hv.
  { subst r. apply validate_Ok in Hv as [-> _]. lia. }
  rewrite Hsplit, bind_Ok_eq in Hout.
  inv_bind Hout. rename a into o. injection Hout as <-. cbn [rows].
  split.
  - intros (bin & [i Hi]%list_elem_of_lookup_1 & Hc).
    destruct (select_points_extrema _ _ _ _ _ _ i bin Ha Hmax Hmin Hi) as [H _].
    apply (list_elem_of_lookup_2 _ (S i)). by apply H.
  - intros (bin & [i Hi]%list_elem_of_lookup_1 & Hc & Hc').
    destruct (select_points_extrema _ _ _ _ _ _ i bin Ha Hmax Hmin Hi) as [_ H].
    apply (list_elem_of_lookup_2 _ (S i)). by apply H.
Qed.

Lemma ltd_keeps_extrema_held_by_buckets_witness :
  ((exists bin,
      bin ∈ [take 32 (interior (rows series50));
             take 8 (drop 32 (interior (rows series50)));
             drop 40 (interior (rows series50))] /\
      contains [44%Q; 16%Q] bin = true) ->
   float64_row [44%Q; 16%Q]
   ∈ rows (array_of [(0, 0); (24, 14); (35, 0); (44, 16); (49, 12)]%Z))
  /\
  ((exists bin,
      bin ∈ [take 32 (interior (rows series50));
             take 8 (drop 32 (interior (rows series50)));
             drop 40 (interior (rows series50))] /\
      contains [44%Q; 16%Q] bin = false /\ contains [0%Q; 0%Q] bin = true) ->
   float64_row [0%Q; 0%Q]
   ∈ rows (array_of [(0, 0); (24, 14); (35, 0); (44, 16); (49, 12)]%Z)).
Proof.
  apply (ltd_keeps_extrema_held_by_buckets demo_externals series50 _ 5).
  - by vm_compute.
  - by vm_compute.
  - by vm_compute.
  - exists 44. split; [by apply argmax_spec|done].
  - exists 0. split; [by apply argmin_spec|done].
Defined.

(** ** How many buckets [_split_data] returns *)

Lemma refine_once_count `{E : Externals} (data : list row)
    (data_bins data_bins' : list (list row)) :
  refine_once data data_bins = Ok data_bins' ->
  length data_bins' <= S (length data_bins).
Proof.
  unfold refine_once, _resize_bins. intros H.
  inv_bind H. rename a into sse_list.
  inv_bind H. rename a into m.
  inv_bind H. rename a into mn.
  pose (Inv := fun (i : nat) (acc : list (list row)) =>
    length acc <= i + (if decide (m < i) then 1 else 0)).
  assert (Inv (length data_bins) data_bins') as Hlen.
  { revert H. apply for_each_range_inv.
    - unfold Inv. simpl. lia.
    - intros i acc acc' Hi Hacc (new & -> & Hnew)%resize_body_Ok.
      unfold Inv in *. rewrite length_app.
      destruct Hnew as [b -> Hb Hsplit|b b' Hm -> Hb Hb' ->|Hm Hmn -> ->
                       |b Hm Hmn Hskip Hb ->].
      + destruct (array_split_spec b 2) as (parts & Hparts & Hl & _); [lia|].
        rewrite Hsplit in Hparts. injection Hparts as <-.
        rewrite Hl. change (Z.to_nat 2) with 2. repeat case_decide; lia.
      + simpl. repeat case_decide; lia.
      + simpl. repeat case_decide; lia.
      + simpl. repeat case_decide; lia. }
  unfold Inv in Hlen. case_decide; lia.
Qed.

Lemma refine_count `{E : Externals} (fuel : nat) (data : list row)
    (data_bins data_bins' : list (list row)) :
  refine fuel data data_bins = Ok data_bins' ->
  length data_bins' <= length data_bins + fuel.
Proof.
  revert data_bins. induction fuel as [|fuel IH]; intros data_bins; simpl.
  - intros [= <-]. lia.
  - intros H. inv_bind H. apply refine_once_count in Ha. apply IH in H. lia.
Qed.

(** X23.  When [_split_data] returns, the number of buckets is at least
    [n_out - 2] and exceeds it by at most the number of refinement passes,
    [int(len(data) / (n_out * 10))]: a pass never removes a bucket and adds
    at most one. *)
Theorem split_data_bucket_count (E : Externals) (data : list row) (n_out : Z)
    (data_bins : list (list row)) :
  @_split_data E data n_out = Ok data_bins ->
  (n_out - 2 <= Z.of_nat (length data_bins)
   <= n_out - 2 + Z.quot (Z.of_nat (length data)) (n_out * 10))%Z.
Proof.
  intros H. pose proof (split_data_rows _ _ _ H) as [_ Hlow].
  split; [done|]. unfold _split_data in H.
  inv_bind H. rename a into iters. inv_bind H. rename a into bins0.
  assert (0 < n_out - 2)%Z as Hpos.
  { unfold array_split in Ha0. destruct (Z.leb_spec (n_out - 2) 0); [done|lia]. }
  destruct (array_split_spec (interior data) (n_out - 2) Hpos)
    as (parts & Hparts & Hl & _).
  rewrite Ha0 in Hparts. injection Hparts as <-.
  unfold iteration_num in Ha. destruct (n_out * 10 =? 0)%Z; [done|].
  injection Ha as <-.
  apply refine_count in H.
  assert (0 <= Z.of_nat (length data) ÷ (n_out * 10))%Z
    by (apply Z.quot_pos; lia).
  lia.
Qed.

Lemma split_data_bucket_count_witness :
  (5 - 2 <= Z.of_nat (length [take 32 (interior (rows series50));
                              take 8 (drop 32 (interior (rows series50)));
                              drop 40 (interior (rows series50))])
   <= 5 - 2 + Z.quot (Z.of_nat (length (rows series50))) (5 * 10))%Z.
Proof.
  apply (split_data_bucket_count demo_externals (rows series50) 5).
  by vm_compute.
Defined.

(** ** The dynamic variant with at most one refinement pass *)

(** X24.  On a 2-column series with strictly increasing x, [n_out >= 4]
    and [n_out < N < 20 * n_out], the dynamic variant returns an array of
    [n_out] rows of 2 columns, whatever scores [linregress] returns: there
    is at most one refinement pass, it runs on the static buckets, two or
    more of at least two rows each, every one of which gives [linregress]
    two different x values, and leaves [n_out - 2] or [n_out - 1] buckets,
    none empty. *)
Theorem ltd_returns_with_at_most_one_pass (E : Externals) (data : ndarray)
    (n_out : Z) :
  shape1 data = 2 ->
  strictly_increasing (column0 (rows data)) ->
  (4 <= n_out < shape0 data)%Z ->
  (shape0 data < n_out * 20)%Z ->
  exists data_bins out,
    array_split (interior (rows data)) (n_out - 2) = Ok data_bins /\
    scorable (rows data) data_bins = true /\
    @ltd E data n_out = Ok out /\ shape1 out = 2 /\ shape0 out = n_out.
Proof.
  intros H2 Hinc Hn H20.
  pose proof (strictly_increasing_non_decreasing _ Hinc) as Hs.
  pose proof (validate_passes data n_out H2 Hs ltac:(lia)) as Hv.
  unfold shape0 in Hn, H20.
  assert (rows data <> []) as Hdata.
  { intros Hnil. rewrite Hnil in Hn. simpl in Hn. lia. }
  destruct (array_split_spec (interior (rows data)) (n_out - 2))
    as (bins & Hsplit & Hlen & Hcat & Hlow); [lia|].
  rewrite length_interior in Hlow.
  assert (exists bins',
            @_split_data E (rows data) n_out = Ok bins' /\
            (n_out - 2 <= Z.of_nat (length bins') < n_out)%Z /\
            Forall (fun b => b <> []) bins') as (bins' & Hsd & Hcount & Hfull).
  { unfold _split_data.
    destruct (Z.lt_ge_cases (Z.of_nat (length (rows data))) (n_out * 10))
      as [Hsmall|Hbig].
    - rewrite (iteration_num_small _ _ Hsmall), bind_Ok_eq, Hsplit, bind_Ok_eq.
      change (Z.to_nat 0) with 0. cbn [refine].
      exists bins. split; [done|]. split; [lia|].
      eapply Forall_impl; [exact Hlow|]. intros b Hb ->. cbn [length] in Hb.
      pose proof (Nat.div_le_lower_bound (length (rows data) - 2)
                    (Z.to_nat (n_out - 2)) 1). lia.
    - rewrite (iteration_num_once (rows data) n_out) by lia.
      rewrite bind_Ok_eq, Hsplit, bind_Ok_eq.
      change (Z.to_nat 1) with 1. cbn [refine].
      assert (Forall (fun b : list row => 2 <= length b) bins) as Hbig2.
      { eapply Forall_impl; [exact Hlow|]. intros b Hb. cbn beta in Hb.
        pose proof (Nat.div_le_lower_bound (length (rows data) - 2)
                      (Z.to_nat (n_out - 2)) 2). lia. }
      destruct (refine_once_total E (rows data) bins Hdata)
        as (bins' & Hpass & Hc & Hne); [lia| |].
      { eapply Forall_impl; [exact Hbig2|]. intros b Hb ->. simpl in Hb. lia. }
      rewrite Hpass, bind_Ok_eq. exists bins'. split; [done|]. split; [lia|].
      apply Hne. exists 0.
      destruct (lookup_lt_is_Some_2 bins 0) as [b Hb]; [lia|].
      exists b. split; [done|]. exact (Forall_lookup_1 _ _ _ _ Hbig2 Hb). }
  destruct (select_points_fit (rows data) n_out bins' Hdata Hfull Hcount)
    as [o Ho].
  exists bins, {| shape1 := 2; rows := o |}. split; [done|]. split.
  { apply (scorable_static (rows data) (n_out - 2)); [done|lia|done|].
    eapply Forall_impl; [exact Hlow|]. intros b Hb ->. cbn [length] in Hb.
    pose proof (Nat.div_le_lower_bound (length (rows data) - 2)
                  (Z.to_nat (n_out - 2)) 1). lia. }
  split.
  - unfold ltd. by rewrite Hv, Hsd, bind_Ok_eq, Ho.
  - split; [done|]. unfold shape0. cbn [rows].
    apply select_points_Ok in Ho
      as (first & last & maxp & minp & _ & _ & _ & _ & _ & Hl & _).
    rewrite length_out_init in Hl. lia.
Qed.

Lemma ltd_returns_with_at_most_one_pass_witness :
  exists data_bins out,
    array_split (interior (rows series50)) (5 - 2) = Ok data_bins /\
    scorable (rows series50) data_bins = true /\
    @ltd demo_externals series50 5 = Ok out /\ shape1 out = 2 /\
    shape0 out = 5%Z.
Proof.
  apply (ltd_returns_with_at_most_one_pass demo_externals series50 5).
  - reflexivity.
  - apply strict_check_sound. vm_compute. reflexivity.
  - vm_compute. split; [discriminate|reflexivity].
  - reflexivity.
Defined.

(** ** The exceptions of the dynamic variant *)

Section RaisesOnly.
Variable allowed : exn -> bool.

Lemma raises_only_Ok {A} (a : A) : raises_only allowed (Ok a).
Proof. intros e. discriminate. Qed.

Lemma raises_only_Raise {A} (e : exn) :
  allowed e = true -> raises_only allowed (@Raise A e).
Proof. intros He e' [= <-]. done. Qed.

Lemma raises_only_bind {A B} (m : result A) (f : A -> result B) :
  raises_only allowed m -> (forall a, raises_only allowed (f a)) ->
  raises_only allowed (m ≫= f).
Proof.
  intros Hm Hf. destruct m as [a|e]; simpl; [apply Hf|].
  intros e' [= <-]. by apply Hm.
Qed.

Lemma raises_only_for_each {St I} (body : St -> I -> result St) (idx : list I)
    (s : St) :
  (forall t i, raises_only allowed (body t i)) ->
  raises_only allowed (for_each body idx s).
Proof.
  intros Hbody. revert s. induction idx as [|i idx IH]; intros s; simpl.
  - apply raises_only_Ok.
  - apply raises_only_bind; auto.
Qed.

Hypothesis Hindex : allowed IndexError = true.

Lemma raises_only_getitem {A} (l : list A) (i : Z) :
  raises_only allowed (getitem l i).
Proof.
  unfold getitem. destruct (py_index l i) as [k|]; [destruct (l !! k)|];
    by (apply raises_only_Ok || apply raises_only_Raise).
Qed.

Lemma raises_only_setitem {A} (l : list A) (i : Z) (v : A) :
  raises_only allowed (setitem l i v).
Proof.
  unfold setitem. destruct (py_index l i);
    by (apply raises_only_Ok || apply raises_only_Raise).
Qed.

Lemma raises_only_scoring `{E : Externals} (data : list row)
    (data_bins : list (list row)) (n : nat) :
  raises_only allowed (for_each (sse_body data data_bins) (range n) []).
Proof.
  apply raises_only_for_each. intros t i. unfold sse_body.
  repeat first
    [ progress intros
    | apply raises_only_Ok
    | apply raises_only_getitem
    | apply raises_only_bind
    | match goal with
      | |- raises_only _ (if ?b then _ else _) => destruct b
      end ].
Qed.

Hypothesis Hvalue : allowed ValueError = true.

Lemma raises_only_select_points (data : list row) (n_out : Z)
    (data_bins : list (list row)) :
  raises_only allowed (select_points data n_out data_bins).
Proof.
  unfold select_points, select_body, argmax_area, argmax, argmin.
  repeat first
    [ progress intros
    | apply raises_only_Ok
    | solve [by apply raises_only_Raise]
    | apply raises_only_getitem
    | apply raises_only_setitem
    | apply raises_only_bind
    | apply raises_only_for_each
    | match goal with
      | |- raises_only _ (if ?b then _ else _) => destruct b
      | |- raises_only _ (match ?x with _ => _ end) => destruct x
      end ].
Qed.
End RaisesOnly.

Section RefinerRaises.
Context `{E : Externals}.

(** With a single bucket the scoring loop does not return. *)
Lemma scoring_single (data : list row) (b0 : list row) (sse_list : list Q) :
  for_each (sse_body data [b0]) (range 1) [] = Ok sse_list -> False.
Proof.
  cbn [for_each range seq map length]. unfold sse_body.
  change (Z.of_nat 0) with 0%Z. cbn [Z.eqb]. change (0 + 1)%Z with 1%Z.
  change (getitem [b0] 1) with (@Raise (list row) IndexError).
  destruct (getitem data 0); by rewrite ?bind_Ok_eq, ?bind_Raise_eq.
Qed.

(** A refinement pass on a non-empty bucket list can only fail in its
    scoring loop, with IndexError. *)
Lemma refine_once_raises (data : list row) (data_bins : list (list row)) :
  data_bins <> [] -> raises_only index_error (refine_once data data_bins).
Proof.
  intros Hne e. unfold refine_once.
  destruct (for_each (sse_body data data_bins) (range (length data_bins)) [])
    as [sse|e'] eqn:Hsse.
  2: { rewrite bind_Raise_eq. intros [= <-].
       exact (raises_only_scoring index_error eq_refl data data_bins _ e' Hsse). }
  rewrite bind_Ok_eq. pose proof (length_sse_list _ _ _ _ Hsse) as Hlen.
  destruct (find_max_bin_spec data_bins sse Hlen Hne) as (m & Hm & _).
  assert (2 <= length data_bins) as H2.
  { destruct data_bins as [|b0 [|b1 bins]]; [done| |simpl; lia].
    by destruct (scoring_single _ _ _ Hsse). }
  destruct (argmin_total (sum_pairs sse)) as [mn Hmn].
  { intros Hs. pose proof (length_sum_pairs sse) as Hl.
    rewrite Hs in Hl. simpl in Hl. lia. }
  pose proof (find_min_bin_lt sse mn Hmn) as Hmnlt. rewrite Hlen in Hmnlt.
  destruct (resize_loop_returns data_bins m mn Hmnlt) as [bins' Hrun].
  unfold _resize_bins. rewrite Hm, bind_Ok_eq.
  unfold _find_min_bin. rewrite Hmn, bind_Ok_eq, Hrun. discriminate.
Qed.

Lemma refine_raises (fuel : nat) (data : list row) (data_bins : list (list row)) :
  data_bins <> [] -> raises_only index_error (refine fuel data data_bins).
Proof.
  revert data_bins. induction fuel as [|fuel IH]; intros data_bins Hne; simpl.
  - apply raises_only_Ok.
  - destruct (refine_once data data_bins) as [bins'|e'] eqn:Hpass.
    + rewrite bind_Ok_eq. apply IH.
      destruct (refine_once_rows _ _ _ (fun _ => True) Hpass) as [_ Hlen].
      { apply Forall_forall. intros b _. apply Forall_forall. done. }
      intros ->. destruct data_bins; [done|simpl in Hlen; lia].
    + rewrite bind_Raise_eq. intros e [= <-].
      by apply (refine_once_raises data data_bins Hne).
Qed.

Lemma split_data_raises (data : list row) (n_out : Z) :
  (3 <= n_out)%Z -> raises_only index_error (_split_data data n_out).
Proof.
  intros Hn. unfold _split_data, iteration_num.
  destruct (Z.eqb_spec (n_out * 10) 0); [lia|]. rewrite bind_Ok_eq.
  destruct (array_split_spec (interior data) (n_out - 2))
    as (bins & -> & Hlen & _); [lia|].
  rewrite bind_Ok_eq. apply refine_raises.
  intros ->. simpl in Hlen. lia.
Qed.
End RefinerRaises.

(** X25.  Past the validation the dynamic variant returns or raises
    IndexError or ValueError, as long as [linregress] returns a score for
    every bucket, whatever the scores are: [_split_data] can only fail with
    IndexError (in the scoring loop, never in [_find_max_bin],
    [_find_min_bin] or [_resize_bins]), and the selection loop with
    IndexError or with the ValueError of an [argmax] over an empty
    bucket. *)
Theorem ltd_failure_kinds (E : Externals) (data : ndarray) (n_out : Z) :
  shape1 data = 2 ->
  non_decreasing (column0 (rows data)) ->
  (3 <= n_out < shape0 data)%Z ->
  (forall e, @_split_data E (rows data) n_out = Raise e -> e = IndexError) /\
  (forall e, @ltd E data n_out = Raise e -> e = IndexError \/ e = ValueError).
Proof.
  intros H2 Hs Hn.
  pose proof (@split_data_raises E (rows data) n_out ltac:(lia)) as Hsd.
  split.
  - intros e He. apply Hsd in He. by destruct e.
  - intros e. unfold ltd. rewrite (validate_passes data n_out H2 Hs Hn).
    destruct (_split_data (rows data) n_out) as [bins|e'] eqn:Hsplit.
    + rewrite bind_Ok_eq.
      destruct (select_points (rows data) n_out bins) as [o|e''] eqn:Hsel;
        [discriminate|].
      rewrite bind_Raise_eq. intros [= <-].
      pose proof (raises_only_select_points index_or_value_error eq_refl eq_refl
                    (rows data) n_out bins e'' Hsel) as He.
      destruct e''; try discriminate; auto.
    + rewrite bind_Raise_eq. intros [= <-]. left.
      pose proof (Hsd e' eq_refl) as He. by destruct e'.
Qed.

Lemma ltd_failure_kinds_witness :
  (forall e, @_split_data demo_externals (rows series30) 3 = Raise e ->
             e = IndexError) /\
  (forall e, @ltd demo_externals series30 3 = Raise e ->
             e = IndexError \/ e = ValueError).
Proof.
  apply (ltd_failure_kinds demo_externals series30 3).
  - reflexivity.
  - apply sorted_check. vm_compute. reflexivity.
  - vm_compute. split; [discriminate|reflexivity].
Defined.

(** ** The output of the static variant as a subsequence *)

Lemma sublist_singleton_elem_of {A} (a : A) (l : list A) :
  a ∈ l -> [a] `sublist_of` l.
Proof.
  intros (l1 & l2 & ->)%list_elem_of_split.
  apply sublist_inserts_l. apply sublist_skip. apply sublist_nil_l.
Qed.

Lemma sublist_picks {A} (picks : list A) (bins : list (list A)) :
  Forall2 (fun p b => p ∈ b) picks bins -> picks `sublist_of` concat bins.
Proof.
  induction 1 as [|p b picks bins Hp _ IH]; [done|].
  change (p :: picks) with ([p] ++ picks). cbn [concat].
  apply sublist_app; [by apply sublist_singleton_elem_of|done].
Qed.

Lemma lookup_interior_S {A} (l : list A) (j : nat) :
  S (S j) < length l -> interior l !! j = l !! S j.
Proof.
  intros Hj. unfold interior. rewrite lookup_take_lt by lia.
  by rewrite lookup_drop.
Qed.

(** X26.  Whenever the static variant returns on a series of float64
    numbers whose x column is strictly increasing, the output is a
    subsequence of the series: the series with some of its rows deleted. *)
Theorem lttb_output_is_subsequence (data out : ndarray) (n_out : Z) :
  float64_array (rows data) = true ->
  lttb data n_out = Ok out ->
  strictly_increasing (column0 (rows data)) ->
  rows out `sublist_of` rows data.
Proof.
  intros Hfloat Hout Hstrict.
  destruct (validate data n_out) as [r|] eqn:Hv.
  { unfold lttb in Hout. rewrite Hv in Hout. subst r.
    by apply validate_Ok in Hv as [_ ->]. }
  pose proof (validate_None _ _ Hv) as (_ & _ & H3). unfold shape0 in H3.
  destruct (lttb_structure data out n_out Hout)
    as (bins & first & last & maxp & minp & _ & _ & [Hcount Hcat] & _ &
        Hfirst & Hlast & Hmax & Hmin & _ & Hlen & Hout0 & Hlast' & Hdone);
    [unfold shape0; lia|].
  assert (forall j bin q, bins !! j = Some bin -> q ∈ bin -> q ∈ rows data)
    as Hrows.
  { intros j bin q Hbin Hq. apply elem_of_interior. rewrite <- Hcat.
    apply (elem_of_concat_2 _ bin); [|done]. by eapply list_elem_of_lookup_2. }
  rewrite (float64_array_row _ first Hfloat) in Hout0
    by (by eapply list_elem_of_lookup_2).
  rewrite (float64_array_row _ last Hfloat) in Hlast'
    by (by eapply list_elem_of_lookup_2).
  rewrite (ends_and_interior (rows data) first last) by (done || lia).
  rewrite (ends_and_interior (rows out) first last);
    [|lia|done|by replace (length (rows out) - 1) with (Z.to_nat n_out - 1) by lia].
  apply sublist_skip. apply sublist_app; [|done].
  rewrite <- Hcat. apply sublist_picks.
  apply Forall2_same_length_lookup_2.
  { rewrite length_interior. lia. }
  intros j p bin Hp Hbin.
  pose proof (lookup_lt_Some _ _ _ Hbin) as Hj.
  rewrite lookup_interior_S in Hp by lia.
  destruct (Hdone j Hj) as (p' & Hp' & Hpick).
  assert (p' ∈ rows data) as Hin.
  { pose proof (picked_elem_of _ _ _ _ _ _ _ _ Hpick)
      as [->|[->|(b' & Hb' & Hpb)]].
    - by apply global_max_point_elem_of.
    - by apply global_min_point_elem_of.
    - eauto. }
  rewrite (float64_array_row _ p' Hfloat Hin) in Hp'.
  assert (p' = p) as -> by congruence.
  pose proof (picked_contains _ _ _ _ _ _ _ _ Hpick) as (b & Hb & Hc).
  assert (b = bin) as -> by congruence.
  apply (contains_strict (rows data)); [done|done|by eauto|done].
Qed.

Lemma lttb_output_is_subsequence_witness :
  rows (array_of [(0, 0); (3, 9); (4, 2); (8, 4); (9, 0)]%Z)
    `sublist_of` rows series10.
Proof.
  apply (lttb_output_is_subsequence series10 _ 5).
  - by vm_compute.
  - by vm_compute.
  - apply strict_check_sound. reflexivity.
Defined.

(** ** The largest computed area *)


